(** * vulkan-shaders-gen: the shader catalog, the build graph and the embedder

    A shallow embedding of
    [ggml/src/ggml-vulkan/vulkan-shaders/vulkan-shaders-gen.cpp].

    - [std::string] is [string]; a [std::filesystem::path] is the string it
      holds, with the POSIX reading of [operator/] and [filename()];
    - [std::map<std::string, std::string>] is a list of pairs kept strictly
      sorted by key, so that iterating it visits the keys in the order of
      [std::less<std::string>];
    - a [std::stringstream] is the sequence of the chunks written to it;
    - the preprocessor switches ([GGML_VULKAN_*_GLSLC_SUPPORT],
      [GGML_VULKAN_SHADER_DEBUG_INFO]) are the fields of [build_config];
    - the global variables are threaded explicitly: [globals] for the three
      settings read from the command line, [gen_state] for the catalog and
      the CMake text, [world] for the file system. *)

From Stdlib Require Import List Bool Arith NArith ZArith Lia.
From Stdlib Require Import Ascii String.
From Stdlib Require Import Decimal DecimalString DecimalNat.
From Stdlib Require Import OrderedTypeEx.
From Stdlib Require Import Sorted Permutation Orders Mergesort.
From Stdlib Require Strings.Byte HexString.
Import ListNotations.

Open Scope list_scope.
Open Scope string_scope.

(** ** Characters and strings *)

Definition char_quote : ascii := ascii_of_nat 34.
Definition char_backslash : ascii := ascii_of_nat 92.
Definition char_newline : ascii := ascii_of_nat 10.
Definition char_dash : ascii := ascii_of_nat 45.
Definition char_slash : ascii := ascii_of_nat 47.

Definition str1 (c : ascii) : string := String c EmptyString.
Definition quote : string := str1 char_quote.
Definition nl : string := str1 char_newline.

(** [std::toupper] in the "C" locale. *)
Definition toupper (c : ascii) : ascii :=
  let n := nat_of_ascii c in
  if ((97 <=? n)%nat && (n <=? 122)%nat)%bool then ascii_of_nat (n - 32) else c.

Fixpoint to_uppercase (input : string) : string :=
  match input with
  | EmptyString => EmptyString
  | String c rest => String (toupper c) (to_uppercase rest)
  end.

Fixpoint string_rev_onto (s acc : string) : string :=
  match s with
  | EmptyString => acc
  | String c rest => string_rev_onto rest (String c acc)
  end.

Definition string_rev (s : string) : string := string_rev_onto s EmptyString.

(** [std::equal(prefix.begin(), prefix.end(), str.begin())] after the size
    test is exactly the prefix test. *)
Definition string_starts_with (str pre : string) : bool :=
  if (String.length str <? String.length pre)%nat then false
  else String.prefix pre str.

(** The same comparison through the reverse iterators. *)
Definition string_ends_with (str suffix : string) : bool :=
  if (String.length str <? String.length suffix)%nat then false
  else String.prefix (string_rev suffix) (string_rev str).

(** [s.find(sub) != std::string::npos] *)
Fixpoint string_contains (sub s : string) : bool :=
  String.prefix sub s ||
  match s with
  | EmptyString => false
  | String _ rest => string_contains sub rest
  end.

Definition is_quantized_type (type_name : string) : bool :=
  negb (type_name =? "f32") && negb (type_name =? "f16") &&
  negb (type_name =? "bf16").

Definition is_legacy_quant (type_name : string) : bool :=
  (type_name =? "q4_0") || (type_name =? "q4_1") || (type_name =? "q5_0") ||
  (type_name =? "q5_1") || (type_name =? "q8_0").

Definition is_k_quant (type_name : string) : bool :=
  string_ends_with type_name "_k".

Definition is_iq_quant (type_name : string) : bool :=
  string_starts_with type_name "iq".

Definition type_names : list string :=
  [ "f32"; "f16"; "q4_0"; "q4_1"; "q5_0"; "q5_1"; "q8_0"; "q2_k"; "q3_k";
    "q4_k"; "q5_k"; "q6_k"; "iq1_s"; "iq1_m"; "iq2_xxs"; "iq2_xs"; "iq2_s";
    "iq3_xxs"; "iq3_s"; "iq4_xs"; "iq4_nl"; "mxfp4"; "bf16" ].

Inductive MatMulIdType : Type := NONE | DEFAULT | SUBGROUP.

Definition MatMulIdType_eqb (a b : MatMulIdType) : bool :=
  match a, b with
  | NONE, NONE | DEFAULT, DEFAULT | SUBGROUP, SUBGROUP => true
  | _, _ => false
  end.

(** ** [std::map<std::string, std::string>] *)

Module StdMap.

Definition t : Type := list (string * string).

Definition empty : t := [].

(** [m.find(k)] *)
Fixpoint find (k : string) (m : t) : option string :=
  match m with
  | [] => None
  | (k', v) :: rest => if (k' =? k)%string then Some v else find k rest
  end.

(** [m.insert({k, v})]: an element whose key is already present is left
    as it is. *)
Fixpoint insert (k v : string) (m : t) : t :=
  match m with
  | [] => [(k, v)]
  | (k', v') :: rest =>
      match String.compare k k' with
      | Lt => (k, v) :: m
      | Eq => m
      | Gt => (k', v') :: insert k v rest
      end
  end.

(** [m[k] = v]: the element is created or overwritten. *)
Fixpoint set (k v : string) (m : t) : t :=
  match m with
  | [] => [(k, v)]
  | (k', v') :: rest =>
      match String.compare k k' with
      | Lt => (k, v) :: m
      | Eq => (k, v) :: rest
      | Gt => (k', v') :: set k v rest
      end
  end.

(** [m.insert(first, last)] *)
Definition insert_range (elts : list (string * string)) (m : t) : t :=
  fold_left (fun acc kv => insert (fst kv) (snd kv) acc) elts m.

(** The constructor from a braced initializer list. *)
Definition of_list (elts : list (string * string)) : t :=
  insert_range elts empty.

(** The keys of a map are strictly increasing. *)
Fixpoint sorted (m : t) : bool :=
  match m with
  | [] => true
  | (k, _) :: rest =>
      match rest with
      | [] => true
      | (k', _) :: _ => String.ltb k k' && sorted rest
      end
  end.

Definition key_lt (a b : string) : Prop := String.compare a b = Lt.

(** Every key of [m] is above [k]. *)
Definition above (k : string) (m : t) : Prop :=
  Forall (fun kv => key_lt k (fst kv)) m.

End StdMap.

Definition merge_maps (a b : StdMap.t) : StdMap.t :=
  let result := a in
  StdMap.insert_range b result.

(** ** Paths, vectors and string streams *)

(** A [std::filesystem::path], by the string it holds (POSIX conventions:
    the separator is '/', the generic and the native formats coincide). *)
Definition path : Type := string.

Definition path_is_absolute (p : path) : bool :=
  match p with
  | String c _ => Ascii.eqb c char_slash
  | EmptyString => false
  end.

Definition path_ends_with_slash (p : path) : bool :=
  match string_rev p with
  | String c _ => Ascii.eqb c char_slash
  | EmptyString => false
  end.

(** Helper of [path_filename]: the characters after the last separator,
    [cur] being the candidate collected (reversed) since the last one. *)
Fixpoint after_last_slash (s : string) (cur : string) : string :=
  match s with
  | EmptyString => string_rev cur
  | String c rest =>
      if Ascii.eqb c char_slash then after_last_slash rest EmptyString
      else after_last_slash rest (String c cur)
  end.

(** [p.filename()] *)
Definition path_filename (p : path) : path := after_last_slash p EmptyString.

(** [p / q] *)
Definition path_append (p q : path) : path :=
  if path_is_absolute q then q
  else if (String.length (path_filename p) =? 0)%nat then p ++ q
  else p ++ str1 char_slash ++ q.

(** Escaping shared by [std::quoted] and [cmake_escape]: a backslash goes
    before every double quote and every backslash. *)
Fixpoint escape_quotes (s : string) : string :=
  match s with
  | EmptyString => EmptyString
  | String c rest =>
      if (Ascii.eqb c char_quote || Ascii.eqb c char_backslash)%bool
      then String char_backslash (String c (escape_quotes rest))
      else String c (escape_quotes rest)
  end.

Definition cmake_escape (str : string) : string := escape_quotes str.

(** [os << p] for a path [p]: the string, quoted. *)
Definition path_out (p : path) : string := quote ++ escape_quotes p ++ quote.

(** A [std::vector] that only grows by [emplace_back]/[push_back]: the last
    element pushed is at the head; [vec_items] lists it in index order. *)
Definition vec (A : Type) : Type := list A.
Definition emplace_back {A : Type} (v : vec A) (x : A) : vec A := x :: v.
Definition vec_items {A : Type} (v : vec A) : list A := List.rev v.

(** A [std::stringstream] imbued with the "C" locale: the chunks written so
    far, the last one at the head; [ss_str] is [str()]. *)
Definition sstream : Type := list string.
Definition make_generic_stringstream : sstream := [].
Definition ss_put (s : sstream) (x : string) : sstream := x :: s.
Definition ss_str (s : sstream) : string := String.concat EmptyString (List.rev s).

Declare Scope stream_scope.
Delimit Scope stream_scope with stream.
Notation "s << x" := (ss_put s x) (at level 61, left associativity) : stream_scope.
Open Scope stream_scope.

(** Decimal output of a [size_t]. *)
Definition dec_of_nat (n : nat) : string :=
  NilEmpty.string_of_uint (Nat.to_uint n).

(** ** Configuration *)

(** The preprocessor symbols the generator is compiled with. *)
Record build_config : Type := {
  GGML_VULKAN_COOPMAT_GLSLC_SUPPORT : bool;
  GGML_VULKAN_COOPMAT2_GLSLC_SUPPORT : bool;
  GGML_VULKAN_INTEGER_DOT_GLSLC_SUPPORT : bool;
  GGML_VULKAN_BFLOAT16_GLSLC_SUPPORT : bool;
  GGML_VULKAN_SHADER_DEBUG_INFO : bool
}.

(** The globals set from the command line. *)
Record globals : Type := {
  GLSLC : string;
  input_dir : path;
  output_dir : path
}.

Definition default_globals : globals :=
  {| GLSLC := "glslc"; input_dir := "vulkan-shaders"; output_dir := "/tmp" |}.

(** The globals filled while the catalog is built: [cmake] (its text and
    its output paths) and [shader_fnames]. *)
Record gen_state : Type := {
  cmake_out : sstream;
  cmake_out_filepaths : vec path;
  shader_fnames : vec (string * path)
}.

Definition initial_state : gen_state :=
  {| cmake_out := make_generic_stringstream;
     cmake_out_filepaths := [];
     shader_fnames := [] |}.

Definition action : Type := gen_state -> gen_state.

Definition skip : action := fun st => st.

(** Statements in sequence. *)
Definition seq (body : list action) : action :=
  fun st => fold_left (fun s a => a s) body st.

(** A range-based [for]. *)
Definition for_each {A : Type} (range : list A) (body : A -> action) : action :=
  seq (map body range).

Definition when (c : bool) (body : action) : action :=
  if c then body else skip.

(** ** The build graph *)

Section CMakeLists.

Variable g : globals.

Definition add_header (argv : list string) (out : sstream) : sstream :=
  let out := out << "# Generated with " in
  let out := fold_left (fun o a => o << a << " ") argv out in
  out << nl ++ nl
      << "cmake_minimum_required(VERSION 3.14)" ++ nl
      << "project(ggml-vulkan-shaders)" ++ nl ++ nl
      << "set(GLSLC " ++ quote << GLSLC g << quote ++ ")" ++ nl ++ nl
      << "function(compile_shader name in_file out_file flags)" ++ nl
      << "  add_custom_command(" ++ nl
      << "    OUTPUT ${out_file}" ++ nl
      << "    COMMAND ${GLSLC} ${flags} ${ARGN} -MD -MF ${out_file}.d ${in_file} -o ${out_file}" ++ nl
      << "    DEPENDS ${in_file}" ++ nl
      << "    DEPFILE ${out_file}.d" ++ nl
      << "    COMMENT " ++ quote ++ "Building Vulkan shader ${name}.spv" ++ quote ++ nl
      << "  )" ++ nl
      << "endfunction()" ++ nl ++ nl.

Definition add_build_command (name : string) (in_filepath out_filepath : path)
    (flags : list string) : action :=
  fun st =>
    let out := cmake_out st in
    let out := out << "compile_shader(" << name << " " << path_out in_filepath
                   << " " << path_out out_filepath << " " in
    let out := fold_left
                 (fun o flag => o << quote << cmake_escape flag << quote ++ " ")
                 flags out in
    let out := out << ")" ++ nl in
    {| cmake_out := out;
       cmake_out_filepaths := emplace_back (cmake_out_filepaths st) out_filepath;
       shader_fnames := shader_fnames st |}.

Definition add_target_embed (shaders_gen_executable target_hpp target_cpp : path)
    : action :=
  fun st =>
    let out := cmake_out st in
    let out := out << nl ++ "add_custom_command(" ++ nl
                   << "  OUTPUT " << path_out target_hpp << " "
                   << path_out target_cpp << nl
                   << "  COMMAND " << path_out shaders_gen_executable
                   << " --glslc " << GLSLC g
                   << " --input-dir " << path_out (input_dir g)
                   << " --output-dir " << path_out (output_dir g)
                   << " --target-hpp " << path_out target_hpp
                   << " --target-cpp " << path_out target_cpp << nl
                   << "  DEPENDS" ++ nl in
    let out := fold_left (fun o spv_path => o << "    " << path_out spv_path << nl)
                 (vec_items (cmake_out_filepaths st)) out in
    let out := out << "  COMMENT " ++ quote
                        ++ "Embedding Vulkan shaders into C++ source" ++ quote ++ nl
                   << ")" ++ nl
                   << nl ++ "add_custom_target(vulkan-shaders ALL DEPENDS" ++ nl
                   << "  " << path_out target_hpp << nl
                   << "  " << path_out target_cpp << nl
                   << ")" ++ nl in
    {| cmake_out := out;
       cmake_out_filepaths := cmake_out_filepaths st;
       shader_fnames := shader_fnames st |}.

Definition add_target_build_only : action :=
  fun st =>
    let out := cmake_out st in
    let out := out << nl ++ "add_custom_target(vulkan-shaders ALL DEPENDS" ++ nl in
    let out := fold_left (fun o spv_path => o << "  " << path_out spv_path << nl)
                 (vec_items (cmake_out_filepaths st)) out in
    let out := out << ")" ++ nl in
    {| cmake_out := out;
       cmake_out_filepaths := cmake_out_filepaths st;
       shader_fnames := shader_fnames st |}.

End CMakeLists.

(** ** The catalog of compile jobs *)

Section Catalog.

Variable cfg : build_config.
Variable g : globals.

(** The local [name] of [string_to_spv]. *)
Definition spv_name (_name : string) (fp16 coopmat coopmat2 f16acc : bool) : string :=
  _name ++ (if f16acc then "_f16acc" else EmptyString)
        ++ (if coopmat then "_cm1" else EmptyString)
        ++ (if coopmat2 then "_cm2" else (if fp16 then EmptyString else "_fp32")).

(** The local [target_env] of [string_to_spv]. *)
Definition spv_target_env (name : string) : string :=
  if string_contains "_cm2" name then "--target-env=vulkan1.3"
  else "--target-env=vulkan1.2".

(** The local [opt_level] of [string_to_spv]: spirv-opt is disabled for
    coopmat shaders and for bf16 shaders. *)
Definition spv_opt_level (name : string) (coopmat : bool) : string :=
  if (coopmat || string_contains "bf16" name)%bool then EmptyString else "-O".

(** The local [flags] of [string_to_spv], once complete. *)
Definition spv_flags (name : string) (coopmat : bool) (defines : StdMap.t)
    : list string :=
  let flags := ["-fshader-stage=compute"; spv_target_env name;
                spv_opt_level name coopmat] in
  let flags := if GGML_VULKAN_SHADER_DEBUG_INFO cfg
               then List.app flags ["-g"] else flags in
  List.app flags
    (map (fun define => "-D" ++ fst define ++ "=" ++ snd define) defines).

Definition string_to_spv (_name in_fname : string) (defines : StdMap.t)
    (fp16 coopmat coopmat2 f16acc : bool) : action :=
  fun st =>
    let name := spv_name _name fp16 coopmat coopmat2 f16acc in
    let out_path := path_append (output_dir g) (name ++ ".spv") in
    let in_path := path_append (input_dir g) in_fname in
    let flags := spv_flags name coopmat defines in
    let st := add_build_command name in_path out_path flags st in
    {| cmake_out := cmake_out st;
       cmake_out_filepaths := cmake_out_filepaths st;
       shader_fnames := emplace_back (shader_fnames st) (name, out_path) |}.

(** [string_to_spv] with its default arguments
    ([fp16 = true], [coopmat = coopmat2 = f16acc = false]). *)
Definition string_to_spv0 (_name in_fname : string) (defines : StdMap.t) : action :=
  string_to_spv _name in_fname defines true false false false.

Definition mk : list (string * string) -> StdMap.t := StdMap.of_list.

Definition f16_max : string := quote ++ "float16_t(65504.0)" ++ quote.

Definition matmul_shaders (fp16 : bool) (matmul_id_type : MatMulIdType)
    (coopmat coopmat2 f16acc : bool) : action :=
  let load_vec := if coopmat2 then "1" else if fp16 then "8" else "4" in
  let aligned_b_type_f32 :=
    if coopmat2 then "float" else if fp16 then "mat2x4" else "vec4" in
  let aligned_b_type_f16 :=
    if coopmat2 then "float16_t" else if fp16 then "f16mat2x4" else "f16vec4" in
  let base_dict :=
    mk [("FLOAT_TYPE_VEC2", if (coopmat2 || fp16)%bool then "f16vec2" else "vec2")] in
  let shader_name := "matmul" in
  let '(base_dict, shader_name) :=
    match matmul_id_type with
    | DEFAULT => (StdMap.set "MUL_MAT_ID" "1" base_dict, "matmul_id")
    | SUBGROUP =>
        (StdMap.set "MUL_MAT_ID_USE_SUBGROUPS" "1"
           (StdMap.set "MUL_MAT_ID" "1" base_dict), "matmul_id_subgroup")
    | NONE => (base_dict, shader_name)
    end in
  let base_dict := if fp16 then StdMap.set "FLOAT16" "1" base_dict else base_dict in
  let base_dict :=
    StdMap.set "ACC_TYPE" (if f16acc then "float16_t" else "float") base_dict in
  let base_dict :=
    if f16acc then StdMap.set "ACC_TYPE_MAX" f16_max base_dict else base_dict in
  let base_dict := if coopmat then StdMap.set "COOPMAT" "1" base_dict else base_dict in
  let source_name := if coopmat2 then "mul_mm_cm2.comp" else "mul_mm.comp" in
  let FLOAT_TYPE := fun t : string =>
    if t =? "bf16" then
      (* scalar path promotes to float *)
      if (negb coopmat && negb coopmat2)%bool then "float" else "bfloat16_t"
    else if (coopmat2 || fp16)%bool then "float16_t"
    else "float" in
  seq [
    (* Shaders with f16 B_TYPE *)
    string_to_spv (shader_name ++ "_f32_f16") source_name
      (merge_maps base_dict (mk [("FLOAT_TYPE", FLOAT_TYPE "f16"); ("DATA_A_F32", "1");
         ("B_TYPE", "float16_t"); ("D_TYPE", "float")]))
      fp16 coopmat coopmat2 f16acc;
    string_to_spv (shader_name ++ "_f32_f16_aligned") source_name
      (merge_maps base_dict (mk [("FLOAT_TYPE", FLOAT_TYPE "f16"); ("DATA_A_F32", "1");
         ("LOAD_VEC_A", load_vec); ("LOAD_VEC_B", load_vec);
         ("B_TYPE", aligned_b_type_f16); ("B_TYPE32", aligned_b_type_f32);
         ("D_TYPE", "float"); ("ALIGNED", "1")]))
      fp16 coopmat coopmat2 f16acc;
    string_to_spv (shader_name ++ "_f16_aligned") source_name
      (merge_maps base_dict (mk [("FLOAT_TYPE", FLOAT_TYPE "f16"); ("DATA_A_F16", "1");
         ("LOAD_VEC_A", load_vec); ("LOAD_VEC_B", load_vec);
         ("B_TYPE", aligned_b_type_f16); ("B_TYPE32", aligned_b_type_f32);
         ("D_TYPE", "float"); ("ALIGNED", "1")]))
      fp16 coopmat coopmat2 f16acc;
    string_to_spv (shader_name ++ "_f16") source_name
      (merge_maps base_dict (mk [("FLOAT_TYPE", FLOAT_TYPE "f16"); ("DATA_A_F16", "1");
         ("B_TYPE", "float16_t"); ("D_TYPE", "float")]))
      fp16 coopmat coopmat2 f16acc;
    (* bf16 *)
    (let load_vec_a_unaligned := "1" in
     (* For aligned matmul loads *)
     let load_vec_a := if coopmat2 then "1" else "4" in
     (* scalar path promotes to float *)
     let to_float_type :=
       if (coopmat || coopmat2)%bool then "uintBitsToBFloat16EXT" else "bf16_to_fp32" in
     (* If bfloat16 is not supported, then only compile the scalar
        (promote to fp32) shader *)
     when (GGML_VULKAN_BFLOAT16_GLSLC_SUPPORT cfg || negb (coopmat || coopmat2))%bool
       (seq [
         string_to_spv (shader_name ++ "_bf16_aligned") source_name
           (merge_maps base_dict (mk [("FLOAT_TYPE", FLOAT_TYPE "bf16");
              ("TO_FLOAT_TYPE", to_float_type); ("DATA_A_BF16", "1");
              ("LOAD_VEC_A", load_vec_a); ("LOAD_VEC_B", "4");
              ("B_TYPE", if coopmat2 then "bfloat16_t" else "u16vec4");
              ("B_TYPE32", "vec4"); ("D_TYPE", "float"); ("B_IS_FLOAT", "1");
              ("DATA_B_BF16", "1"); ("ALIGNED", "1")]))
           fp16 coopmat coopmat2 f16acc;
         string_to_spv (shader_name ++ "_bf16") source_name
           (merge_maps base_dict (mk [("FLOAT_TYPE", FLOAT_TYPE "bf16");
              ("TO_FLOAT_TYPE", to_float_type); ("DATA_A_BF16", "1");
              ("LOAD_VEC_A", load_vec_a_unaligned);
              ("B_TYPE", if coopmat2 then "bfloat16_t" else "uint16_t");
              ("D_TYPE", "float"); ("B_IS_FLOAT", "1"); ("DATA_B_BF16", "1")]))
           fp16 coopmat coopmat2 f16acc ]));
    for_each type_names (fun tname =>
      let load_vec_quant := "2" in
      let load_vec_quant :=
        if ((tname =? "q4_0") || (tname =? "q4_1") || (tname =? "iq1_s") ||
            (tname =? "iq1_m") || (tname =? "iq2_xxs") || (tname =? "iq2_xs") ||
            (tname =? "iq2_s"))%bool
        then "8"
        else if ((tname =? "q5_0") || (tname =? "q5_1") || (tname =? "q8_0") ||
                 (tname =? "iq3_xxs") || (tname =? "iq3_s") || (tname =? "iq4_nl") ||
                 (tname =? "mxfp4"))%bool
        then "4"
        else load_vec_quant in
      if tname =? "bf16" then skip (* continue *) else
      let data_a_key := "DATA_A_" ++ to_uppercase tname in
      (* For unaligned, load one at a time for f32/f16, or two at a time
         for quants *)
      let load_vec_a_unaligned :=
        if (coopmat2 || (tname =? "f32") || (tname =? "f16") || (tname =? "bf16"))%bool
        then "1" else load_vec_quant in
      (* For aligned matmul loads *)
      let load_vec_a :=
        if (coopmat2 || (tname =? "f32") || (tname =? "f16") || (tname =? "bf16"))%bool
        then load_vec else load_vec_quant in
      seq [
        (* don't generate f32 variants for coopmat2 *)
        when (negb coopmat2) (seq [
          string_to_spv (shader_name ++ "_" ++ tname ++ "_f32") source_name
            (merge_maps base_dict (mk [("FLOAT_TYPE", FLOAT_TYPE tname); (data_a_key, "1");
               ("LOAD_VEC_A", load_vec_a_unaligned); ("B_TYPE", "float");
               ("D_TYPE", "float")]))
            fp16 coopmat coopmat2 f16acc;
          string_to_spv (shader_name ++ "_" ++ tname ++ "_f32_aligned") source_name
            (merge_maps base_dict (mk [("FLOAT_TYPE", FLOAT_TYPE tname); (data_a_key, "1");
               ("LOAD_VEC_A", load_vec_a); ("LOAD_VEC_B", load_vec);
               ("B_TYPE", aligned_b_type_f32); ("B_TYPE32", aligned_b_type_f32);
               ("D_TYPE", "float"); ("ALIGNED", "1")]))
            fp16 coopmat coopmat2 f16acc ]);
        when (negb (tname =? "f16") && negb (tname =? "f32"))%bool (seq [
          string_to_spv (shader_name ++ "_" ++ tname ++ "_f16") source_name
            (merge_maps base_dict (mk [("FLOAT_TYPE", FLOAT_TYPE tname); (data_a_key, "1");
               ("LOAD_VEC_A", load_vec_a_unaligned); ("B_TYPE", "float16_t");
               ("D_TYPE", "float")]))
            fp16 coopmat coopmat2 f16acc;
          string_to_spv (shader_name ++ "_" ++ tname ++ "_f16_aligned") source_name
            (merge_maps base_dict (mk [("FLOAT_TYPE", FLOAT_TYPE tname); (data_a_key, "1");
               ("LOAD_VEC_A", load_vec_a); ("LOAD_VEC_B", load_vec);
               ("B_TYPE", aligned_b_type_f16); ("B_TYPE32", aligned_b_type_f32);
               ("D_TYPE", "float"); ("ALIGNED", "1")]))
            fp16 coopmat coopmat2 f16acc ]);
        when (GGML_VULKAN_INTEGER_DOT_GLSLC_SUPPORT cfg)
          (when (negb coopmat && negb coopmat2 &&
                 MatMulIdType_eqb matmul_id_type NONE && is_legacy_quant tname)%bool
             (string_to_spv (shader_name ++ "_" ++ tname ++ "_q8_1") "mul_mmq.comp"
                (merge_maps base_dict (mk [("FLOAT_TYPE", FLOAT_TYPE tname);
                   (data_a_key, "1"); ("D_TYPE", "float")]))
                fp16 coopmat coopmat2 f16acc))
      ])
  ].

Definition get_type_str (f16 : bool) : string :=
  if f16 then "float16_t" else "float".

Definition get_suffix (src0_f16 src1_f16 dst_f16 : bool) : string :=
  let s := EmptyString in
  let s := s ++ (if src0_f16 then "_f16" else "_f32") in
  let s := s ++ (if src1_f16 then "_f16" else "_f32") in
  let s := s ++ (if dst_f16 then "_f16" else "_f32") in
  s.

(** [process_shaders]. Its progress line on [std::cout] is left to the
    model of [main]. *)
Definition process_shaders : action :=
  let base_dict := mk [("FLOAT_TYPE", "float")] in
  seq [
    (* matmul *)
    for_each [NONE; DEFAULT; SUBGROUP] (fun matmul_id_type => seq [
      (* No coopmats *)
      (* fp32 *)
      matmul_shaders false matmul_id_type false false false;
      (* fp16, fp32acc and fp16acc *)
      matmul_shaders true matmul_id_type false false false;
      matmul_shaders true matmul_id_type false false true;
      when (negb (MatMulIdType_eqb matmul_id_type DEFAULT)) (seq [
        when (GGML_VULKAN_COOPMAT_GLSLC_SUPPORT cfg) (seq [
          (* Coopmat, fp32acc and fp16acc *)
          matmul_shaders true matmul_id_type true false false;
          matmul_shaders true matmul_id_type true false true ]);
        when (GGML_VULKAN_COOPMAT2_GLSLC_SUPPORT cfg) (seq [
          (* Coopmat2, fp32acc and fp16acc *)
          matmul_shaders true matmul_id_type false true false;
          matmul_shaders true matmul_id_type false true true ]) ]) ]);

    (* flash attention *)
    for_each [false; true] (fun f16acc =>
      let fa_base_dict := base_dict in
      let fa_base_dict :=
        StdMap.set "ACC_TYPE" (if f16acc then "float16_t" else "float") fa_base_dict in
      let fa_base_dict :=
        StdMap.set "ACC_TYPEV4" (if f16acc then "f16vec4" else "vec4") fa_base_dict in
      let fa_base_dict :=
        if f16acc then StdMap.set "ACC_TYPE_MAX" f16_max fa_base_dict
        else fa_base_dict in
      for_each type_names (fun tname =>
        if tname =? "f32" then skip (* continue *) else
        if tname =? "bf16" then skip (* continue *) else
        seq [
          when (GGML_VULKAN_COOPMAT2_GLSLC_SUPPORT cfg)
            (if tname =? "f16" then
               string_to_spv ("flash_attn_f32_f16_" ++ tname) "flash_attn_cm2.comp"
                 (merge_maps fa_base_dict (mk [("Q_TYPE", "float"); ("D_TYPE", "float")]))
                 true false true f16acc
             else
               let data_a_key := "DATA_A_" ++ to_uppercase tname in
               string_to_spv ("flash_attn_f32_f16_" ++ tname) "flash_attn_cm2.comp"
                 (merge_maps fa_base_dict (mk [(data_a_key, "1"); ("Q_TYPE", "float");
                    ("D_TYPE", "float");
                    ("DEQUANTFUNC", "dequantFunc" ++ to_uppercase tname);
                    ("BLOCK_SIZE", "QUANT_K_" ++ to_uppercase tname)]))
                 true false true f16acc);
          when (GGML_VULKAN_COOPMAT_GLSLC_SUPPORT cfg)
            (if tname =? "f16" then
               string_to_spv ("flash_attn_f32_f16_" ++ tname) "flash_attn_cm1.comp"
                 (merge_maps fa_base_dict (mk [("Q_TYPE", "float"); ("D_TYPE", "float");
                    ("COOPMAT", "1")]))
                 true true false f16acc
             else if ((tname =? "q4_0") || (tname =? "q8_0"))%bool then
               let data_a_key := "DATA_A_" ++ to_uppercase tname in
               string_to_spv ("flash_attn_f32_f16_" ++ tname) "flash_attn_cm1.comp"
                 (merge_maps fa_base_dict (mk [(data_a_key, "1"); ("Q_TYPE", "float");
                    ("D_TYPE", "float");
                    ("BLOCK_SIZE", "QUANT_K_" ++ to_uppercase tname);
                    ("COOPMAT", "1")]))
                 true true false f16acc
             else skip);
          (if tname =? "f16" then
             string_to_spv ("flash_attn_f32_f16_" ++ tname) "flash_attn.comp"
               (merge_maps fa_base_dict (mk [("Q_TYPE", "float"); ("D_TYPE", "float")]))
               true false false f16acc
           else if ((tname =? "q4_0") || (tname =? "q8_0"))%bool then
             let data_a_key := "DATA_A_" ++ to_uppercase tname in
             string_to_spv ("flash_attn_f32_f16_" ++ tname) "flash_attn.comp"
               (merge_maps fa_base_dict (mk [(data_a_key, "1"); ("Q_TYPE", "float");
                  ("D_TYPE", "float");
                  ("BLOCK_SIZE", "QUANT_K_" ++ to_uppercase tname)]))
               true false false f16acc
           else skip)
        ]));

    for_each type_names (fun tname =>
      (* mul mat vec *)
      let data_a_key := "DATA_A_" ++ to_uppercase tname in
      let shader :=
        if (string_ends_with tname "_k" || string_starts_with tname "iq1_" ||
            string_starts_with tname "iq2_" || string_starts_with tname "iq3_")%bool
        then "mul_mat_vec_" ++ tname ++ ".comp" else "mul_mat_vec.comp" in
      seq [
        string_to_spv0 ("mul_mat_vec_" ++ tname ++ "_f32_f32") shader
          (merge_maps base_dict (mk [(data_a_key, "1"); ("B_TYPE", "float");
             ("B_TYPE_VEC2", "vec2"); ("B_TYPE_VEC4", "vec4"); ("D_TYPE", "float")]));
        string_to_spv0 ("mul_mat_vec_" ++ tname ++ "_f16_f32") shader
          (merge_maps base_dict (mk [(data_a_key, "1"); ("B_TYPE", "float16_t");
             ("B_TYPE_VEC2", "f16vec2"); ("B_TYPE_VEC4", "f16vec4");
             ("D_TYPE", "float")]));

        string_to_spv0 ("mul_mat_vec_" ++ tname ++ "_f32_f32_subgroup") shader
          (merge_maps base_dict (mk [(data_a_key, "1"); ("B_TYPE", "float");
             ("B_TYPE_VEC2", "vec2"); ("B_TYPE_VEC4", "vec4"); ("D_TYPE", "float");
             ("USE_SUBGROUP_ADD", "1")]));
        string_to_spv0 ("mul_mat_vec_" ++ tname ++ "_f16_f32_subgroup") shader
          (merge_maps base_dict (mk [(data_a_key, "1"); ("B_TYPE", "float16_t");
             ("B_TYPE_VEC2", "f16vec2"); ("B_TYPE_VEC4", "f16vec4");
             ("D_TYPE", "float"); ("USE_SUBGROUP_ADD", "1")]));

        string_to_spv0 ("mul_mat_vec_" ++ tname ++ "_f32_f32_subgroup_no_shmem") shader
          (merge_maps base_dict (mk [(data_a_key, "1"); ("B_TYPE", "float");
             ("B_TYPE_VEC2", "vec2"); ("B_TYPE_VEC4", "vec4"); ("D_TYPE", "float");
             ("USE_SUBGROUP_ADD_NO_SHMEM", "1")]));
        string_to_spv0 ("mul_mat_vec_" ++ tname ++ "_f16_f32_subgroup_no_shmem") shader
          (merge_maps base_dict (mk [(data_a_key, "1"); ("B_TYPE", "float16_t");
             ("B_TYPE_VEC2", "f16vec2"); ("B_TYPE_VEC4", "f16vec4");
             ("D_TYPE", "float"); ("USE_SUBGROUP_ADD_NO_SHMEM", "1")]));

        string_to_spv0 ("mul_mat_vec_id_" ++ tname ++ "_f32") shader
          (merge_maps base_dict (mk [("MUL_MAT_ID", "1"); (data_a_key, "1");
             ("B_TYPE", "float"); ("B_TYPE_VEC2", "vec2"); ("B_TYPE_VEC4", "vec4");
             ("D_TYPE", "float")]));

        (* mul mat vec with integer dot product *)
        when (GGML_VULKAN_INTEGER_DOT_GLSLC_SUPPORT cfg)
          (when (is_legacy_quant tname) (seq [
            string_to_spv0 ("mul_mat_vec_" ++ tname ++ "_q8_1_f32") "mul_mat_vecq.comp"
              (merge_maps base_dict (mk [(data_a_key, "1"); ("D_TYPE", "float");
                 ("FLOAT_TYPE", "float"); ("FLOAT_TYPE_VEC2", "vec2");
                 ("ACC_TYPE", "float")]));
            string_to_spv0 ("mul_mat_vec_" ++ tname ++ "_q8_1_f32_subgroup")
              "mul_mat_vecq.comp"
              (merge_maps base_dict (mk [(data_a_key, "1"); ("D_TYPE", "float");
                 ("FLOAT_TYPE", "float"); ("FLOAT_TYPE_VEC2", "vec2");
                 ("ACC_TYPE", "float"); ("USE_SUBGROUP_ADD", "1")]));
            string_to_spv0 ("mul_mat_vec_" ++ tname ++ "_q8_1_f32_subgroup_no_shmem")
              "mul_mat_vecq.comp"
              (merge_maps base_dict (mk [(data_a_key, "1"); ("D_TYPE", "float");
                 ("FLOAT_TYPE", "float"); ("FLOAT_TYPE_VEC2", "vec2");
                 ("ACC_TYPE", "float"); ("USE_SUBGROUP_ADD_NO_SHMEM", "1")])) ]));

        (* Dequant shaders *)
        when (negb (tname =? "f16") && negb (tname =? "bf16"))%bool
          (string_to_spv0 ("dequant_" ++ tname) ("dequant_" ++ tname ++ ".comp")
             (merge_maps base_dict (mk [(data_a_key, "1"); ("D_TYPE", "float16_t")])));

        when (negb (string_ends_with tname "_k"))
          (let shader :=
             if ((tname =? "f32") || (tname =? "f16") || (tname =? "bf16"))%bool
             then "get_rows.comp" else "get_rows_quant.comp" in
           seq [
             (if tname =? "f16" then
                string_to_spv0 ("get_rows_" ++ tname) shader
                  (merge_maps base_dict (mk [(data_a_key, "1"); ("B_TYPE", "int");
                     ("D_TYPE", "float16_t"); ("OPTIMIZATION_ERROR_WORKAROUND", "1")]))
              else
                string_to_spv0 ("get_rows_" ++ tname) shader
                  (merge_maps base_dict (mk [(data_a_key, "1"); ("B_TYPE", "int");
                     ("D_TYPE", "float16_t")])));
             string_to_spv0 ("get_rows_" ++ tname ++ "_f32") shader
               (merge_maps base_dict (mk [(data_a_key, "1"); ("B_TYPE", "int");
                  ("D_TYPE", "float")])) ])
      ]);

    string_to_spv0 "mul_mat_vec_p021_f16_f32_subgroup_add" "mul_mat_vec_p021.comp"
      (mk [("A_TYPE", "float16_t"); ("A_TYPE_VEC4", "f16vec4"); ("B_TYPE", "float");
         ("B_TYPE_VEC4", "vec4"); ("D_TYPE", "float"); ("USE_SUBGROUP_ADD", "1")]);
    string_to_spv0 "mul_mat_vec_p021_f16_f32" "mul_mat_vec_p021.comp"
      (mk [("A_TYPE", "float16_t"); ("A_TYPE_VEC4", "f16vec4"); ("B_TYPE", "float");
         ("B_TYPE_VEC4", "vec4"); ("D_TYPE", "float")]);
    string_to_spv0 "mul_mat_vec_nc_f16_f32" "mul_mat_vec_nc.comp"
      (mk [("A_TYPE", "float16_t"); ("A_TYPE_VEC4", "f16vec4"); ("B_TYPE", "float");
         ("B_TYPE_VEC4", "vec4"); ("D_TYPE", "float")]);
    (* Norms *)
    string_to_spv0 "norm_f32" "norm.comp"
      (merge_maps base_dict (mk [("A_TYPE", "float"); ("D_TYPE", "float")]));
    string_to_spv0 "group_norm_f32" "group_norm.comp"
      (merge_maps base_dict (mk [("A_TYPE", "float"); ("D_TYPE", "float")]));
    string_to_spv0 "rms_norm_f32" "rms_norm.comp"
      (merge_maps base_dict (mk [("A_TYPE", "float"); ("B_TYPE", "float");
         ("D_TYPE", "float")]));
    string_to_spv0 "rms_norm_partials_f32" "rms_norm_partials.comp"
      (merge_maps base_dict (mk [("A_TYPE", "float"); ("B_TYPE", "float");
         ("D_TYPE", "float")]));
    string_to_spv0 "rms_norm_back_f32" "rms_norm_back.comp"
      (merge_maps base_dict (mk [("A_TYPE", "float"); ("B_TYPE", "float");
         ("D_TYPE", "float")]));
    string_to_spv0 "l2_norm_f32" "l2_norm.comp"
      (merge_maps base_dict (mk [("A_TYPE", "float"); ("D_TYPE", "float")]));
    string_to_spv0 "cpy_f32_f32" "copy.comp"
      (mk [("A_TYPE", "float"); ("D_TYPE", "float")]);
    string_to_spv0 "cpy_f32_f16" "copy.comp"
      (mk [("A_TYPE", "float"); ("D_TYPE", "float16_t")]);
    string_to_spv0 "cpy_f16_f16" "copy.comp"
      (mk [("A_TYPE", "float16_t"); ("D_TYPE", "float16_t");
         ("OPTIMIZATION_ERROR_WORKAROUND", "1")]);
    string_to_spv0 "cpy_f16_f32" "copy.comp"
      (mk [("A_TYPE", "float16_t"); ("D_TYPE", "float");
         ("OPTIMIZATION_ERROR_WORKAROUND", "1")]);
    string_to_spv0 "cpy_f32_bf16" "copy.comp"
      (mk [("A_TYPE", "float"); ("D_TYPE", "uint16_t"); ("DATA_D_BF16", "1")]);
    string_to_spv0 "contig_cpy_f32_f32" "contig_copy.comp"
      (mk [("A_TYPE", "float"); ("D_TYPE", "float")]);
    string_to_spv0 "contig_cpy_f32_i32" "contig_copy.comp"
      (mk [("A_TYPE", "float"); ("D_TYPE", "int")]);
    string_to_spv0 "contig_cpy_i32_f32" "contig_copy.comp"
      (mk [("A_TYPE", "int"); ("D_TYPE", "float")]);
    string_to_spv0 "contig_cpy_f32_f16" "contig_copy.comp"
      (mk [("A_TYPE", "float"); ("D_TYPE", "float16_t")]);
    string_to_spv0 "contig_cpy_f16_f16" "contig_copy.comp"
      (mk [("A_TYPE", "float16_t"); ("D_TYPE", "float16_t");
         ("OPTIMIZATION_ERROR_WORKAROUND", "1")]);
    string_to_spv0 "contig_cpy_f16_f32" "contig_copy.comp"
      (mk [("A_TYPE", "float16_t"); ("D_TYPE", "float");
         ("OPTIMIZATION_ERROR_WORKAROUND", "1")]);
    string_to_spv0 "contig_cpy_f32_bf16" "contig_copy.comp"
      (mk [("A_TYPE", "float"); ("D_TYPE", "uint16_t"); ("DATA_D_BF16", "1")]);
    string_to_spv0 "cpy_f32_i32" "copy.comp"
      (mk [("A_TYPE", "float"); ("D_TYPE", "int")]);
    string_to_spv0 "cpy_i32_f32" "copy.comp"
      (mk [("A_TYPE", "int"); ("D_TYPE", "float")]);

    for_each ["q4_0"; "q4_1"; "q5_0"; "q5_1"; "q8_0"; "iq4_nl"] (fun t => seq [
      string_to_spv0 ("cpy_f32_" ++ t) "copy_to_quant.comp"
        (mk [("DATA_A_" ++ to_uppercase t, "1"); ("D_TYPE", "float");
             ("FLOAT_TYPE", "float")]);
      string_to_spv0 ("cpy_f32_" ++ t ++ "_rte") "copy_to_quant.comp"
        (mk [("DATA_A_" ++ to_uppercase t, "1"); ("D_TYPE", "float");
             ("FLOAT_TYPE", "float"); ("RTE16", "1")]);
      string_to_spv0 ("cpy_" ++ t ++ "_f32") "copy_from_quant.comp"
        (mk [("DATA_A_" ++ to_uppercase t, "1"); ("D_TYPE", "float");
             ("FLOAT_TYPE", "float")]) ]);

    for_each ["f32"; "f16"; "bf16"; "q4_0"; "q4_1"; "q5_0"; "q5_1"; "q8_0"; "iq4_nl"]
      (fun t => seq [
      string_to_spv0 ("set_rows_" ++ t) "copy_to_quant.comp"
        (mk [("SET_ROWS", "1"); ("DATA_A_" ++ to_uppercase t, "1"); ("B_TYPE", "uvec2");
             ("D_TYPE", "float"); ("FLOAT_TYPE", "float")]);
      string_to_spv0 ("set_rows_" ++ t ++ "_rte") "copy_to_quant.comp"
        (mk [("SET_ROWS", "1"); ("DATA_A_" ++ to_uppercase t, "1"); ("B_TYPE", "uvec2");
             ("D_TYPE", "float"); ("FLOAT_TYPE", "float"); ("RTE16", "1")]) ]);

    for_each ["add"; "sub"; "mul"; "div"; "add_rms"] (fun op =>
    for_each [false; true] (fun src0_f16 =>
    for_each [false; true] (fun src1_f16 =>
    for_each [false; true] (fun dst_f16 =>
    for_each [false; true] (fun rte =>
      let source := if op =? "add_rms" then "add" else op in
      let name := op ++ get_suffix src0_f16 src1_f16 dst_f16
                     ++ (if rte then "_rte" else EmptyString) in
      let add_rms := if op =? "add_rms" then "1" else "0" in
      string_to_spv0 name (source ++ ".comp")
        (mk [("A_TYPE", get_type_str src0_f16); ("B_TYPE", get_type_str src1_f16);
             ("D_TYPE", get_type_str dst_f16); ("FLOAT_TYPE", "float");
             ("RTE16", if rte then "1" else "0"); ("ADD_RMS", add_rms)]))))));

    string_to_spv0 "sub_f32" "sub.comp"
      (mk [("A_TYPE", "float"); ("B_TYPE", "float"); ("D_TYPE", "float");
         ("FLOAT_TYPE", "float")]);
    string_to_spv0 "acc_f32" "acc.comp"
      (mk [("A_TYPE", "float"); ("B_TYPE", "float"); ("D_TYPE", "float");
         ("FLOAT_TYPE", "float")]);
    string_to_spv0 "split_k_reduce" "mul_mat_split_k_reduce.comp" (mk []);
    string_to_spv0 "fa_split_k_reduce" "flash_attn_split_k_reduce.comp" (mk []);
    string_to_spv0 "quantize_q8_1" "quantize_q8_1.comp" (mk []);
    string_to_spv0 "quantize_q8_1_subgroup" "quantize_q8_1.comp"
      (mk [("USE_SUBGROUPS", "1")]);
    string_to_spv0 "quantize_q8_1_x4" "quantize_q8_1.comp" (mk [("QBLOCK_X4", "1")]);
    string_to_spv0 "quantize_q8_1_x4_subgroup" "quantize_q8_1.comp"
      (mk [("QBLOCK_X4", "1"); ("USE_SUBGROUPS", "1")]);
    string_to_spv0 "mul_f32" "mul.comp"
      (mk [("A_TYPE", "float"); ("B_TYPE", "float"); ("D_TYPE", "float");
         ("FLOAT_TYPE", "float")]);
    string_to_spv0 "div_f32" "div.comp"
      (mk [("A_TYPE", "float"); ("B_TYPE", "float"); ("D_TYPE", "float");
         ("FLOAT_TYPE", "float")]);
    string_to_spv0 "repeat_f32" "repeat.comp"
      (mk [("A_TYPE", "float"); ("D_TYPE", "float")]);
    string_to_spv0 "repeat_back_f32" "repeat_back.comp"
      (mk [("A_TYPE", "float"); ("D_TYPE", "float")]);
    string_to_spv0 "scale_f32" "scale.comp"
      (mk [("A_TYPE", "float"); ("D_TYPE", "float"); ("FLOAT_TYPE", "float")]);
    string_to_spv0 "sqr_f32" "square.comp"
      (mk [("A_TYPE", "float"); ("D_TYPE", "float"); ("FLOAT_TYPE", "float")]);
    string_to_spv0 "sqrt_f32" "sqrt.comp"
      (mk [("A_TYPE", "float"); ("D_TYPE", "float"); ("FLOAT_TYPE", "float")]);
    string_to_spv0 "sin_f32" "sin.comp"
      (mk [("A_TYPE", "float"); ("D_TYPE", "float"); ("FLOAT_TYPE", "float")]);
    string_to_spv0 "cos_f32" "cos.comp"
      (mk [("A_TYPE", "float"); ("D_TYPE", "float"); ("FLOAT_TYPE", "float")]);
    string_to_spv0 "clamp_f32" "clamp.comp"
      (mk [("A_TYPE", "float"); ("D_TYPE", "float"); ("FLOAT_TYPE", "float")]);
    string_to_spv0 "pad_f32" "pad.comp" (mk [("A_TYPE", "float"); ("D_TYPE", "float")]);
    string_to_spv0 "concat_f32" "concat.comp"
      (mk [("A_TYPE", "float"); ("B_TYPE", "float"); ("D_TYPE", "float")]);
    string_to_spv0 "concat_f16" "concat.comp"
      (mk [("A_TYPE", "float16_t"); ("B_TYPE", "float16_t"); ("D_TYPE", "float16_t");
         ("OPTIMIZATION_ERROR_WORKAROUND", "1")]);
    string_to_spv0 "concat_i32" "concat.comp"
      (mk [("A_TYPE", "int"); ("B_TYPE", "int"); ("D_TYPE", "int")]);
    string_to_spv0 "upscale_f32" "upscale.comp"
      (mk [("A_TYPE", "float"); ("B_TYPE", "float"); ("D_TYPE", "float")]);
    string_to_spv0 "exp_f16" "exp.comp"
      (mk [("A_TYPE", "float16_t"); ("D_TYPE", "float16_t")]);
    string_to_spv0 "exp_f32" "exp.comp" (mk [("A_TYPE", "float"); ("D_TYPE", "float")]);
    string_to_spv0 "gelu_f16" "gelu.comp"
      (mk [("A_TYPE", "float16_t"); ("D_TYPE", "float16_t")]);
    string_to_spv0 "gelu_f32" "gelu.comp" (mk [("A_TYPE", "float"); ("D_TYPE", "float")]);
    string_to_spv0 "gelu_erf_f16" "gelu_erf.comp"
      (mk [("A_TYPE", "float16_t"); ("D_TYPE", "float16_t")]);
    string_to_spv0 "gelu_erf_f32" "gelu_erf.comp"
      (mk [("A_TYPE", "float"); ("D_TYPE", "float")]);
    string_to_spv0 "gelu_quick_f16" "gelu_quick.comp"
      (mk [("A_TYPE", "float16_t"); ("D_TYPE", "float16_t")]);
    string_to_spv0 "gelu_quick_f32" "gelu_quick.comp"
      (mk [("A_TYPE", "float"); ("D_TYPE", "float")]);
    string_to_spv0 "silu_f16" "silu.comp"
      (mk [("A_TYPE", "float16_t"); ("D_TYPE", "float16_t")]);
    string_to_spv0 "silu_f32" "silu.comp" (mk [("A_TYPE", "float"); ("D_TYPE", "float")]);
    string_to_spv0 "relu_f16" "relu.comp"
      (mk [("A_TYPE", "float16_t"); ("D_TYPE", "float16_t")]);
    string_to_spv0 "relu_f32" "relu.comp" (mk [("A_TYPE", "float"); ("D_TYPE", "float")]);
    string_to_spv0 "tanh_f16" "tanh.comp"
      (mk [("A_TYPE", "float16_t"); ("D_TYPE", "float16_t")]);
    string_to_spv0 "tanh_f32" "tanh.comp" (mk [("A_TYPE", "float"); ("D_TYPE", "float")]);
    string_to_spv0 "sigmoid_f16" "sigmoid.comp"
      (mk [("A_TYPE", "float16_t"); ("D_TYPE", "float16_t")]);
    string_to_spv0 "sigmoid_f32" "sigmoid.comp"
      (mk [("A_TYPE", "float"); ("D_TYPE", "float")]);
    string_to_spv0 "hardsigmoid_f16" "hardsigmoid.comp"
      (mk [("A_TYPE", "float16_t"); ("D_TYPE", "float16_t")]);
    string_to_spv0 "hardsigmoid_f32" "hardsigmoid.comp"
      (mk [("A_TYPE", "float"); ("D_TYPE", "float")]);
    string_to_spv0 "hardswish_f16" "hardswish.comp"
      (mk [("A_TYPE", "float16_t"); ("D_TYPE", "float16_t")]);
    string_to_spv0 "hardswish_f32" "hardswish.comp"
      (mk [("A_TYPE", "float"); ("D_TYPE", "float")]);

    for_each [false; true] (fun rte =>
      let suffix := if rte then "_rte" else EmptyString in
      seq [
        string_to_spv0 ("geglu_f16" ++ suffix) "geglu.comp"
          (mk [("A_TYPE", "float16_t"); ("D_TYPE", "float16_t"); ("RTE16", if rte then "1" else "0")]);
        string_to_spv0 ("geglu_f32" ++ suffix) "geglu.comp"
          (mk [("A_TYPE", "float"); ("D_TYPE", "float"); ("RTE16", if rte then "1" else "0")]);
        string_to_spv0 ("reglu_f16" ++ suffix) "reglu.comp"
          (mk [("A_TYPE", "float16_t"); ("D_TYPE", "float16_t"); ("RTE16", if rte then "1" else "0")]);
        string_to_spv0 ("reglu_f32" ++ suffix) "reglu.comp"
          (mk [("A_TYPE", "float"); ("D_TYPE", "float"); ("RTE16", if rte then "1" else "0")]);
        string_to_spv0 ("swiglu_f16" ++ suffix) "swiglu.comp"
          (mk [("A_TYPE", "float16_t"); ("D_TYPE", "float16_t"); ("RTE16", if rte then "1" else "0")]);
        string_to_spv0 ("swiglu_f32" ++ suffix) "swiglu.comp"
          (mk [("A_TYPE", "float"); ("D_TYPE", "float"); ("RTE16", if rte then "1" else "0")]);
        string_to_spv0 ("swiglu_oai_f16" ++ suffix) "swiglu_oai.comp"
          (mk [("A_TYPE", "float16_t"); ("D_TYPE", "float16_t"); ("RTE16", if rte then "1" else "0")]);
        string_to_spv0 ("swiglu_oai_f32" ++ suffix) "swiglu_oai.comp"
          (mk [("A_TYPE", "float"); ("D_TYPE", "float"); ("RTE16", if rte then "1" else "0")]);
        string_to_spv0 ("geglu_erf_f16" ++ suffix) "geglu_erf.comp"
          (mk [("A_TYPE", "float16_t"); ("D_TYPE", "float16_t"); ("RTE16", if rte then "1" else "0")]);
        string_to_spv0 ("geglu_erf_f32" ++ suffix) "geglu_erf.comp"
          (mk [("A_TYPE", "float"); ("D_TYPE", "float"); ("RTE16", if rte then "1" else "0")]);
        string_to_spv0 ("geglu_quick_f16" ++ suffix) "geglu_quick.comp"
          (mk [("A_TYPE", "float16_t"); ("D_TYPE", "float16_t"); ("RTE16", if rte then "1" else "0")]);
        string_to_spv0 ("geglu_quick_f32" ++ suffix) "geglu_quick.comp"
          (mk [("A_TYPE", "float"); ("D_TYPE", "float"); ("RTE16", if rte then "1" else "0")]) ]);

    string_to_spv0 "leaky_relu_f32" "leaky_relu.comp"
      (mk [("A_TYPE", "float"); ("D_TYPE", "float")]);
    string_to_spv0 "silu_back_f32" "silu_back.comp"
      (mk [("A_TYPE", "float"); ("B_TYPE", "float"); ("D_TYPE", "float")]);
    string_to_spv0 "diag_mask_inf_f32" "diag_mask_inf.comp"
      (mk [("A_TYPE", "float"); ("D_TYPE", "float")]);
    string_to_spv0 "soft_max_f32" "soft_max.comp"
      (merge_maps base_dict (mk [("A_TYPE", "float"); ("B_TYPE", "float");
         ("D_TYPE", "float")]));
    string_to_spv0 "soft_max_f32_f16" "soft_max.comp"
      (merge_maps base_dict (mk [("A_TYPE", "float"); ("B_TYPE", "float16_t");
         ("D_TYPE", "float")]));
    string_to_spv0 "soft_max_back_f32" "soft_max_back.comp"
      (merge_maps base_dict (mk [("A_TYPE", "float"); ("B_TYPE", "float");
         ("D_TYPE", "float")]));
    string_to_spv0 "rope_norm_f32" "rope_norm.comp"
      (mk [("A_TYPE", "float"); ("D_TYPE", "float")]);
    string_to_spv0 "rope_norm_f16" "rope_norm.comp"
      (mk [("A_TYPE", "float16_t"); ("D_TYPE", "float16_t")]);
    string_to_spv0 "rope_norm_f16_rte" "rope_norm.comp"
      (mk [("A_TYPE", "float16_t"); ("D_TYPE", "float16_t"); ("RTE16", "1")]);
    string_to_spv0 "rope_neox_f32" "rope_neox.comp"
      (mk [("A_TYPE", "float"); ("D_TYPE", "float")]);
    string_to_spv0 "rope_neox_f16" "rope_neox.comp"
      (mk [("A_TYPE", "float16_t"); ("D_TYPE", "float16_t")]);
    string_to_spv0 "rope_neox_f16_rte" "rope_neox.comp"
      (mk [("A_TYPE", "float16_t"); ("D_TYPE", "float16_t"); ("RTE16", "1")]);
    string_to_spv0 "rope_multi_f32" "rope_multi.comp"
      (mk [("A_TYPE", "float"); ("D_TYPE", "float")]);
    string_to_spv0 "rope_multi_f16" "rope_multi.comp"
      (mk [("A_TYPE", "float16_t"); ("D_TYPE", "float16_t")]);
    string_to_spv0 "rope_multi_f16_rte" "rope_multi.comp"
      (mk [("A_TYPE", "float16_t"); ("D_TYPE", "float16_t"); ("RTE16", "1")]);
    string_to_spv0 "rope_vision_f32" "rope_vision.comp"
      (mk [("A_TYPE", "float"); ("D_TYPE", "float")]);
    string_to_spv0 "rope_vision_f16" "rope_vision.comp"
      (mk [("A_TYPE", "float16_t"); ("D_TYPE", "float16_t")]);
    string_to_spv0 "rope_vision_f16_rte" "rope_vision.comp"
      (mk [("A_TYPE", "float16_t"); ("D_TYPE", "float16_t"); ("RTE16", "1")]);
    string_to_spv0 "argsort_f32" "argsort.comp" (mk [("A_TYPE", "float")]);
    string_to_spv0 "argmax_f32" "argmax.comp"
      (merge_maps base_dict (mk [("A_TYPE", "float"); ("D_TYPE", "int")]));
    string_to_spv0 "sum_rows_f32" "sum_rows.comp"
      (merge_maps base_dict (mk [("A_TYPE", "float"); ("D_TYPE", "float")]));
    string_to_spv0 "count_equal_i32" "count_equal.comp"
      (merge_maps base_dict (mk [("A_TYPE", "int"); ("B_TYPE", "int");
         ("D_TYPE", "int")]));
    string_to_spv0 "im2col_f32" "im2col.comp"
      (merge_maps base_dict (mk [("A_TYPE", "float"); ("D_TYPE", "float")]));
    string_to_spv0 "im2col_f32_f16" "im2col.comp"
      (merge_maps base_dict (mk [("A_TYPE", "float"); ("D_TYPE", "float16_t")]));
    string_to_spv0 "im2col_f32_f16_rte" "im2col.comp"
      (merge_maps base_dict (mk [("A_TYPE", "float"); ("D_TYPE", "float16_t");
         ("RTE16", "1")]));
    string_to_spv0 "im2col_3d_f32" "im2col_3d.comp"
      (merge_maps base_dict (mk [("A_TYPE", "float"); ("D_TYPE", "float")]));
    string_to_spv0 "im2col_3d_f32_f16" "im2col_3d.comp"
      (merge_maps base_dict (mk [("A_TYPE", "float"); ("D_TYPE", "float16_t")]));
    string_to_spv0 "im2col_3d_f32_f16_rte" "im2col_3d.comp"
      (merge_maps base_dict (mk [("A_TYPE", "float"); ("D_TYPE", "float16_t");
         ("RTE16", "1")]));
    string_to_spv0 "timestep_embedding_f32" "timestep_embedding.comp"
      (merge_maps base_dict (mk [("A_TYPE", "float"); ("D_TYPE", "float")]));
    string_to_spv0 "conv_transpose_1d_f32" "conv_transpose_1d.comp"
      (mk [("A_TYPE", "float"); ("B_TYPE", "float"); ("D_TYPE", "float")]);
    string_to_spv0 "pool2d_f32" "pool2d.comp"
      (merge_maps base_dict (mk [("A_TYPE", "float"); ("D_TYPE", "float")]));
    string_to_spv0 "rwkv_wkv6_f32" "wkv6.comp"
      (merge_maps base_dict (mk [("A_TYPE", "float")]));
    string_to_spv0 "rwkv_wkv7_f32" "wkv7.comp"
      (merge_maps base_dict (mk [("A_TYPE", "float")]));
    string_to_spv0 "opt_step_adamw_f32" "opt_step_adamw.comp"
      (merge_maps base_dict (mk [("A_TYPE", "float")]));
    string_to_spv0 "opt_step_sgd_f32" "opt_step_sgd.comp"
      (merge_maps base_dict (mk [("A_TYPE", "float")]));
    string_to_spv0 "conv2d_f32_unroll" "conv2d_mm.comp"
      (mk [("A_TYPE", "float"); ("B_TYPE", "float"); ("D_TYPE", "float");
         ("USE_COLLECTIVES", "1"); ("UNROLL", "[[unroll]]")]);
    string_to_spv0 "conv2d_f16_f32_unroll" "conv2d_mm.comp"
      (mk [("A_TYPE", "float16_t"); ("B_TYPE", "float"); ("D_TYPE", "float");
         ("USE_COLLECTIVES", "1"); ("UNROLL", "[[unroll]]")]);
    string_to_spv0 "conv2d_f32" "conv2d_mm.comp"
      (mk [("A_TYPE", "float"); ("B_TYPE", "float"); ("D_TYPE", "float");
         ("USE_COLLECTIVES", "1"); ("UNROLL", EmptyString)]);
    string_to_spv0 "conv2d_f16_f32" "conv2d_mm.comp"
      (mk [("A_TYPE", "float16_t"); ("B_TYPE", "float"); ("D_TYPE", "float");
         ("USE_COLLECTIVES", "1"); ("UNROLL", EmptyString)]);

    when (GGML_VULKAN_COOPMAT2_GLSLC_SUPPORT cfg) (seq [
        string_to_spv "conv2d_f32" "conv2d_mm.comp"
          (mk [("A_TYPE", "float"); ("B_TYPE", "float"); ("D_TYPE", "float");
             ("USE_COLLECTIVES", "1"); ("UNROLL", "[[unroll]]"); ("COOPMAT2", "1")]) true false true false;
        string_to_spv "conv2d_f16_f32" "conv2d_mm.comp"
          (mk [("A_TYPE", "float16_t"); ("B_TYPE", "float"); ("D_TYPE", "float");
             ("USE_COLLECTIVES", "1"); ("UNROLL", "[[unroll]]"); ("COOPMAT2", "1")]) true false true false ]);

    string_to_spv0 "conv2d_dw_whcn_f32" "conv2d_dw.comp"
      (merge_maps base_dict (mk [("A_TYPE", "float"); ("B_TYPE", "float");
         ("D_TYPE", "float"); ("WHCN", "1")]));
    string_to_spv0 "conv2d_dw_cwhn_f32" "conv2d_dw.comp"
      (merge_maps base_dict (mk [("A_TYPE", "float"); ("B_TYPE", "float");
         ("D_TYPE", "float"); ("CWHN", "1")]));
    string_to_spv0 "conv2d_dw_whcn_f16_f32" "conv2d_dw.comp"
      (merge_maps base_dict (mk [("A_TYPE", "float16_t"); ("B_TYPE", "float");
         ("D_TYPE", "float"); ("WHCN", "1")]));
    string_to_spv0 "conv2d_dw_cwhn_f16_f32" "conv2d_dw.comp"
      (merge_maps base_dict (mk [("A_TYPE", "float16_t"); ("B_TYPE", "float");
         ("D_TYPE", "float"); ("CWHN", "1")]));
    string_to_spv0 "roll_f32" "roll.comp"
      (merge_maps base_dict (mk [("A_TYPE", "float"); ("D_TYPE", "float")]));
    string_to_spv0 "add_id_f32" "add_id.comp"
      (merge_maps base_dict (mk [("A_TYPE", "float"); ("B_TYPE", "float");
         ("D_TYPE", "float")]));
    string_to_spv0 "multi_add_f32" "multi_add.comp"
      (mk [("A_TYPE", "float"); ("B_TYPE", "float"); ("D_TYPE", "float");
         ("FLOAT_TYPE", "float"); ("RTE16", "1"); ("ADD_RMS", "0")]);
    string_to_spv0 "multi_add_rms_f32" "multi_add.comp"
      (mk [("A_TYPE", "float"); ("B_TYPE", "float"); ("D_TYPE", "float");
         ("FLOAT_TYPE", "float"); ("RTE16", "1"); ("ADD_RMS", "1")])
  ].

End Catalog.

(** ** The file system and the diagnostics *)

(** What is at a place of the file system. *)
Inductive node : Type :=
| Absent
| Directory
| File (data : list Byte.byte).

(** What the process does that can be seen from outside, besides the
    contents of the files. The four [Err*] events are the lines written to
    [std::cerr] by [read_binary_file] and [write_binary_file] (their text
    ends with [strerror(errno)], which is not modelled). *)
Inductive event : Type :=
| Stdout (text : string)
| Stderr (text : string)
| ErrOpen (p : path)
| ErrRead (p : path)
| ErrOpenWrite (p : path)
| ErrWrite (p : path)
| Written (p : path) (content : string)
| DirectoryCreated (p : path).

(** The answers of the operating system that the program cannot
    influence. [locate] gives the place a path names: two paths that name
    the same file ([gen.inc] and [./gen.inc], a link and its target) have
    the same place. The others say, for the path of a call, whether the
    stream opens for reading, whether the size found by [tellg] can be
    allocated (it cannot when [tellg] fails and its -1 becomes the largest
    [size_t]), whether [read] fails, whether the stream opens for writing,
    after how many bytes [write] fails if it does, whether asking for the
    status throws and whether creating the directory throws. *)
Record os_answers : Type := {
  locate : path -> path;
  open_read_fails : path -> bool;
  size_fails : path -> bool;
  read_fails : path -> bool;
  open_write_fails : path -> bool;
  write_fails : path -> option nat;
  status_throws : path -> bool;
  mkdir_throws : path -> bool
}.

(** The environment of the process: what is at every place, the answers
    of the system, and the events so far, the last one at the head. *)
Record world : Type := {
  w_node : path -> node;
  w_os : os_answers;
  w_trace : list event
}.

(** What is at the place that [p] names. *)
Definition node_at (w : world) (p : path) : node := w_node w (locate (w_os w) p).

Definition log (e : event) (w : world) : world :=
  {| w_node := w_node w; w_os := w_os w; w_trace := e :: w_trace w |}.

(** The place that [p] names now holds [n]. *)
Definition set_node (p : path) (n : node) (w : world) : world :=
  {| w_node := fun q => if (q =? locate (w_os w) p)%string then n else w_node w q;
     w_os := w_os w;
     w_trace := w_trace w |}.


(** A call ends by returning a value or by throwing a [std::exception];
    either way it leaves a world behind. *)
Inductive outcome (A : Type) : Type :=
| Returned (a : A) (w : world)
| Thrown (what : string) (w : world).
Arguments Returned {A} a w.
Arguments Thrown {A} what w.

(** A computation that runs in a world. *)
Definition io (A : Type) : Type := world -> outcome A.

Definition ret {A : Type} (a : A) : io A := fun w => Returned a w.

Definition throw {A : Type} (what : string) : io A := fun w => Thrown what w.

(** What follows a call runs only if the call returns. *)
Definition bind {A B : Type} (m : io A) (k : A -> io B) : io B :=
  fun w =>
    match m w with
    | Returned a w' => k a w'
    | Thrown what w' => Thrown what w'
    end.

Definition print (e : event) : io unit := fun w => Returned tt (log e w).

Declare Scope io_scope.
Delimit Scope io_scope with io.
Notation "x <- m ;; k" := (bind m (fun x => k))
  (at level 100, m at next level, right associativity) : io_scope.
Notation "m ;; k" := (bind m (fun _ => k))
  (at level 100, right associativity) : io_scope.
Open Scope io_scope.

(** A range-based [for] whose body may throw. *)
Fixpoint for_each_io {A S : Type} (body : S -> A -> io S) (range : list A) (s : S)
    : io S :=
  match range with
  | [] => ret s
  | x :: rest => s' <- body s x ;; for_each_io body rest s'
  end.

(** The [what()] of the exceptions of the library; their wording is the
    library's. *)
Definition what_status : string := "filesystem error: cannot get file status".
Definition what_mkdir : string := "filesystem error: cannot create directories".
Definition what_length : string := "cannot create std::vector larger than max_size()".

(** [std::filesystem::exists] *)
Definition fs_exists (p : path) : io bool :=
  fun w =>
    if status_throws (w_os w) p then Thrown what_status w
    else Returned (match node_at w p with Absent => false | _ => true end) w.

(** The paths that [std::filesystem::create_directories] goes through, the
    outermost first: [p] cut before each separator that ends a component,
    and then [p] itself. [seen] holds, last character first, what was read
    of [p] so far. *)
Fixpoint directory_chain_from (seen rest : string) : list path :=
  match rest with
  | EmptyString =>
      match seen with
      | EmptyString => []
      | String _ _ => [string_rev seen]
      end
  | String c rest' =>
      if Ascii.eqb c char_slash then
        match seen with
        | EmptyString => str1 char_slash :: directory_chain_from (String c seen) rest'
        | String d _ =>
            if Ascii.eqb d char_slash then directory_chain_from (String c seen) rest'
            else string_rev seen :: directory_chain_from (String c seen) rest'
        end
      else directory_chain_from (String c seen) rest'
  end.

Definition directory_chain (p : path) : list path :=
  directory_chain_from EmptyString p.

(** One directory after the other: what is a directory already is left
    alone, what is missing is created, and a file in the way or a refusal
    of the system ends the call with an exception, the directories created
    so far staying. *)
Fixpoint make_directories (chain : list path) : io unit :=
  match chain with
  | [] => ret tt
  | q :: rest =>
      fun w =>
        match node_at w q with
        | Directory => make_directories rest w
        | File _ => Thrown what_mkdir w
        | Absent =>
            if mkdir_throws (w_os w) q then Thrown what_mkdir w
            else make_directories rest (log (DirectoryCreated q) (set_node q Directory w))
        end
  end.

(** [std::filesystem::create_directories]: every missing directory on the
    way to [p] is created, and [p] itself. *)
Definition create_directories (p : path) : io unit :=
  match p with
  | EmptyString => throw what_mkdir
  | String _ _ => make_directories (directory_chain p)
  end.

(** An absent file does not open. A file or a directory may open; then
    the vector is sized from [tellg] with no check, which throws when the
    size cannot be allocated; a directory that gets that far has nothing
    to read. *)
Definition read_binary_file (p : path) (may_not_exist : bool) : io (list Byte.byte) :=
  fun w =>
    let open_failed :=
      Returned [] (if may_not_exist then w else log (ErrOpen p) w) in
    match node_at w p with
    | Absent => open_failed
    | Directory =>
        if open_read_fails (w_os w) p then open_failed
        else if size_fails (w_os w) p then Thrown what_length w
        else Returned [] (log (ErrRead p) w)
    | File data =>
        if open_read_fails (w_os w) p then open_failed
        else if size_fails (w_os w) p then Thrown what_length w
        else if read_fails (w_os w) p then Returned [] (log (ErrRead p) w)
        else Returned data w
    end.

(** A directory does not open for writing. Opening creates the file or
    empties it; a write that fails leaves the bytes written before the
    failure. *)
Definition write_binary_file (p : path) (content : string) : io unit :=
  fun w =>
    match node_at w p with
    | Directory => Returned tt (log (ErrOpenWrite p) w)
    | _ =>
        if open_write_fails (w_os w) p then Returned tt (log (ErrOpenWrite p) w)
        else
          match write_fails (w_os w) p with
          | Some n =>
              Returned tt
                (log (ErrWrite p)
                   (set_node p (File (firstn n (list_byte_of_string content))) w))
          | None =>
              Returned tt
                (log (Written p content)
                   (set_node p (File (list_byte_of_string content)) w))
          end
    end.

(** [memcmp(a, b, n) != 0]. It is only called with two buffers of [n]
    bytes; a buffer that ends before is read as different. *)
Fixpoint memcmp_differs (a b : list Byte.byte) (n : nat) : bool :=
  match n with
  | O => false
  | S n' =>
      match a, b with
      | x :: a', y :: b' => negb (Byte.eqb x y) || memcmp_differs a' b' n'
      | _, _ => true
      end
  end.

Definition write_file_if_changed (p : path) (content : string) : io unit :=
  existing <- read_binary_file p true ;;
  if (negb (List.length existing =? String.length content)%nat
      || memcmp_differs existing (list_byte_of_string content) (String.length content))%bool
  then write_binary_file p content
  else ret tt.

(** [cmake_lists::write] *)
Definition cmake_write (st : gen_state) (target_filepath : path) : io unit :=
  write_file_if_changed target_filepath (ss_str (cmake_out st)).

(** ** The embedder *)

(** [operator<] of [std::pair<std::string, path>], the order of
    [std::sort(shader_fnames.begin(), shader_fnames.end())]. (Two paths are
    compared only under equal names, where they are equal.) *)
Definition pair_ltb (a b : string * path) : bool :=
  match String.compare (fst a) (fst b) with
  | Lt => true
  | Gt => false
  | Eq => String.ltb (snd a) (snd b)
  end.

Fixpoint sort_insert (x : string * path) (l : list (string * path))
    : list (string * path) :=
  match l with
  | [] => [x]
  | y :: rest => if pair_ltb y x then y :: sort_insert x rest else x :: l
  end.

Definition std_sort (l : list (string * path)) : list (string * path) :=
  fold_right sort_insert [] l.

(** Output of a non-negative [int] under [std::hex]. *)
Definition hex_of_N (n : N) : string :=
  match n with
  | N0 => "0"
  | Npos p => HexString.Raw.of_pos p EmptyString
  end.

(** The loop that writes the elements of one array: [i] is the index of
    the head of [data]. *)
Fixpoint put_bytes (data : list Byte.byte) (i : nat) (src : sstream) : sstream :=
  match data with
  | [] => src
  | b :: rest =>
      let src := src << "0x" << hex_of_N (Byte.to_N b) << "," in
      let src := if ((i + 1) mod 12 =? 0)%nat then src << nl else src in
      put_bytes rest (S i) src
  end.

(** The two lines of the header for an embedded binary of [size] bytes. *)
Definition put_declaration (hdr : sstream) (name : string) (size : nat) : sstream :=
  hdr << "extern const unsigned char " << name << "_data[" << dec_of_nat size
      << "];" ++ nl
      << "const uint64_t " << name << "_len = " << dec_of_nat size << ";" ++ nl ++ nl.

(** The array definition of an embedded binary. *)
Definition put_definition (src : sstream) (name : string) (data : list Byte.byte)
    : sstream :=
  let src := src << "const unsigned char " << name << "_data["
                 << dec_of_nat (List.length data) << "] = {" ++ nl in
  let src := put_bytes data 0 src in
  src << nl ++ "};" ++ nl ++ nl.

(** The two lines of the header for a binary left on disk. *)
Definition put_stub (hdr : sstream) (name : string) (p : path) : sstream :=
  hdr << "inline constexpr char const * " << name << "_data = " ++ quote
      << path_filename p << quote ++ ";" ++ nl
      << "const uint64_t " << name << "_len = 0;" ++ nl ++ nl.

(** One turn of the loop over [shader_fnames]. *)
Definition embed_job (no_embed : bool) (acc : sstream * sstream)
    (pair : string * path) : io (sstream * sstream) :=
  let '(hdr, src) := acc in
  let '(name, p) := pair in
  if no_embed then ret (put_stub hdr name p, src)
  else
    data <- read_binary_file p false ;;
    match data with
    | [] => ret (hdr, src) (* continue *)
    | _ :: _ =>
        ret (put_declaration hdr name (List.length data), put_definition src name data)
    end.

Definition suffixes : list string := ["_f32"; "_f16"].

Definition binop_ops : list string := ["add"; "sub"; "mul"; "div"; "add_rms"].

(** The job name written at index [t0][t1][t2][rte] of the tables of [op]. *)
Definition binop_symbol (op : string) (t0 t1 t2 rte : nat) : string :=
  op ++ nth t0 suffixes EmptyString ++ nth t1 suffixes EmptyString
     ++ nth t2 suffixes EmptyString
     ++ (if negb (rte =? 0)%nat then "_rte" else EmptyString).

Definition put2 (dl : sstream * sstream) (x y : string) : sstream * sstream :=
  (fst dl << x, snd dl << y).

Definition open_brace (t : nat) (dl : sstream * sstream) : sstream * sstream :=
  if (t =? 0)%nat then put2 dl "{" "{" else dl.

Definition close_brace (t : nat) (closing : string) (dl : sstream * sstream)
    : sstream * sstream :=
  if (t =? 1)%nat then put2 dl closing closing else dl.

(** The streams [data] and [len] of one operator, after the four loops. *)
Definition binop_tables (op : string) : sstream * sstream :=
  let data := make_generic_stringstream << "const void * " << op
                << "_data[2][2][2][2] = " in
  let len := make_generic_stringstream << "const uint64_t " << op
                << "_len[2][2][2][2] = " in
  fold_left (fun dl t0 =>
    let dl := open_brace t0 dl in
    let dl := fold_left (fun dl t1 =>
      let dl := open_brace t1 dl in
      let dl := fold_left (fun dl t2 =>
        let dl := open_brace t2 dl in
        let dl := fold_left (fun dl rte =>
          let dl := open_brace rte dl in
          let dl := put2 dl (binop_symbol op t0 t1 t2 rte)
                            (binop_symbol op t0 t1 t2 rte) in
          let dl := put2 dl "_data," "_len," in
          close_brace rte "}, " dl) (List.seq 0 2) dl in
        close_brace t2 "}, " dl) (List.seq 0 2) dl in
      close_brace t1 "}, " dl) (List.seq 0 2) dl in
    close_brace t0 ("};" ++ nl) dl) (List.seq 0 2) (data, len).

Definition put_binop_tables (acc : sstream * sstream) (op : string)
    : sstream * sstream :=
  let '(hdr, src) := acc in
  let hdr := hdr << "extern const void * " << op << "_data[2][2][2][2];" ++ nl
                 << "extern const uint64_t " << op << "_len[2][2][2][2];" ++ nl in
  let '(data, len) := binop_tables op in
  (hdr, src << ss_str data << ss_str len).

Definition put_dmmv_table (btype : string) (acc : sstream * sstream) (tname : string)
    : sstream * sstream :=
  let '(hdr, src) := acc in
  if ((btype =? "q8_1") && negb (is_legacy_quant tname))%bool then acc (* continue *)
  else
    let hdr := hdr << "extern const void * arr_dmmv_" << tname << "_" << btype
                   << "_f32_data[3];" ++ nl in
    let hdr := hdr << "extern const uint64_t arr_dmmv_" << tname << "_" << btype
                   << "_f32_len[3];" ++ nl in
    let src := src << "const void * arr_dmmv_" << tname << "_" << btype
                   << "_f32_data[3] = {mul_mat_vec_" << tname << "_" << btype
                   << "_f32_data, mul_mat_vec_" << tname << "_" << btype
                   << "_f32_subgroup_data, mul_mat_vec_" << tname << "_" << btype
                   << "_f32_subgroup_no_shmem_data};" ++ nl in
    let src := src << "const uint64_t arr_dmmv_" << tname << "_" << btype
                   << "_f32_len[3] =  {mul_mat_vec_" << tname << "_" << btype
                   << "_f32_len,  mul_mat_vec_" << tname << "_" << btype
                   << "_f32_subgroup_len, mul_mat_vec_" << tname << "_" << btype
                   << "_f32_subgroup_no_shmem_len};" ++ nl in
    (hdr, src).

Section Embedder.

Variable cfg : build_config.
Variable g : globals.

Definition btypes : list string :=
  let btypes := ["f16"; "f32"] in
  if GGML_VULKAN_INTEGER_DOT_GLSLC_SUPPORT cfg then List.app btypes ["q8_1"]
  else btypes.

(** The text of the two generated units, once the compiled binaries have
    been read. *)
Definition embed_texts (target_hpp : path) (no_embed : bool)
    (fnames : list (string * path)) : io (sstream * sstream) :=
  let hdr := make_generic_stringstream in
  let src := make_generic_stringstream in
  let hdr := hdr << "#include <cstdint>" ++ nl ++ nl in
  let src := src << "#include " ++ quote << path_filename target_hpp
                 << quote ++ nl ++ nl in
  let hdr := if no_embed
             then hdr << "#define GGML_VK_SHADER_DIR " ++ quote << output_dir g
                      << quote ++ nl ++ nl
             else hdr in
  let fnames := std_sort fnames in
  texts <- for_each_io (embed_job no_embed) fnames (hdr, src) ;;
  let texts := fold_left put_binop_tables binop_ops texts in
  let texts :=
    fold_left (fun acc btype => fold_left (put_dmmv_table btype) type_names acc)
      btypes texts in
  ret texts.

Definition write_embed_files (target_hpp target_cpp : path) (no_embed : bool)
    (st : gen_state) : io unit :=
  texts <- embed_texts target_hpp no_embed (vec_items (shader_fnames st)) ;;
  write_file_if_changed target_hpp (ss_str (fst texts)) ;;
  if no_embed then write_file_if_changed target_cpp (ss_str (snd texts))
  else write_binary_file target_cpp (ss_str (snd texts)).

End Embedder.

(** ** The command line and [main] *)

Definition usage : string :=
  String.concat EmptyString (map (fun line => line ++ nl) [
    "Usage: vulkan-shaders-gen [options]";
    EmptyString;
    "Compiles Vulkan compute shaders to SPIR-V and embeds it into C++ source files";
    EmptyString;
    "Options:";
    "  --glslc <path>          Path to glslc executable (default: glslc)";
    "  --input-dir <path>      Input directory containing .comp shader files";
    "  --output-dir <path>     Output directory for compiled .spv files";
    "  --target-hpp <path>     Output C++ header file path";
    "  --target-cpp <path>     Output C++ source file path";
    "  --target-cmake <path>   Output CMakeLists.txt file path";
    "  --no-embed              Do not embed SPIR-V binaries into C++ source";
    EmptyString;
    "This executable runs at build time. Typically it is invoked by CMake like this:";
    "  1. Run with --target-cmake to generate CMakeLists.txt that contains build";
    "     commands for the shaders.";
    "  2. Configure and build the generated CMake sub-project to compile the shaders";
    "     into SPIR-V files.";
    "  3. Run without --target-cmake to generate C++ source files that embed the";
    "     SPIR-V binaries. This invocation is part of the generated sub-project.";
    EmptyString;
    "If --no-embed is used, step 1 will generate stub C++ source files, and";
    "step 3 is skipped. This allows fast iteration on shader code without";
    "recompiling C++ code, but can't be deployed." ]).

Definition EXIT_SUCCESS : Z := 0%Z.
Definition EXIT_FAILURE : Z := 1%Z.

(** [s[0]], the terminating zero for the empty string. *)
Definition first_char (s : string) : ascii :=
  match s with
  | String c _ => c
  | EmptyString => Ascii.zero
  end.

(** The loop of [main] over [argv[i]], [i >= 1]: [rest] is what is left of
    [argv] from index [i] on. *)
Fixpoint parse_args (rest : list string) (args : StdMap.t) : StdMap.t :=
  match rest with
  | [] => args
  | arg :: rest' =>
      if String.prefix "--" arg (* arg.rfind("--", 0) == 0 *) then
        match rest' with
        | next :: rest'' =>
            if negb (Ascii.eqb (first_char next) char_dash)
            then parse_args rest'' (StdMap.set arg next args) (* ++i *)
            else parse_args rest' (StdMap.set arg EmptyString args)
        | [] => parse_args rest' (StdMap.set arg EmptyString args)
        end
      else parse_args rest' args
  end.

(** [args.find(key) != args.end()] *)
Definition has_arg (args : StdMap.t) (key : string) : bool :=
  match StdMap.find key args with
  | Some _ => true
  | None => false
  end.

(** [if (args.find(key) != args.end()) x = args[key];] for [x] holding
    [default]. *)
Definition arg_or (args : StdMap.t) (key default : string) : string :=
  match StdMap.find key args with
  | Some v => v
  | None => default
  end.

Definition path_empty (p : path) : bool := (String.length p =? 0)%nat.

Fixpoint drop_slashes (s : string) : string :=
  match s with
  | String c rest => if Ascii.eqb c char_slash then drop_slashes rest else s
  | EmptyString => EmptyString
  end.

(** [p.parent_path()] *)
Definition parent_path (p : path) : path :=
  let dir := substring 0 (String.length p - String.length (path_filename p)) p in
  let stripped := string_rev (drop_slashes (string_rev dir)) in
  if path_empty stripped then (if path_is_absolute p then str1 char_slash else EmptyString)
  else stripped.

Definition has_parent_path (p : path) : bool := negb (path_empty (parent_path p)).

(** [if (!exists(p)) create_directories(p);] *)
Definition ensure_directory (p : path) : io unit :=
  found <- fs_exists p ;;
  if found then ret tt else create_directories p.

Definition progress_line : string :=
  "ggml_vulkan: Generating and compiling shaders to SPIR-V" ++ nl.

(** The local variables of [main] that hold what the command line says. *)
Record options : Type := {
  opt_globals : globals;
  opt_target_hpp : path;
  opt_target_cpp : path;
  opt_target_cmake : path;
  opt_no_embed : bool;
  opt_help : bool
}.

(** The loop over [argv] and the tests of [args] that follow it. *)
Definition read_options (argv : list string) : options :=
  let args := parse_args (tl argv) StdMap.empty in
  {| opt_globals :=
       {| GLSLC := arg_or args "--glslc" (GLSLC default_globals);
          input_dir := arg_or args "--input-dir" (input_dir default_globals);
          output_dir := arg_or args "--output-dir" (output_dir default_globals) |};
     opt_target_hpp := arg_or args "--target-hpp" "ggml-vulkan-shaders.hpp";
     opt_target_cpp := arg_or args "--target-cpp" "ggml-vulkan-shaders.cpp";
     opt_target_cmake := arg_or args "--target-cmake" EmptyString;
     opt_no_embed := has_arg args "--no-embed";
     opt_help := has_arg args "--help" |}.

(** [cmake] before [process_shaders]: [add_header] is called when a
    CMakeLists is asked for. *)
Definition state_before_shaders (g : globals) (argv : list string)
    (target_cmake : path) : gen_state :=
  let st := initial_state in
  if negb (path_empty target_cmake)
  then {| cmake_out := add_header g argv (cmake_out st);
          cmake_out_filepaths := cmake_out_filepaths st;
          shader_fnames := shader_fnames st |}
  else st.

Section Main.

Variable cfg : build_config.

(** The end of the [try] block, after [process_shaders]. *)
Definition emit_outputs (g : globals) (argv : list string)
    (target_hpp target_cpp target_cmake : path) (no_embed : bool)
    (st : gen_state) : io unit :=
  (if (path_empty target_cmake || no_embed)%bool
   then write_embed_files cfg g target_hpp target_cpp no_embed st
   else ret tt) ;;
  if negb (path_empty target_cmake) then
    let st :=
      if no_embed then add_target_build_only st
      else add_target_embed g (nth 0 argv EmptyString) target_hpp target_cpp st in
    cmake_write st target_cmake
  else ret tt.

(** The [try] block of [main]: the exit code it returns, or the exception
    that leaves it. *)
Definition main_try (g : globals) (argv : list string)
    (target_hpp target_cpp target_cmake : path) (no_embed : bool) : io Z :=
  found <- fs_exists (input_dir g) ;;
  if negb found then
    print (Stderr ("Input directory does not exist: " ++ path_out (input_dir g) ++ nl)) ;;
    ret EXIT_FAILURE
  else
    ensure_directory (output_dir g) ;;
    (if (negb (path_empty target_cmake) && has_parent_path target_cmake)%bool
     then ensure_directory (parent_path target_cmake)
     else ret tt) ;;
    let st := state_before_shaders g argv target_cmake in
    print (Stdout progress_line) ;;
    let st := process_shaders cfg g st in
    emit_outputs g argv target_hpp target_cpp target_cmake no_embed st ;;
    ret EXIT_SUCCESS.

Definition main (argv : list string) (w : world) : Z * world :=
  let o := read_options argv in
  if opt_help o then
    (EXIT_SUCCESS, log (Stdout (usage ++ nl)) w)
  else if (opt_no_embed o && path_empty (opt_target_cmake o))%bool then
    (EXIT_FAILURE,
     log (Stderr ("--no-embed requires --target-cmake to be specified" ++ nl)) w)
  else
    match main_try (opt_globals o) argv (opt_target_hpp o) (opt_target_cpp o)
            (opt_target_cmake o) (opt_no_embed o) w with
    | Returned code w' => (code, w')
    | Thrown what w' => (EXIT_FAILURE, log (Stderr ("Error: " ++ what ++ nl)) w')
    end.

End Main.

(** ** Reading the generated text back

    The generator has no reader of its own: an embedded array is read by the
    C++ compiler and the command line is described by a rule. The
    definitions of this part state these two readings; the theorems compare
    them with what the program writes and parses. *)

Definition is_space (c : ascii) : bool :=
  (Ascii.eqb c " " || Ascii.eqb c char_newline ||
   Ascii.eqb c (ascii_of_nat 9) || Ascii.eqb c (ascii_of_nat 13))%bool.

Fixpoint remove_spaces (s : string) : string :=
  match s with
  | EmptyString => EmptyString
  | String c rest =>
      if is_space c then remove_spaces rest else String c (remove_spaces rest)
  end.

(** The fields between the commas of [s]; the last one is what follows the
    last comma. *)
Fixpoint split_commas (s : string) : list string :=
  match s with
  | EmptyString => [EmptyString]
  | String c rest =>
      if Ascii.eqb c "," then EmptyString :: split_commas rest
      else match split_commas rest with
           | field :: fields => String c field :: fields
           | [] => [String c EmptyString]
           end
  end.

Fixpoint hex_digits_value (s : string) (acc : N) : option N :=
  match s with
  | EmptyString => Some acc
  | String c rest =>
      match HexString.ascii_to_digit c with
      | Some v => hex_digits_value rest (16 * acc + v)%N
      | None => None
      end
  end.

(** The value of a hexadecimal literal [0x...] that fits an
    [unsigned char]. *)
Definition parse_hex_byte (tok : string) : option Byte.byte :=
  match tok with
  | String z (String x (String d digits)) =>
      if (Ascii.eqb z "0" && (Ascii.eqb x "x" || Ascii.eqb x "X"))%bool
      then match hex_digits_value (String d digits) 0%N with
           | Some n => Byte.of_N n
           | None => None
           end
      else None
  | _ => None
  end.

Fixpoint parse_all (toks : list string) : option (list Byte.byte) :=
  match toks with
  | [] => Some []
  | tok :: rest =>
      match parse_hex_byte tok, parse_all rest with
      | Some b, Some bs => Some (b :: bs)
      | _, _ => None
      end
  end.

(** An initializer list may end with a comma. *)
Fixpoint drop_last_empty (fields : list string) : list string :=
  match fields with
  | [] => []
  | [EmptyString] => []
  | f :: rest => f :: drop_last_empty rest
  end.

(** The bytes denoted by the text between the braces of an array
    definition. *)
Definition decode_byte_array (body : string) : option (list Byte.byte) :=
  parse_all (drop_last_empty (split_commas (remove_spaces body))).

(** The number denoted by a decimal literal. *)
Definition decode_dec (s : string) : option nat :=
  option_map Nat.of_uint (NilEmpty.uint_of_string s).

(** The text that [put_definition] writes between "{" and "}". *)
Definition array_body (data : list Byte.byte) : string :=
  nl ++ ss_str (put_bytes data 0 make_generic_stringstream) ++ nl.

(** The value that the rule of the command line gives to an option
    followed by [rest]. *)
Definition value_after (rest : list string) : string :=
  match rest with
  | next :: _ =>
      if Ascii.eqb (first_char next) char_dash then EmptyString else next
  | [] => EmptyString
  end.

(** The value of the last occurrence of [key] among the arguments, each
    occurrence read by the rule. *)
Fixpoint last_value (key : string) (rest : list string) : option string :=
  match rest with
  | [] => None
  | arg :: rest' =>
      match last_value key rest' with
      | Some v => Some v
      | None => if (arg =? key)%string then Some (value_after rest') else None
      end
  end.

(** The names of the catalog, in the order the jobs were recorded. *)
Definition catalog_names (cfg : build_config) (g : globals) : list string :=
  map fst (vec_items (shader_fnames (process_shaders cfg g initial_state))).

Definition coopmat2_only : build_config :=
  {| GGML_VULKAN_COOPMAT_GLSLC_SUPPORT := false;
     GGML_VULKAN_COOPMAT2_GLSLC_SUPPORT := true;
     GGML_VULKAN_INTEGER_DOT_GLSLC_SUPPORT := false;
     GGML_VULKAN_BFLOAT16_GLSLC_SUPPORT := false;
     GGML_VULKAN_SHADER_DEBUG_INFO := false |}.

Definition no_capability : build_config :=
  {| GGML_VULKAN_COOPMAT_GLSLC_SUPPORT := false;
     GGML_VULKAN_COOPMAT2_GLSLC_SUPPORT := false;
     GGML_VULKAN_INTEGER_DOT_GLSLC_SUPPORT := false;
     GGML_VULKAN_BFLOAT16_GLSLC_SUPPORT := false;
     GGML_VULKAN_SHADER_DEBUG_INFO := false |}.

(** ** What the statements observe *)

(** The paths of the successful writes of a trace. *)
Fixpoint written_paths (trace : list event) : list path :=
  match trace with
  | [] => []
  | Written p _ :: rest => p :: written_paths rest
  | _ :: rest => written_paths rest
  end.

(** The paths of the calls of [write_binary_file] of a trace: each call
    ends with a successful write or with one of its two errors. *)
Fixpoint write_attempts (trace : list event) : list path :=
  match trace with
  | [] => []
  | Written p _ :: rest => p :: write_attempts rest
  | ErrOpenWrite p :: rest => p :: write_attempts rest
  | ErrWrite p :: rest => p :: write_attempts rest
  | _ :: rest => write_attempts rest
  end.


(** The world a call leaves behind. *)
Definition world_of {A : Type} (r : outcome A) : world :=
  match r with
  | Returned _ w => w
  | Thrown _ w => w
  end.

Definition throws {A : Type} (r : outcome A) : bool :=
  match r with
  | Returned _ _ => false
  | Thrown _ _ => true
  end.

(** The bytes that [read_binary_file] returns for [p], none if it
    throws. *)
Definition file_bytes (w : world) (p : path) : list Byte.byte :=
  match read_binary_file p false w with
  | Returned data _ => data
  | Thrown _ _ => []
  end.

(** Whether [read_binary_file] throws for [p]. *)
Definition read_throws (w : world) (p : path) : bool :=
  throws (read_binary_file p false w).

Fixpoint memb (x : string) (l : list string) : bool :=
  match l with
  | [] => false
  | y :: rest => (x =? y)%string || memb x rest
  end.

(** Strings in the order of [std::string::operator<=], for sorting. *)
Module StringOrder <: Orders.TotalLeBool.
Definition t : Type := string.
Definition leb : t -> t -> bool := String.leb.
Theorem leb_total (a1 a2 : t) : leb a1 a2 = true \/ leb a2 a1 = true.
Proof. apply String.leb_total. Qed.
End StringOrder.

Module StringSort := Mergesort.Sort StringOrder.

Fixpoint adjacent_distinct (l : list string) : bool :=
  match l with
  | x :: (y :: _) as rest => negb (x =? y)%string && adjacent_distinct rest
  | _ => true
  end.

(** No string occurs twice in [l]: once sorted, no two neighbours are
    equal. *)
Definition nodupb (l : list string) : bool :=
  adjacent_distinct (StringSort.sort l).

(** The three job names of the table [arr_dmmv_<tname>_<btype>_f32]. *)
Definition dmmv_symbols (tname btype : string) : list string :=
  [ "mul_mat_vec_" ++ tname ++ "_" ++ btype ++ "_f32";
    "mul_mat_vec_" ++ tname ++ "_" ++ btype ++ "_f32_subgroup";
    "mul_mat_vec_" ++ tname ++ "_" ++ btype ++ "_f32_subgroup_no_shmem" ].

(** Every job name that [write_embed_files] writes into a lookup table. *)
Definition table_symbols (cfg : build_config) : list string :=
  List.app
    (flat_map (fun op =>
       flat_map (fun t0 =>
         flat_map (fun t1 =>
           flat_map (fun t2 =>
             map (fun rte => binop_symbol op t0 t1 t2 rte) (List.seq 0 2))
           (List.seq 0 2))
         (List.seq 0 2))
       (List.seq 0 2))
     binop_ops)
    (flat_map (fun btype =>
       flat_map (fun tname =>
         if ((btype =? "q8_1") && negb (is_legacy_quant tname))%bool then []
         else dmmv_symbols tname btype)
       type_names)
     (btypes cfg)).




(** The jobs of [fnames] whose binary reads back non-empty, each with the
    bytes read. *)
Definition embedded (w : world) (fnames : list (string * path))
    : list (string * list Byte.byte) :=
  flat_map (fun pair =>
    match file_bytes w (snd pair) with
    | [] => []
    | data => [(fst pair, data)]
    end) fnames.

(** What [put_declaration] and [put_definition] add to their stream. *)
Definition declaration_text (job : string * list Byte.byte) : string :=
  ss_str (put_declaration make_generic_stringstream (fst job) (List.length (snd job))).

Definition definition_text (job : string * list Byte.byte) : string :=
  ss_str (put_definition make_generic_stringstream (fst job) (snd job)).

(** One element of an array, as [put_bytes] writes it before the comma. *)
Definition byte_token (b : Byte.byte) : string := "0x" ++ hex_of_N (Byte.to_N b).

(** The text written by [put_bytes]. *)
Fixpoint bytes_text (data : list Byte.byte) (i : nat) : string :=
  match data with
  | [] => EmptyString
  | b :: rest =>
      byte_token b ++ "," ++ (if ((i + 1) mod 12 =? 0)%nat then nl else EmptyString)
        ++ bytes_text rest (S i)
  end.

Fixpoint no_comma (s : string) : bool :=
  match s with
  | EmptyString => true
  | String c rest => negb (Ascii.eqb c ",") && no_comma rest
  end.

(** A system where every path names the place of its own spelling and no
    call fails. *)
Definition obliging_os : os_answers :=
  {| locate := fun p => p;
     open_read_fails := fun _ => false;
     size_fails := fun _ => false;
     read_fails := fun _ => false;
     open_write_fails := fun _ => false;
     write_fails := fun _ => None;
     status_throws := fun _ => false;
     mkdir_throws := fun _ => false |}.

Definition empty_world : world :=
  {| w_node := fun _ => Absent; w_os := obliging_os; w_trace := [] |}.

(** The text of an array once the white space is gone: every element
    followed by its comma. *)
Fixpoint plain_text (data : list Byte.byte) : string :=
  match data with
  | [] => EmptyString
  | b :: rest => byte_token b ++ String "," (plain_text rest)
  end.

(** The jobs of the catalog with their output paths, in the order they were
    recorded. *)
Definition catalog (cfg : build_config) (g : globals) : list (string * path) :=
  vec_items (shader_fnames (process_shaders cfg g initial_state)).

(** [w'] differs from [w] by diagnostics only: the same files, the same
    answers of the system, the same calls of [write_binary_file]. *)
Definition quiet (w w' : world) : Prop :=
  (forall q, w_node w' q = w_node w q) /\ w_os w' = w_os w /\
  write_attempts (w_trace w') = write_attempts (w_trace w) /\
  written_paths (w_trace w') = written_paths (w_trace w).

(** The same files and the same answers of the system. *)
Definition same_files (w w' : world) : Prop :=
  (forall q, w_node w' q = w_node w q) /\ w_os w' = w_os w.

(** No call of the system fails for the path [p]. *)
Definition obliging_for (w : world) (p : path) : Prop :=
  open_read_fails (w_os w) p = false /\ size_fails (w_os w) p = false /\
  read_fails (w_os w) p = false /\ open_write_fails (w_os w) p = false /\
  write_fails (w_os w) p = None.

(** The test of [write_file_if_changed]. *)
Definition content_differs (existing : list Byte.byte) (content : string) : bool :=
  negb (List.length existing =? String.length content)%nat
  || memcmp_differs existing (list_byte_of_string content) (String.length content).

(** A build tree: the shader sources, the output directory and one
    compiled binary. *)
Definition build_tree : world :=
  {| w_node := fun p =>
       if (p =? "vulkan-shaders")%string then Directory
       else if (p =? "/tmp")%string then Directory
       else if (p =? "/tmp/acc_f32.spv")%string
            then File [Byte.x03; Byte.x02; Byte.x23; Byte.x07]
       else Absent;
     w_os := obliging_os;
     w_trace := [] |}.

(** ** Definitions for the further properties *)

(** What is read back from a text written by [path_out] or between the
    quotes of a flag: the characters up to the first quote that no backslash
    protects, each escaped character standing for itself, and the text
    after that quote. *)
Fixpoint read_quoted (s : string) : option (string * string) :=
  match s with
  | EmptyString => None
  | String c rest =>
      if Ascii.eqb c char_quote then Some (EmptyString, rest)
      else if Ascii.eqb c char_backslash then
        match rest with
        | String d rest' =>
            match read_quoted rest' with
            | Some (x, r) => Some (String d x, r)
            | None => None
            end
        | EmptyString => None
        end
      else
        match read_quoted rest with
        | Some (x, r) => Some (String c x, r)
        | None => None
        end
  end.

(** The output path that [string_to_spv] gives to the job [name]. *)
Definition job_path (g : globals) (name : string) : path :=
  path_append (output_dir g) (name ++ ".spv").

(** The outputs of the build rules are the paths of the catalog, in the
    same order, and each is the path of its job. *)
Definition catalog_consistent (g : globals) (st : gen_state) : Prop :=
  cmake_out_filepaths st = map snd (shader_fnames st) /\
  Forall (fun job => snd job = job_path g (fst job)) (shader_fnames st).

(** The action [a] keeps the property [I] of the state. *)
Definition keeps (I : gen_state -> Prop) (a : action) : Prop :=
  forall st, I st -> I (a st).

(** Two states with the same catalog and the same outputs of build rules:
    they may differ by the text of the CMakeLists. *)
Definition same_jobs (st st' : gen_state) : Prop :=
  shader_fnames st = shader_fnames st' /\
  cmake_out_filepaths st = cmake_out_filepaths st'.

(** The action [a] takes states with the same jobs to states with the same
    jobs. *)
Definition keeps_jobs (a : action) : Prop :=
  forall st st', same_jobs st st' -> same_jobs (a st) (a st').

(** One level of a two-element initialiser list, as the loops print it. *)
Definition braces (entry : nat -> string) (closing : string) : string :=
  "{" ++ entry 0 ++ entry 1 ++ closing.

(** The initialiser of a [2][2][2][2] table of [op], each entry the job name
    followed by [sfx] and a comma. *)
Definition table_text (op sfx : string) : string :=
  braces (fun t0 =>
    braces (fun t1 =>
      braces (fun t2 =>
        braces (fun rte => binop_symbol op t0 t1 t2 rte ++ sfx ++ ",") "}, ")
        "}, ")
      "}, ")
    ("};" ++ nl).

(** The elements of an array as [put_bytes] writes them from index 0. *)
Definition array_text (data : list Byte.byte) : string :=
  ss_str (put_bytes data 0 make_generic_stringstream).

(** Elements on one line: each one followed by a comma. *)
Definition array_row (data : list Byte.byte) : string :=
  String.concat EmptyString (map (fun b => "0x" ++ hex_of_N (Byte.to_N b) ++ ",") data).

(** The lines of the two generated units, as they are read in the
    files. *)
Definition stub_lines (job : string * path) : string :=
  "inline constexpr char const * " ++ fst job ++ "_data = " ++ quote
  ++ path_filename (snd job) ++ quote ++ ";" ++ nl
  ++ "const uint64_t " ++ fst job ++ "_len = 0;" ++ nl ++ nl.

Definition declaration_lines (job : string * list Byte.byte) : string :=
  "extern const unsigned char " ++ fst job ++ "_data["
  ++ dec_of_nat (List.length (snd job)) ++ "];" ++ nl
  ++ "const uint64_t " ++ fst job ++ "_len = "
  ++ dec_of_nat (List.length (snd job)) ++ ";" ++ nl ++ nl.

Definition definition_lines (job : string * list Byte.byte) : string :=
  "const unsigned char " ++ fst job ++ "_data["
  ++ dec_of_nat (List.length (snd job)) ++ "] = {" ++ nl
  ++ bytes_text (snd job) 0 ++ nl ++ "};" ++ nl ++ nl.

Definition binop_declaration (op : string) : string :=
  "extern const void * " ++ op ++ "_data[2][2][2][2];" ++ nl
  ++ "extern const uint64_t " ++ op ++ "_len[2][2][2][2];" ++ nl.

Definition binop_definition (op : string) : string :=
  "const void * " ++ op ++ "_data[2][2][2][2] = " ++ table_text op "_data"
  ++ "const uint64_t " ++ op ++ "_len[2][2][2][2] = " ++ table_text op "_len".

(** The tables of the matrix-vector jobs: each type with each type of the
    second operand, but with q8_1 the legacy quants only; the type of the
    second operand varies slowest. *)
Definition dmmv_rows (btypes : list string) : list (string * string) :=
  flat_map (fun btype =>
    flat_map (fun tname =>
      if ((btype =? "q8_1") && negb (is_legacy_quant tname))%bool then []
      else [(tname, btype)])
    type_names) btypes.

Definition dmmv_declaration (row : string * string) : string :=
  "extern const void * arr_dmmv_" ++ fst row ++ "_" ++ snd row ++ "_f32_data[3];" ++ nl
  ++ "extern const uint64_t arr_dmmv_" ++ fst row ++ "_" ++ snd row
  ++ "_f32_len[3];" ++ nl.

Definition dmmv_definition (row : string * string) : string :=
  let job := "mul_mat_vec_" ++ fst row ++ "_" ++ snd row ++ "_f32" in
  "const void * arr_dmmv_" ++ fst row ++ "_" ++ snd row ++ "_f32_data[3] = {"
  ++ job ++ "_data, " ++ job ++ "_subgroup_data, "
  ++ job ++ "_subgroup_no_shmem_data};" ++ nl
  ++ "const uint64_t arr_dmmv_" ++ fst row ++ "_" ++ snd row ++ "_f32_len[3] =  {"
  ++ job ++ "_len,  " ++ job ++ "_subgroup_len, "
  ++ job ++ "_subgroup_no_shmem_len};" ++ nl.

(** From [w] to [w'] the answers of the system are the same, the places
    that none of [files] names hold what they held, nothing is removed,
    no directory is made or unmade, and every new call of
    [write_binary_file] is for one of [files]. *)
Definition touches (files : list path) (w w' : world) : Prop :=
  w_os w' = w_os w /\
  (forall q, (forall t, In t files -> q <> locate (w_os w) t) ->
             w_node w' q = w_node w q) /\
  (forall q, w_node w' q = Directory <-> w_node w q = Directory) /\
  (forall q, w_node w q <> Absent -> w_node w' q <> Absent) /\
  (forall x, In x (write_attempts (w_trace w')) ->
             In x (write_attempts (w_trace w)) \/ In x files).

(** From [w] to [w'] nothing is written; the places that changed were
    empty and hold a directory now, each named by one of [dirs]. *)
Definition grows (dirs : list path) (w w' : world) : Prop :=
  w_os w' = w_os w /\
  (forall q, w_node w' q = w_node w q \/
             (w_node w q = Absent /\ w_node w' q = Directory /\
              exists d, In d dirs /\ q = locate (w_os w) d)) /\
  write_attempts (w_trace w') = write_attempts (w_trace w) /\
  written_paths (w_trace w') = written_paths (w_trace w).


(** The files that a run with these targets writes: the header and the
    source unless a CMakeLists is asked for in embed mode, and the
    CMakeLists when it is asked for. *)
Definition output_files (target_hpp target_cpp target_cmake : path) (no_embed : bool)
    : list path :=
  List.app
    (if (path_empty target_cmake || no_embed)%bool then [target_hpp; target_cpp] else [])
    (if path_empty target_cmake then [] else [target_cmake]).

(** From [w] to [w'] the answers of the system are the same; a place that
    changed is named by one of [files] and holds a file now, or is named
    by one of [dirs], was empty and holds a directory now; and every new
    call of [write_binary_file] is for one of [files]. *)
Definition footprint (files dirs : list path) (w w' : world) : Prop :=
  w_os w' = w_os w /\
  (forall q, w_node w' q = w_node w q \/
             ((exists t, In t files /\ q = locate (w_os w) t) /\
              exists data, w_node w' q = File data) \/
             ((exists d, In d dirs /\ q = locate (w_os w) d) /\
              w_node w q = Absent /\ w_node w' q = Directory)) /\
  (forall x, In x (write_attempts (w_trace w')) ->
             In x (write_attempts (w_trace w)) \/ In x files).

(** The files a run may write: none when it prints the usage or
    rejects the options. *)
Definition main_outputs (o : options) : list path :=
  if (opt_help o || (opt_no_embed o && path_empty (opt_target_cmake o)))%bool then []
  else output_files (opt_target_hpp o) (opt_target_cpp o) (opt_target_cmake o)
         (opt_no_embed o).

(** The directories a run may create: those on the way to the output
    directory and to the directory of the CMakeLists. *)
Definition main_directories (o : options) : list path :=
  List.app (directory_chain (output_dir (opt_globals o)))
    (directory_chain (parent_path (opt_target_cmake o))).

Fixpoint no_slash (s : string) : bool :=
  match s with
  | EmptyString => true
  | String c rest => negb (Ascii.eqb c char_slash) && no_slash rest
  end.

(** The lines of a DEPENDS list: one quoted path per line, after [indent]. *)
Definition depends_text (indent : string) (paths : list path) : string :=
  String.concat EmptyString (map (fun p => indent ++ path_out p ++ nl) paths).

(** * Properties *)

(** ** Strings *)

Lemma append_nil_r (s : string) : s ++ EmptyString = s.
Proof. induction s as [|c s IH]; simpl; [reflexivity | now rewrite IH]. Qed.

Lemma append_assoc (a b c : string) : (a ++ b) ++ c = a ++ (b ++ c).
Proof. induction a as [|x a IH]; simpl; [reflexivity | now rewrite IH]. Qed.

Lemma concat_empty_app (l1 l2 : list string) :
  String.concat EmptyString (l1 ++ l2)%list
  = String.concat EmptyString l1 ++ String.concat EmptyString l2.
Proof.
  induction l1 as [|x l1 IH]; simpl; [reflexivity|].
  destruct l1 as [|y l1].
  - simpl. destruct l2 as [|z l2]; simpl; [now rewrite append_nil_r | reflexivity].
  - simpl in *. rewrite IH. now rewrite append_assoc.
Qed.

Lemma ss_str_put (s : sstream) (x : string) : ss_str (s << x) = ss_str s ++ x.
Proof.
  unfold ss_str, ss_put. simpl. rewrite concat_empty_app. reflexivity.
Qed.

Lemma ss_str_empty : ss_str make_generic_stringstream = EmptyString.
Proof. reflexivity. Qed.

Lemma memb_In (x : string) (l : list string) : memb x l = true <-> In x l.
Proof.
  induction l as [|y l IH]; simpl; [split; [discriminate | tauto]|].
  rewrite orb_true_iff, IH, String.eqb_eq. split; intros [H|H]; auto.
Qed.

Lemma string_rev_onto_spec (s acc : string) :
  string_rev_onto s acc = string_rev s ++ acc.
Proof.
  unfold string_rev. revert acc. induction s as [|c s IH]; intros acc; [reflexivity|].
  cbn [string_rev_onto]. rewrite IH, (IH (String c EmptyString)), append_assoc.
  reflexivity.
Qed.

Lemma string_rev_cons (c : ascii) (s : string) :
  string_rev (String c s) = string_rev s ++ String c EmptyString.
Proof. unfold string_rev at 1. cbn [string_rev_onto]. apply string_rev_onto_spec. Qed.

(** ** Maps *)

Module StdMapFacts.

Import StdMap.

Lemma key_lt_trans a b c : key_lt a b -> key_lt b c -> key_lt a c.
Proof.
  unfold key_lt. intros H1 H2.
  apply String_as_OT.cmp_lt. apply String_as_OT.cmp_lt in H1, H2.
  eapply String_as_OT.lt_trans; eassumption.
Qed.

Lemma compare_refl a : String.compare a a = Eq.
Proof. now apply String_as_OT.cmp_eq. Qed.

Lemma compare_Eq a b : String.compare a b = Eq -> a = b.
Proof. apply String.compare_eq_iff. Qed.

Lemma compare_Gt a b : String.compare a b = Gt -> key_lt b a.
Proof.
  unfold key_lt. intros H. rewrite String.compare_antisym, H. reflexivity.
Qed.

Lemma key_lt_neq a b : key_lt a b -> (b =? a)%string = false.
Proof.
  unfold key_lt. intros H. apply String.eqb_neq. intros ->.
  rewrite compare_refl in H. discriminate.
Qed.

Lemma ltb_key_lt a b : String.ltb a b = true <-> key_lt a b.
Proof.
  unfold String.ltb, key_lt. destruct (String.compare a b); split; congruence.
Qed.

Lemma sorted_tail k v m : sorted ((k, v) :: m) = true -> sorted m = true.
Proof.
  simpl. destruct m as [|[k' v'] m]; [reflexivity|].
  intros H. now apply andb_true_iff in H as [_ H].
Qed.

Lemma sorted_above k v m : sorted ((k, v) :: m) = true -> above k m.
Proof.
  revert k v. induction m as [|[k' v'] m IH]; intros k v H; [constructor|].
  simpl in H. apply andb_true_iff in H as [Hlt Hs].
  apply ltb_key_lt in Hlt. constructor; [exact Hlt|].
  specialize (IH k' v' Hs). unfold above in *.
  eapply Forall_impl; [|exact IH]. intros kv Hkv. simpl in *.
  eapply key_lt_trans; eassumption.
Qed.

Lemma sorted_cons k v m : above k m -> sorted m = true -> sorted ((k, v) :: m) = true.
Proof.
  intros Ha Hs. simpl. destruct m as [|[k' v'] m]; [reflexivity|].
  inversion Ha; subst. simpl in *. apply andb_true_iff. split; [|exact Hs].
  now apply ltb_key_lt.
Qed.

Lemma find_above k m : above k m -> find k m = None.
Proof.
  induction 1 as [|[k' v'] m Hk _ IH]; simpl; [reflexivity|].
  simpl in Hk. now rewrite (key_lt_neq _ _ Hk).
Qed.

Lemma above_insert k k' v m : key_lt k k' -> above k m -> above k (insert k' v m).
Proof.
  intros Hk. induction 1 as [|[k0 v0] m H0 Hm IH]; simpl.
  - repeat constructor. exact Hk.
  - destruct (String.compare k' k0); repeat (constructor; auto).
Qed.

Lemma above_set k k' v m : key_lt k k' -> above k m -> above k (set k' v m).
Proof.
  intros Hk. induction 1 as [|[k0 v0] m H0 Hm IH]; simpl.
  - repeat constructor. exact Hk.
  - destruct (String.compare k' k0); repeat (constructor; auto).
Qed.

Lemma insert_sorted k v m : sorted m = true -> sorted (insert k v m) = true.
Proof.
  induction m as [|[k0 v0] m IH]; intros Hs; [reflexivity|].
  simpl. destruct (String.compare k k0) eqn:Hc.
  - exact Hs.
  - apply sorted_cons; [|exact Hs]. constructor; [exact Hc|].
    eapply Forall_impl; [|exact (sorted_above _ _ _ Hs)].
    intros kv Hkv. eapply key_lt_trans; eassumption.
  - apply sorted_cons.
    + apply above_insert; [now apply compare_Gt | exact (sorted_above _ _ _ Hs)].
    + apply IH. exact (sorted_tail _ _ _ Hs).
Qed.

Lemma set_sorted k v m : sorted m = true -> sorted (set k v m) = true.
Proof.
  induction m as [|[k0 v0] m IH]; intros Hs; [reflexivity|].
  simpl. destruct (String.compare k k0) eqn:Hc.
  - apply compare_Eq in Hc. subst k0.
    apply sorted_cons; [exact (sorted_above _ _ _ Hs) | exact (sorted_tail _ _ _ Hs)].
  - apply sorted_cons; [|exact Hs]. constructor; [exact Hc|].
    eapply Forall_impl; [|exact (sorted_above _ _ _ Hs)].
    intros kv Hkv. eapply key_lt_trans; eassumption.
  - apply sorted_cons.
    + apply above_set; [now apply compare_Gt | exact (sorted_above _ _ _ Hs)].
    + apply IH. exact (sorted_tail _ _ _ Hs).
Qed.

(** [insert] never replaces a value. *)
Lemma find_insert k k' v m :
  sorted m = true ->
  find k (insert k' v m)
  = match find k m with
    | Some x => Some x
    | None => if (k' =? k)%string then Some v else None
    end.
Proof.
  induction m as [|[k0 v0] m IH]; intros Hs; [reflexivity|].
  pose proof (sorted_above _ _ _ Hs) as Ha.
  cbn [insert]. destruct (String.compare k' k0) eqn:Hc.
  - apply compare_Eq in Hc. subst k0. cbn [find].
    destruct (k' =? k)%string eqn:E; [reflexivity|].
    now destruct (find k m).
  - assert (Hab : above k' ((k0, v0) :: m)).
    { constructor; [exact Hc|]. eapply Forall_impl; [|exact Ha].
      intros kv Hkv. eapply key_lt_trans; eassumption. }
    change (find k ((k', v) :: (k0, v0) :: m))
      with (if (k' =? k)%string then Some v else find k ((k0, v0) :: m)).
    destruct (k' =? k)%string eqn:E.
    + apply String.eqb_eq in E. subst k'.
      now rewrite (find_above _ _ Hab).
    + now destruct (find k ((k0, v0) :: m)).
  - cbn [find]. destruct (k0 =? k)%string eqn:E0; [reflexivity|].
    apply IH. exact (sorted_tail _ _ _ Hs).
Qed.

(** [set] always leaves the new value. *)
Lemma find_set k k' v m :
  sorted m = true ->
  find k (set k' v m) = if (k' =? k)%string then Some v else find k m.
Proof.
  induction m as [|[k0 v0] m IH]; intros Hs; [reflexivity|].
  pose proof (sorted_above _ _ _ Hs) as Ha.
  cbn [set]. destruct (String.compare k' k0) eqn:Hc.
  - apply compare_Eq in Hc. subst k0. cbn [find].
    now destruct (k' =? k)%string.
  - reflexivity.
  - cbn [find]. destruct (k0 =? k)%string eqn:E0.
    + apply String.eqb_eq in E0. subst k0.
      apply compare_Gt in Hc. now rewrite (key_lt_neq _ _ Hc).
    + apply IH. exact (sorted_tail _ _ _ Hs).
Qed.

Lemma insert_range_sorted elts m :
  sorted m = true -> sorted (insert_range elts m) = true.
Proof.
  revert m. induction elts as [|[k v] elts IH]; intros m Hs; [exact Hs|].
  apply IH. now apply insert_sorted.
Qed.

Lemma of_list_sorted elts : sorted (of_list elts) = true.
Proof. now apply insert_range_sorted. Qed.

Lemma find_insert_range k elts m :
  sorted m = true ->
  find k (insert_range elts m)
  = match find k m with
    | Some x => Some x
    | None => find k elts
    end.
Proof.
  revert m. induction elts as [|[k' v] elts IH]; intros m Hs.
  - simpl. now destruct (find k m).
  - unfold insert_range in *. cbn [fold_left fst snd].
    rewrite IH by now apply insert_sorted.
    rewrite find_insert by exact Hs. cbn [find].
    destruct (find k m); [reflexivity|].
    now destruct (k' =? k)%string.
Qed.

End StdMapFacts.

Lemma string_leb_trans : Relations_1.Transitive (fun a b => is_true (String.leb a b)).
Proof.
  intros a b c. unfold is_true, String.leb. intros Hab Hbc.
  destruct (String.compare a b) eqn:E1; try discriminate;
    destruct (String.compare b c) eqn:E2; try discriminate.
  - apply StdMapFacts.compare_Eq in E1, E2. subst. now rewrite StdMapFacts.compare_refl.
  - apply StdMapFacts.compare_Eq in E1. subst. now rewrite E2.
  - apply StdMapFacts.compare_Eq in E2. subst. now rewrite E1.
  - now rewrite (StdMapFacts.key_lt_trans _ _ _ E1 E2).
Qed.

Lemma adjacent_distinct_NoDup (l : list string) :
  StronglySorted (fun a b => is_true (String.leb a b)) l ->
  adjacent_distinct l = true -> NoDup l.
Proof.
  induction 1 as [|x l Hs IH Hx]; intros Hd; [constructor|].
  destruct l as [|y l]; [repeat constructor; auto|].
  cbn [adjacent_distinct] in Hd. apply andb_true_iff in Hd as [Hxy Hd].
  apply negb_true_iff, String.eqb_neq in Hxy.
  constructor; [|now apply IH].
  intros [Heq | Hin]; [now apply Hxy|].
  inversion Hs as [|? ? _ Hy]; subst.
  inversion Hx as [|? ? Hxy' _]; subst.
  rewrite Forall_forall in Hy. specialize (Hy _ Hin).
  apply Hxy. now apply String.leb_antisym.
Qed.

Lemma nodupb_NoDup (l : list string) : nodupb l = true -> NoDup l.
Proof.
  unfold nodupb. intros H.
  eapply Permutation.Permutation_NoDup.
  - apply Permutation.Permutation_sym, StringSort.Permuted_sort.
  - apply adjacent_distinct_NoDup; [|exact H].
    apply StringSort.StronglySorted_sort. exact string_leb_trans.
Qed.

Lemma merge_maps_sorted (a b : StdMap.t) :
  StdMap.sorted a = true -> StdMap.sorted (merge_maps a b) = true.
Proof. apply StdMapFacts.insert_range_sorted. Qed.

(** C2, as the program has it: [merge_maps a b] keeps the value of [a] for
    every key of [a] (on a key present in both maps the first source wins),
    and takes the value of [b] for the keys that only [b] has; a key of
    neither map is not in the result. *)
Theorem merge_maps_first_source_wins (a b : StdMap.t) (k : string) :
  StdMap.sorted a = true ->
  StdMap.find k (merge_maps a b)
  = match StdMap.find k a with
    | Some va => Some va
    | None => StdMap.find k b
    end.
Proof. intros Ha. unfold merge_maps. now apply StdMapFacts.find_insert_range. Qed.

Lemma merge_maps_first_source_wins_witness :
  let a := StdMap.of_list [("ACC_TYPE", "float"); ("FLOAT_TYPE", "float16_t")] in
  let b := StdMap.of_list [("D_TYPE", "float"); ("FLOAT_TYPE", "float")] in
  StdMap.find "FLOAT_TYPE" (merge_maps a b) = Some "float16_t" /\
  StdMap.find "D_TYPE" (merge_maps a b) = Some "float" /\
  StdMap.find "ACC_TYPE" (merge_maps a b) = Some "float".
Proof.
  intros a b.
  split; [|split].
  - rewrite (merge_maps_first_source_wins a b "FLOAT_TYPE"); reflexivity.
  - rewrite (merge_maps_first_source_wins a b "D_TYPE"); reflexivity.
  - rewrite (merge_maps_first_source_wins a b "ACC_TYPE"); reflexivity.
Defined.

(** C2 as stated fails: on a key present in both maps the merged map does
    not hold the value of the later source. *)
Lemma merge_maps_later_source_does_not_win :
  let a := StdMap.of_list [("FLOAT_TYPE", "float16_t")] in
  let b := StdMap.of_list [("FLOAT_TYPE", "float")] in
  StdMap.find "FLOAT_TYPE" a = Some "float16_t" /\
  StdMap.find "FLOAT_TYPE" b = Some "float" /\
  StdMap.find "FLOAT_TYPE" (merge_maps a b) <> StdMap.find "FLOAT_TYPE" b.
Proof.
  cbv zeta. repeat split; try reflexivity. vm_compute. discriminate.
Qed.

(** ** The compiler flags of a job *)

Lemma O_not_target_env (name : string) : spv_target_env name <> "-O".
Proof. unfold spv_target_env. destruct (string_contains "_cm2" name); discriminate. Qed.

Lemma In_O_defines (defines : StdMap.t) :
  ~ In "-O" (map (fun define => "-D" ++ fst define ++ "=" ++ snd define) defines).
Proof.
  intros H. apply in_map_iff in H as [[k v] [H _]]. simpl in H. discriminate.
Qed.

Lemma In_flag_defines (flag : string) (defines : StdMap.t) :
  String.prefix "--" flag = true ->
  ~ In flag (map (fun define => "-D" ++ fst define ++ "=" ++ snd define) defines).
Proof.
  intros Hp H. apply in_map_iff in H as [[k v] [H _]]. subst flag. discriminate.
Qed.

Lemma spv_flags_In (cfg : build_config) (name flag : string) (coopmat : bool)
    (defines : StdMap.t) :
  In flag (spv_flags cfg name coopmat defines) <->
  flag = "-fshader-stage=compute" \/ flag = spv_target_env name \/
  flag = spv_opt_level name coopmat \/
  (GGML_VULKAN_SHADER_DEBUG_INFO cfg = true /\ flag = "-g") \/
  In flag (map (fun define => "-D" ++ fst define ++ "=" ++ snd define) defines).
Proof.
  unfold spv_flags. rewrite in_app_iff.
  destruct (GGML_VULKAN_SHADER_DEBUG_INFO cfg); simpl; intuition congruence.
Qed.

(** C5, as the program has it: "-O" is in the flag list of a job exactly
    when its [coopmat] argument (cooperative matrix, level 1) is false and
    its name does not contain "bf16"; a job of the second cooperative-matrix
    level alone keeps "-O". The target environment is vulkan1.3 exactly when
    the name contains "_cm2", and vulkan1.2 otherwise. *)
Theorem spv_flags_optimization_and_target (cfg : build_config)
    (_name : string) (fp16 coopmat coopmat2 f16acc : bool) (defines : StdMap.t) :
  let name := spv_name _name fp16 coopmat coopmat2 f16acc in
  let flags := spv_flags cfg name coopmat defines in
  (In "-O" flags <-> coopmat = false /\ string_contains "bf16" name = false) /\
  (In "--target-env=vulkan1.3" flags <-> string_contains "_cm2" name = true) /\
  (In "--target-env=vulkan1.2" flags <-> string_contains "_cm2" name = false).
Proof.
  intros name flags. unfold flags. split; [|split]; split.
  - intros H. apply spv_flags_In in H.
    destruct H as [H|[H|[H|[[_ H]|H]]]]; try discriminate.
    + symmetry in H. now apply O_not_target_env in H.
    + unfold spv_opt_level in H. destruct coopmat; [discriminate|].
      destruct (string_contains "bf16" name); [discriminate | auto].
    + now apply In_O_defines in H.
  - intros [Hc Hb]. apply spv_flags_In. right. right. left.
    unfold spv_opt_level. now rewrite Hc, Hb.
  - intros H. apply spv_flags_In in H.
    destruct H as [H|[H|[H|[[_ H]|H]]]]; try discriminate.
    + unfold spv_target_env in H.
      destruct (string_contains "_cm2" name); [reflexivity | discriminate].
    + unfold spv_opt_level in H.
      destruct (coopmat || string_contains "bf16" name)%bool; discriminate.
    + now apply In_flag_defines in H.
  - intros H. apply spv_flags_In. right. left. unfold spv_target_env. now rewrite H.
  - intros H. apply spv_flags_In in H.
    destruct H as [H|[H|[H|[[_ H]|H]]]]; try discriminate.
    + unfold spv_target_env in H.
      destruct (string_contains "_cm2" name); [discriminate | reflexivity].
    + unfold spv_opt_level in H.
      destruct (coopmat || string_contains "bf16" name)%bool; discriminate.
    + now apply In_flag_defines in H.
  - intros H. apply spv_flags_In. right. left. unfold spv_target_env. now rewrite H.
Qed.

(** C5 as stated fails on the jobs of the second cooperative-matrix level:
    [conv2d_f32_cm2], recorded by
    [string_to_spv("conv2d_f32", "conv2d_mm.comp", {...}, true, false, true)],
    is a cooperative-matrix job of the catalog and is compiled with "-O". *)
Lemma coopmat2_job_keeps_optimization :
  let name := spv_name "conv2d_f32" true false true false in
  let defines := mk [("A_TYPE", "float"); ("B_TYPE", "float"); ("D_TYPE", "float");
                     ("USE_COLLECTIVES", "1"); ("UNROLL", "[[unroll]]");
                     ("COOPMAT2", "1")] in
  name = "conv2d_f32_cm2" /\
  In name (catalog_names coopmat2_only default_globals) /\
  string_contains "_cm2" name = true /\
  In "-O" (spv_flags coopmat2_only name false defines).
Proof.
  cbv zeta. split; [reflexivity|]. split; [|split; [reflexivity|]].
  - apply memb_In. vm_compute. reflexivity.
  - vm_compute. tauto.
Qed.

(** ** The catalog *)

(** C1: whatever the capabilities the generator is compiled with, and
    whatever the directories, no two jobs recorded by [process_shaders] have
    the same name. *)
Theorem catalog_names_unique (cfg : build_config) (g : globals) :
  NoDup (catalog_names cfg g).
Proof.
  apply nodupb_NoDup.
  destruct cfg as [[] [] [] [] []]; vm_cast_no_check (eq_refl true).
Qed.



Lemma table_symbols_in_catalog (cfg : build_config) (g : globals) :
  (let names := catalog_names cfg g in
   forallb (fun s => memb s names) (table_symbols cfg)) = true.
Proof. destruct cfg as [[] [] [] [] []]; vm_cast_no_check (eq_refl true). Qed.

Lemma In_seq_0_2 (t : nat) : t < 2 -> In t (List.seq 0 2).
Proof. intros H. apply in_seq. lia. Qed.

(** C4: every name written into a lookup table is the name of a job of the
    catalog: the sixteen entries of the tables of each of add, sub, mul,
    div and add_rms, and the three entries of each arr_dmmv table, which
    are written as the names of three mul_mat_vec jobs followed by _data
    (or _len); for a type that has no table with q8_1 nothing is written. *)
Theorem lookup_tables_name_jobs (cfg : build_config) (g : globals) :
  (forall op t0 t1 t2 rte,
     In op binop_ops -> t0 < 2 -> t1 < 2 -> t2 < 2 -> rte < 2 ->
     In (binop_symbol op t0 t1 t2 rte) (catalog_names cfg g)) /\
  (forall btype tname,
     In btype (btypes cfg) -> In tname type_names ->
     if ((btype =? "q8_1") && negb (is_legacy_quant tname))%bool
     then forall acc, put_dmmv_table btype acc tname = acc
     else
       let s0 := "mul_mat_vec_" ++ tname ++ "_" ++ btype ++ "_f32" in
       let s1 := "mul_mat_vec_" ++ tname ++ "_" ++ btype ++ "_f32_subgroup" in
       let s2 := "mul_mat_vec_" ++ tname ++ "_" ++ btype ++ "_f32_subgroup_no_shmem" in
       In s0 (catalog_names cfg g) /\ In s1 (catalog_names cfg g) /\
       In s2 (catalog_names cfg g) /\
       forall hdr src,
         ss_str (fst (put_dmmv_table btype (hdr, src) tname))
         = ss_str hdr
           ++ "extern const void * arr_dmmv_" ++ tname ++ "_" ++ btype
           ++ "_f32_data[3];" ++ nl
           ++ "extern const uint64_t arr_dmmv_" ++ tname ++ "_" ++ btype
           ++ "_f32_len[3];" ++ nl /\
         ss_str (snd (put_dmmv_table btype (hdr, src) tname))
         = ss_str src
           ++ "const void * arr_dmmv_" ++ tname ++ "_" ++ btype ++ "_f32_data[3] = {"
           ++ s0 ++ "_data, " ++ s1 ++ "_data, " ++ s2 ++ "_data};" ++ nl
           ++ "const uint64_t arr_dmmv_" ++ tname ++ "_" ++ btype ++ "_f32_len[3] =  {"
           ++ s0 ++ "_len,  " ++ s1 ++ "_len, " ++ s2 ++ "_len};" ++ nl).
Proof.
  pose proof (table_symbols_in_catalog cfg g) as H. cbv zeta in H.
  rewrite forallb_forall in H. unfold table_symbols in H.
  split.
  - intros op t0 t1 t2 rte Hop H0 H1 H2 Hr.
    apply memb_In, H, in_or_app. left.
    apply in_flat_map. exists op. split; [exact Hop|].
    apply in_flat_map. exists t0. split; [now apply In_seq_0_2|].
    apply in_flat_map. exists t1. split; [now apply In_seq_0_2|].
    apply in_flat_map. exists t2. split; [now apply In_seq_0_2|].
    apply in_map. now apply In_seq_0_2.
  - intros btype tname Hb Ht.
    destruct ((btype =? "q8_1") && negb (is_legacy_quant tname))%bool eqn:Hskip.
    + intros [hdr src]. unfold put_dmmv_table. now rewrite Hskip.
    + assert (Hs : forall s, In s (dmmv_symbols tname btype) -> In s (catalog_names cfg g)).
      { intros s Hs. apply memb_In, H, in_or_app. right.
        apply in_flat_map. exists btype. split; [exact Hb|].
        apply in_flat_map. exists tname. split; [exact Ht|].
        now rewrite Hskip. }
      cbv zeta.
      split; [apply Hs; now left|].
      split; [apply Hs; right; now left|].
      split; [apply Hs; right; right; now left|].
      intros hdr src. unfold put_dmmv_table. rewrite Hskip. cbn [fst snd].
      rewrite !ss_str_put.
      split; rewrite !append_assoc; cbn [append]; reflexivity.
Qed.

(** ** The embedder *)

Lemma ss_str_put_declaration (hdr : sstream) (name : string) (size : nat) :
  ss_str (put_declaration hdr name size)
  = ss_str hdr ++ ss_str (put_declaration make_generic_stringstream name size).
Proof.
  unfold put_declaration. rewrite !ss_str_put, ss_str_empty. cbn [append].
  now rewrite !append_assoc.
Qed.

Lemma ss_str_put_bytes (data : list Byte.byte) (i : nat) (src : sstream) :
  ss_str (put_bytes data i src) = ss_str src ++ bytes_text data i.
Proof.
  revert i src. induction data as [|b data IH]; intros i src; cbn [put_bytes bytes_text].
  - now rewrite append_nil_r.
  - rewrite IH. unfold byte_token.
    destruct ((i + 1) mod 12 =? 0)%nat; rewrite !ss_str_put, !append_assoc; reflexivity.
Qed.

Lemma ss_str_put_definition (src : sstream) (name : string) (data : list Byte.byte) :
  ss_str (put_definition src name data)
  = ss_str src ++ ss_str (put_definition make_generic_stringstream name data).
Proof.
  unfold put_definition. rewrite !ss_str_put, !ss_str_put_bytes, !ss_str_put, ss_str_empty.
  cbn [append]. now rewrite !append_assoc.
Qed.

Lemma concat_empty_cons (x : string) (l : list string) :
  String.concat EmptyString (x :: l) = x ++ String.concat EmptyString l.
Proof. exact (concat_empty_app [x] l). Qed.

(** ** The file system *)

Lemma quiet_refl (w : world) : quiet w w.
Proof. repeat split. Qed.

Lemma quiet_trans (a b c : world) : quiet a b -> quiet b c -> quiet a c.
Proof.
  intros (H1 & H2 & H3 & H4) (K1 & K2 & K3 & K4). repeat split.
  - intros q. now rewrite K1.
  - congruence.
  - congruence.
  - congruence.
Qed.

Lemma quiet_same_files (w w' : world) : quiet w w' -> same_files w w'.
Proof. intros (H1 & H2 & _). now split. Qed.


Lemma same_files_sym (w w' : world) : same_files w w' -> same_files w' w.
Proof. intros [H1 H2]. split; [intros q; now rewrite H1 | now rewrite H2]. Qed.


Lemma same_files_node_at (w w' : world) (p : path) :
  same_files w w' -> node_at w' p = node_at w p.
Proof. intros [H1 H2]. unfold node_at. now rewrite H2, H1. Qed.


Lemma read_binary_file_quiet (p : path) (may_not_exist : bool) (w : world) :
  quiet w (world_of (read_binary_file p may_not_exist w)).
Proof.
  unfold read_binary_file.
  destruct (node_at w p); [| |];
    repeat match goal with
           | |- context [if ?c then _ else _] => destruct c
           end; repeat split.
Qed.

(** What a read gives depends on the place of the path and on the answers
    of the system only, not on whether the file may be missing. *)
Lemma read_binary_file_value (p : path) (may_not_exist : bool) (w : world) :
  match read_binary_file p may_not_exist w with
  | Returned data _ => read_throws w p = false /\ data = file_bytes w p
  | Thrown what w' => read_throws w p = true /\ what = what_length /\ w' = w
  end.
Proof.
  unfold read_throws, file_bytes, read_binary_file.
  destruct (node_at w p); [| |];
    repeat match goal with
           | |- context [if ?c then _ else _] => destruct c
           end; cbn; repeat split.
Qed.

Lemma read_binary_file_ext (p : path) (w w' : world) :
  w_os w' = w_os w -> node_at w' p = node_at w p ->
  file_bytes w' p = file_bytes w p /\ read_throws w' p = read_throws w p.
Proof.
  intros Hos Hn. unfold file_bytes, read_throws, read_binary_file.
  rewrite Hn, Hos.
  destruct (node_at w p); [| |];
    repeat match goal with
           | |- context [if ?c then _ else _] => destruct c
           end; cbn; split; reflexivity.
Qed.

(** A file that the system lets be read is read as it is, and silently. *)
Lemma read_binary_file_plain (p : path) (may_not_exist : bool) (w : world)
    (data : list Byte.byte) :
  node_at w p = File data -> obliging_for w p ->
  read_binary_file p may_not_exist w = Returned data w.
Proof.
  intros Hn (H1 & H2 & H3 & _). unfold read_binary_file. now rewrite Hn, H1, H2, H3.
Qed.

Lemma read_binary_file_absent (p : path) (w : world) :
  node_at w p = Absent -> read_binary_file p true w = Returned [] w.
Proof. intros Hn. unfold read_binary_file. now rewrite Hn. Qed.

(** The nodes after a call of [write_binary_file]. *)
Lemma write_binary_file_nodes (p : path) (content : string) (w : world) :
  exists w', write_binary_file p content w = Returned tt w' /\
    w_os w' = w_os w /\
    (forall q, q <> locate (w_os w) p -> w_node w' q = w_node w q) /\
    (node_at w' p = node_at w p \/ exists data, node_at w' p = File data) /\
    (node_at w p = Directory -> node_at w' p = Directory) /\
    (node_at w p <> Directory -> node_at w' p <> Directory) /\
    exists e, w_trace w' = e :: w_trace w /\ write_attempts [e] = [p].
Proof.
  unfold write_binary_file.
  assert (Hset : forall n, node_at (set_node p n w) p = n).
  { intros n. unfold node_at, set_node. cbn. now rewrite String.eqb_refl. }
  assert (Hoth : forall n q, q <> locate (w_os w) p -> w_node (set_node p n w) q = w_node w q).
  { intros n q Hq. cbn. apply String.eqb_neq in Hq. now rewrite Hq. }
  destruct (node_at w p) eqn:En.
  - destruct (open_write_fails (w_os w) p).
    + eexists. split; [reflexivity|]. cbn. unfold node_at. cbn. fold (node_at w p).
      rewrite En. repeat split; auto. eexists. split; reflexivity.
    + destruct (write_fails (w_os w) p) as [n|].
      * eexists. split; [reflexivity|]. split; [reflexivity|].
        split; [intros q Hq; now apply Hoth|].
        change (node_at (log (ErrWrite p) (set_node p (File (firstn n (list_byte_of_string content))) w)) p)
          with (node_at (set_node p (File (firstn n (list_byte_of_string content))) w) p).
        rewrite Hset. repeat split; try discriminate; eauto.
        eexists. split; reflexivity.
      * eexists. split; [reflexivity|]. split; [reflexivity|].
        split; [intros q Hq; now apply Hoth|].
        change (node_at (log (Written p content) (set_node p (File (list_byte_of_string content)) w)) p)
          with (node_at (set_node p (File (list_byte_of_string content)) w) p).
        rewrite Hset. repeat split; try discriminate; eauto.
        eexists. split; reflexivity.
  - eexists. split; [reflexivity|]. cbn. unfold node_at. cbn. fold (node_at w p).
    rewrite En. repeat split; auto. eexists. split; reflexivity.
  - destruct (open_write_fails (w_os w) p).
    + eexists. split; [reflexivity|]. cbn. unfold node_at. cbn. fold (node_at w p).
      rewrite En. repeat split; auto; try discriminate. eexists. split; reflexivity.
    + destruct (write_fails (w_os w) p) as [n|].
      * eexists. split; [reflexivity|]. split; [reflexivity|].
        split; [intros q Hq; now apply Hoth|].
        change (node_at (log (ErrWrite p) (set_node p (File (firstn n (list_byte_of_string content))) w)) p)
          with (node_at (set_node p (File (firstn n (list_byte_of_string content))) w) p).
        rewrite Hset. repeat split; try discriminate; eauto.
        eexists. split; reflexivity.
      * eexists. split; [reflexivity|]. split; [reflexivity|].
        split; [intros q Hq; now apply Hoth|].
        change (node_at (log (Written p content) (set_node p (File (list_byte_of_string content)) w)) p)
          with (node_at (set_node p (File (list_byte_of_string content)) w) p).
        rewrite Hset. repeat split; try discriminate; eauto.
        eexists. split; reflexivity.
Qed.

(** ** The embedder *)

Lemma embedded_ext (w w' : world) (fnames : list (string * path)) :
  w_os w' = w_os w ->
  (forall job, In job fnames -> node_at w' (snd job) = node_at w (snd job)) ->
  embedded w' fnames = embedded w fnames.
Proof.
  intros Hos H. unfold embedded. induction fnames as [|pair fnames IH]; [reflexivity|].
  cbn [flat_map].
  rewrite IH by (intros job Hj; apply H; now right).
  destruct (read_binary_file_ext (snd pair) w w' Hos (H pair (or_introl eq_refl))) as [-> _].
  reflexivity.
Qed.

Lemma embedded_cons (w : world) (name : string) (p : path)
    (fnames : list (string * path)) :
  embedded w ((name, p) :: fnames)
  = match file_bytes w p with
    | [] => embedded w fnames
    | _ :: _ => (name, file_bytes w p) :: embedded w fnames
    end.
Proof.
  unfold embedded. cbn [flat_map fst snd]. now destruct (file_bytes w p).
Qed.


(** The text of a declaration and of a definition. *)
Lemma put_declaration_text (hdr : sstream) (name : string) (size : nat) :
  ss_str (put_declaration hdr name size)
  = ss_str hdr
    ++ "extern const unsigned char " ++ name ++ "_data[" ++ dec_of_nat size
    ++ "];" ++ nl ++ "const uint64_t " ++ name ++ "_len = " ++ dec_of_nat size
    ++ ";" ++ nl ++ nl.
Proof.
  unfold put_declaration. rewrite !ss_str_put. now rewrite !append_assoc.
Qed.

Lemma put_definition_text (src : sstream) (name : string) (data : list Byte.byte) :
  ss_str (put_definition src name data)
  = ss_str src
    ++ "const unsigned char " ++ name ++ "_data[" ++ dec_of_nat (List.length data)
    ++ "] = {" ++ nl ++ bytes_text data 0 ++ nl ++ "};" ++ nl ++ nl.
Proof.
  unfold put_definition. rewrite !ss_str_put, ss_str_put_bytes, !ss_str_put.
  now rewrite !append_assoc.
Qed.

(** The loop over the jobs in embed mode. *)
Lemma embed_loop_texts (fnames : list (string * path)) (hdr src : sstream) (w : world) :
  match for_each_io (embed_job false) fnames (hdr, src) w with
  | Returned texts w' =>
      (forall job, In job fnames -> read_throws w (snd job) = false) /\
      quiet w w' /\
      ss_str (fst texts)
      = ss_str hdr
        ++ String.concat EmptyString
             (map (fun job : string * list Byte.byte =>
                     "extern const unsigned char " ++ fst job ++ "_data["
                     ++ dec_of_nat (List.length (snd job)) ++ "];" ++ nl
                     ++ "const uint64_t " ++ fst job ++ "_len = "
                     ++ dec_of_nat (List.length (snd job)) ++ ";" ++ nl ++ nl)
                (embedded w fnames)) /\
      ss_str (snd texts)
      = ss_str src
        ++ String.concat EmptyString
             (map (fun job : string * list Byte.byte =>
                     "const unsigned char " ++ fst job ++ "_data["
                     ++ dec_of_nat (List.length (snd job)) ++ "] = {" ++ nl
                     ++ bytes_text (snd job) 0 ++ nl ++ "};" ++ nl ++ nl)
                (embedded w fnames))
  | Thrown what w' =>
      (exists job, In job fnames /\ read_throws w (snd job) = true) /\
      quiet w w' /\ what = what_length
  end.
Proof.
  revert hdr src w. induction fnames as [|[name p] fnames IH]; intros hdr src w.
  - cbn. repeat split; try tauto; now rewrite append_nil_r.
  - cbn [for_each_io]. unfold bind at 1. unfold embed_job at 1. unfold bind at 1.
    pose proof (read_binary_file_value p false w) as Hv.
    pose proof (read_binary_file_quiet p false w) as Hq.
    destruct (read_binary_file p false w) as [data w1|e w1]; cbn [world_of] in Hq.
    + destruct Hv as [Hthr Hdata].
      assert (Hext : forall job, In job fnames ->
                node_at w1 (snd job) = node_at w (snd job)).
      { intros job _. apply same_files_node_at, quiet_same_files, Hq. }
      assert (Hos : w_os w1 = w_os w) by apply Hq.
      assert (Hthrows : forall job, In job fnames ->
                read_throws w1 (snd job) = read_throws w (snd job)).
      { intros job Hj. apply (read_binary_file_ext (snd job) w w1 Hos (Hext job Hj)). }
      rewrite embedded_cons, <- Hdata.
      destruct data as [|b data].
      * unfold ret at 1. specialize (IH hdr src w1).
        rewrite (embedded_ext w w1 fnames Hos Hext) in IH.
        destruct (for_each_io (embed_job false) fnames (hdr, src) w1) as [texts w'|e w'].
        -- destruct IH as (H0 & H1 & H2 & H3). split; [|split; [|split]].
           ++ intros job [<-|Hj]; [exact Hthr | rewrite <- Hthrows by exact Hj; now apply H0].
           ++ now apply (quiet_trans w w1 w').
           ++ exact H2.
           ++ exact H3.
        -- destruct IH as ((job & Hj & Hjt) & H1 & H2). split; [|split].
           ++ exists job. split; [now right | now rewrite <- Hthrows].
           ++ now apply (quiet_trans w w1 w').
           ++ exact H2.
      * unfold ret at 1.
        specialize (IH (put_declaration hdr name (List.length (b :: data)))
                       (put_definition src name (b :: data)) w1).
        rewrite (embedded_ext w w1 fnames Hos Hext) in IH.
        destruct (for_each_io (embed_job false) fnames
                    (put_declaration hdr name (List.length (b :: data)),
                     put_definition src name (b :: data)) w1) as [texts w'|e w'].
        -- destruct IH as (H0 & H1 & H2 & H3). split; [|split; [|split]].
           ++ intros job [<-|Hj]; [exact Hthr | rewrite <- Hthrows by exact Hj; now apply H0].
           ++ now apply (quiet_trans w w1 w').
           ++ rewrite H2, put_declaration_text. cbn [map fst snd].
              rewrite concat_empty_cons. now rewrite !append_assoc.
           ++ rewrite H3, put_definition_text. cbn [map fst snd].
              rewrite concat_empty_cons. now rewrite !append_assoc.
        -- destruct IH as ((job & Hj & Hjt) & H1 & H2). split; [|split].
           ++ exists job. split; [now right | now rewrite <- Hthrows].
           ++ now apply (quiet_trans w w1 w').
           ++ exact H2.
    + destruct Hv as (Hthr & -> & ->). split; [|split].
      * exists (name, p). split; [now left | exact Hthr].
      * apply quiet_refl.
      * reflexivity.
Qed.








(** ** Reading an embedded array back *)

Lemma remove_spaces_app (a b : string) :
  remove_spaces (a ++ b) = remove_spaces a ++ remove_spaces b.
Proof.
  induction a as [|c a IH]; [reflexivity|].
  cbn [append remove_spaces]. destruct (is_space c); cbn [append]; now rewrite IH.
Qed.

Lemma byte_token_plain (b : Byte.byte) :
  remove_spaces (byte_token b) = byte_token b /\ no_comma (byte_token b) = true /\
  parse_hex_byte (byte_token b) = Some b.
Proof. destruct b; vm_compute; repeat split. Qed.

Lemma split_commas_token (tok rest : string) :
  no_comma tok = true ->
  split_commas (tok ++ String "," rest) = tok :: split_commas rest.
Proof.
  induction tok as [|c tok IH]; intros H; [reflexivity|].
  cbn [no_comma] in H. apply andb_true_iff in H as [Hc Ht].
  apply negb_true_iff in Hc. cbn [append split_commas]. rewrite Hc, (IH Ht). reflexivity.
Qed.

Lemma remove_spaces_bytes_text (data : list Byte.byte) (i : nat) :
  remove_spaces (bytes_text data i) = plain_text data.
Proof.
  revert i. induction data as [|b data IH]; intros i; [reflexivity|].
  cbn [bytes_text plain_text].
  rewrite remove_spaces_app, (proj1 (byte_token_plain b)).
  change ("," ++ (if ((i + 1) mod 12 =? 0)%nat then nl else EmptyString)
              ++ bytes_text data (S i))
    with (String "," ((if ((i + 1) mod 12 =? 0)%nat then nl else EmptyString)
                        ++ bytes_text data (S i))).
  cbn [remove_spaces]. change (is_space ",") with false. cbv iota.
  rewrite remove_spaces_app, IH. now destruct ((i + 1) mod 12 =? 0)%nat.
Qed.

Lemma split_commas_plain_text (data : list Byte.byte) :
  split_commas (plain_text data) = (map byte_token data ++ [EmptyString])%list.
Proof.
  induction data as [|b data IH]; [reflexivity|].
  cbn [plain_text map List.app].
  rewrite split_commas_token by apply byte_token_plain. now rewrite IH.
Qed.

Lemma drop_last_empty_cons (f : string) (rest : list string) :
  rest <> [] -> drop_last_empty (f :: rest) = f :: drop_last_empty rest.
Proof. destruct rest; [contradiction|]. now destruct f. Qed.

Lemma drop_last_empty_tokens (toks : list string) :
  drop_last_empty (toks ++ [EmptyString])%list = toks.
Proof.
  induction toks as [|tok toks IH]; [reflexivity|].
  cbn [List.app]. rewrite drop_last_empty_cons, IH; [reflexivity|].
  now destruct toks.
Qed.

Lemma parse_all_tokens (data : list Byte.byte) :
  parse_all (map byte_token data) = Some data.
Proof.
  induction data as [|b data IH]; [reflexivity|].
  cbn [map parse_all]. now rewrite (proj2 (proj2 (byte_token_plain b))), IH.
Qed.

Lemma decode_dec_of_nat (n : nat) : decode_dec (dec_of_nat n) = Some n.
Proof.
  unfold decode_dec, dec_of_nat. rewrite NilEmpty.usu. cbn [option_map].
  now rewrite DecimalNat.Unsigned.of_to.
Qed.

(** C9: the text that [put_definition] writes between the braces of
    [<name>_data] reads back, as a C initializer list of hexadecimal
    literals, to exactly the bytes of the artifact, and the decimal number
    written for [<name>_len] (and as the size of the array) is the number of
    these bytes. *)
Theorem embedded_array_round_trip (name : string) (data : list Byte.byte) :
  definition_text (name, data)
  = "const unsigned char " ++ name ++ "_data[" ++ dec_of_nat (List.length data)
      ++ "] = {" ++ array_body data ++ "};" ++ nl ++ nl /\
  decode_byte_array (array_body data) = Some data /\
  declaration_text (name, data)
  = "extern const unsigned char " ++ name ++ "_data[" ++ dec_of_nat (List.length data)
      ++ "];" ++ nl ++ "const uint64_t " ++ name ++ "_len = "
      ++ dec_of_nat (List.length data) ++ ";" ++ nl ++ nl /\
  decode_dec (dec_of_nat (List.length data)) = Some (List.length data).
Proof.
  split; [|split; [|split]].
  - unfold definition_text, put_definition, array_body. cbn [fst snd].
    rewrite !ss_str_put, !ss_str_put_bytes, !ss_str_put, ss_str_empty.
    cbn [append]. now rewrite !append_assoc.
  - unfold decode_byte_array, array_body.
    rewrite ss_str_put_bytes, ss_str_empty. cbn [append].
    change (nl ++ bytes_text data 0 ++ nl)
      with (String char_newline (bytes_text data 0 ++ nl)).
    cbn [remove_spaces]. change (is_space char_newline) with true. cbv iota.
    rewrite remove_spaces_app, remove_spaces_bytes_text.
    change (remove_spaces nl) with EmptyString. rewrite append_nil_r.
    now rewrite split_commas_plain_text, drop_last_empty_tokens, parse_all_tokens.
  - unfold declaration_text, put_declaration. cbn [fst snd].
    rewrite !ss_str_put, ss_str_empty. cbn [append]. now rewrite !append_assoc.
  - apply decode_dec_of_nat.
Qed.

(** ** The command line *)

Lemma prefix_dashes_first_char (key : string) :
  String.prefix "--" key = true -> first_char key = char_dash.
Proof.
  destruct key as [|c key]; [discriminate|]. cbn [String.prefix first_char].
  destruct (ascii_dec "-" c) as [<-|]; [reflexivity | discriminate].
Qed.

Lemma not_dash_not_key (next key : string) :
  String.prefix "--" key = true ->
  Ascii.eqb (first_char next) char_dash = false -> (next =? key)%string = false.
Proof.
  intros Hk Hn. apply String.eqb_neq. intros ->.
  rewrite (prefix_dashes_first_char _ Hk), Ascii.eqb_refl in Hn. discriminate.
Qed.

Lemma not_option_not_key (arg key : string) :
  String.prefix "--" key = true -> String.prefix "--" arg = false ->
  (arg =? key)%string = false.
Proof. intros Hk Ha. apply String.eqb_neq. intros ->. congruence. Qed.

Lemma option_not_plain_key (arg key : string) :
  String.prefix "--" key = false -> String.prefix "--" arg = true ->
  (arg =? key)%string = false.
Proof. intros Hk Ha. apply String.eqb_neq. intros ->. congruence. Qed.

Lemma parse_args_sorted (rest : list string) (args : StdMap.t) :
  StdMap.sorted args = true -> StdMap.sorted (parse_args rest args) = true.
Proof.
  remember (List.length rest) as n eqn:Hn.
  assert (Hle : List.length rest <= n) by lia. clear Hn.
  revert rest args Hle. induction n as [|n IH]; intros rest args Hle Hs.
  - destruct rest; [exact Hs | cbn in Hle; lia].
  - destruct rest as [|arg rest']; [exact Hs|]. cbn [List.length] in Hle.
    cbn [parse_args]. destruct (String.prefix "--" arg).
    + destruct rest' as [|next rest''].
      * cbn [parse_args]. now apply StdMapFacts.set_sorted.
      * cbn [List.length] in Hle.
        destruct (negb (Ascii.eqb (first_char next) char_dash)).
        -- apply IH; [lia | now apply StdMapFacts.set_sorted].
        -- apply IH; [cbn [List.length]; lia | now apply StdMapFacts.set_sorted].
    + apply IH; [lia | exact Hs].
Qed.

Lemma parse_args_find (rest : list string) (args : StdMap.t) (key : string) :
  StdMap.sorted args = true ->
  StdMap.find key (parse_args rest args)
  = if String.prefix "--" key
    then match last_value key rest with
         | Some v => Some v
         | None => StdMap.find key args
         end
    else StdMap.find key args.
Proof.
  remember (List.length rest) as n eqn:Hn.
  assert (Hle : List.length rest <= n) by lia. clear Hn.
  revert rest args Hle. induction n as [|n IH]; intros rest args Hle Hs.
  - destruct rest; [|cbn in Hle; lia]. cbn. now destruct (String.prefix "--" key).
  - destruct rest as [|arg rest'].
    { cbn. now destruct (String.prefix "--" key). }
    cbn [List.length] in Hle. cbn [parse_args].
    destruct (String.prefix "--" arg) eqn:Harg.
    + destruct rest' as [|next rest''].
      * cbn [parse_args last_value value_after].
        rewrite StdMapFacts.find_set by exact Hs.
        destruct (String.prefix "--" key) eqn:Hkey.
        -- now destruct (arg =? key)%string.
        -- now rewrite (option_not_plain_key _ _ Hkey Harg).
      * cbn [List.length] in Hle.
        destruct (Ascii.eqb (first_char next) char_dash) eqn:Hdash; cbn [negb].
        -- rewrite IH; [|cbn [List.length]; lia | now apply StdMapFacts.set_sorted].
           rewrite StdMapFacts.find_set by exact Hs.
           destruct (String.prefix "--" key) eqn:Hkey.
           ++ change (last_value key (arg :: next :: rest''))
                with (match last_value key (next :: rest'') with
                      | Some v => Some v
                      | None => if (arg =? key)%string
                                then Some (value_after (next :: rest'')) else None
                      end).
              cbn [value_after]. rewrite Hdash.
              destruct (last_value key (next :: rest'')); [reflexivity|].
              now destruct (arg =? key)%string.
           ++ now rewrite (option_not_plain_key _ _ Hkey Harg).
        -- rewrite IH; [|lia | now apply StdMapFacts.set_sorted].
           rewrite StdMapFacts.find_set by exact Hs.
           destruct (String.prefix "--" key) eqn:Hkey.
           ++ cbn [last_value value_after]. rewrite Hdash.
              rewrite (not_dash_not_key _ _ Hkey Hdash).
              destruct (last_value key rest''); [reflexivity|].
              now destruct (arg =? key)%string.
           ++ now rewrite (option_not_plain_key _ _ Hkey Harg).
    + rewrite IH; [|lia | exact Hs].
      destruct (String.prefix "--" key) eqn:Hkey; [|reflexivity].
      cbn [last_value]. rewrite (not_option_not_key _ _ Hkey Harg).
      now destruct (last_value key rest').
Qed.

(** C10, as the program has it: after the loop over the arguments, the map
    holds exactly the tokens that begin with "--"; each holds the value of
    its last occurrence, and the value of an occurrence is the argument that
    follows it when there is one and its first character is not '-', and
    the empty string otherwise. (A token that is not consumed as a value is
    read as a new token: it is an option if it begins with "--", and is
    ignored otherwise.) *)
Theorem parse_args_last_occurrence (rest : list string) (key : string) :
  StdMap.find key (parse_args rest StdMap.empty)
  = if String.prefix "--" key then last_value key rest else None.
Proof.
  rewrite parse_args_find by reflexivity. cbn [StdMap.find StdMap.empty].
  destruct (String.prefix "--" key); [|reflexivity].
  now destruct (last_value key rest).
Qed.

(** C10 as stated fails in its parenthesis: a token that begins with a
    single '-' is not consumed as the value of the option before it, and it
    is not parsed as a new option either. *)
Lemma single_dash_token_is_not_an_option :
  let args := parse_args ["--output-dir"; "-out"; "--no-embed"] StdMap.empty in
  StdMap.find "--output-dir" args = Some EmptyString /\
  StdMap.find "-out" args = None /\
  StdMap.find "--no-embed" args = Some EmptyString.
Proof. cbv zeta. repeat split. Qed.

(** ** The writer *)

Lemma length_list_byte_of_string (s : string) :
  List.length (list_byte_of_string s) = String.length s.
Proof.
  unfold list_byte_of_string. rewrite length_map.
  induction s as [|c s IH]; cbn; [reflexivity | now rewrite IH].
Qed.

Lemma byte_eqb_refl (b : Byte.byte) : Byte.eqb b b = true.
Proof. now destruct b. Qed.

Lemma memcmp_differs_same (l : list Byte.byte) (n : nat) :
  n <= List.length l -> memcmp_differs l l n = false.
Proof.
  revert n. induction l as [|b l IH]; intros n Hn.
  - cbn in Hn. now replace n with 0 by lia.
  - destruct n as [|n]; [reflexivity|]. cbn [memcmp_differs].
    rewrite byte_eqb_refl. cbn [negb orb]. apply IH. cbn in Hn. lia.
Qed.

Lemma content_differs_same (content : string) :
  content_differs (list_byte_of_string content) content = false.
Proof.
  unfold content_differs. rewrite length_list_byte_of_string, Nat.eqb_refl.
  cbn [negb orb]. apply memcmp_differs_same. now rewrite length_list_byte_of_string.
Qed.




Lemma sort_insert_In (x y : string * path) (l : list (string * path)) :
  In y (sort_insert x l) -> y = x \/ In y l.
Proof.
  induction l as [|z l IH]; cbn [sort_insert].
  - intros [H|[]]. now left.
  - destruct (pair_ltb z x); cbn [In]; intuition.
Qed.

Lemma std_sort_In (y : string * path) (l : list (string * path)) :
  In y (std_sort l) -> In y l.
Proof.
  unfold std_sort. induction l as [|x l IH]; cbn [fold_right]; [tauto|].
  intros H. apply sort_insert_In in H. cbn [In]. intuition.
Qed.


Lemma bind_Thrown {A B : Type} (m : io A) (k : A -> io B) (w w' : world) (e : string) :
  bind m k w = Thrown e w' ->
  m w = Thrown e w' \/ exists a w1, m w = Returned a w1 /\ k a w1 = Thrown e w'.
Proof.
  unfold bind. destruct (m w) as [a w1|e1 w1]; [|intros H; injection H as -> ->; now left].
  intros H. right. now exists a, w1.
Qed.

(** The writer compares the whole contents: it calls [write_binary_file]
    exactly when what it read is not the content. *)
Lemma write_file_if_changed_unfold (p : path) (content : string) (w : world) :
  write_file_if_changed p content w
  = match read_binary_file p true w with
    | Returned existing w1 =>
        if content_differs existing content then write_binary_file p content w1
        else Returned tt w1
    | Thrown what w1 => Thrown what w1
    end.
Proof.
  unfold write_file_if_changed, bind, content_differs, ret.
  destruct (read_binary_file p true w) as [existing w1|e w1]; [|reflexivity].
  now destruct (negb _ || _)%bool.
Qed.

(** ** What a call touches *)

Lemma write_attempts_app (a b : list event) :
  write_attempts (List.app a b) = List.app (write_attempts a) (write_attempts b).
Proof. induction a as [|[] a IH]; cbn; now rewrite ?IH. Qed.

Lemma written_paths_app (a b : list event) :
  written_paths (List.app a b) = List.app (written_paths a) (written_paths b).
Proof. induction a as [|[] a IH]; cbn; now rewrite ?IH. Qed.

Lemma touches_refl (files : list path) (w : world) : touches files w w.
Proof.
  split; [reflexivity|]. split; [reflexivity|]. split; [reflexivity|].
  split; [tauto|]. intros x Hx. now left.
Qed.

Lemma touches_trans (files : list path) (a b c : world) :
  touches files a b -> touches files b c -> touches files a c.
Proof.
  intros (O1 & N1 & D1 & A1 & T1) (O2 & N2 & D2 & A2 & T2).
  split; [congruence|]. split; [|split; [|split]].
  - intros q Hq. rewrite N2; [now apply N1|]. rewrite O1. exact Hq.
  - intros q. now rewrite D2, D1.
  - intros q. auto.
  - intros x Hx. destruct (T2 x Hx) as [H|H]; [|now right].
    destruct (T1 x H) as [H'|H']; [now left | now right].
Qed.

Lemma touches_mono (files files' : list path) (w w' : world) :
  (forall x, In x files -> In x files') ->
  touches files w w' -> touches files' w w'.
Proof.
  intros Hi (O & N & D & A & T). split; [exact O|]. split; [|split; [|split]].
  - intros q Hq. apply N. intros t Ht. apply Hq, Hi, Ht.
  - exact D.
  - exact A.
  - intros x Hx. destruct (T x Hx) as [H|H]; [now left | right; now apply Hi].
Qed.

Lemma touches_quiet (files : list path) (w w' : world) :
  quiet w w' -> touches files w w'.
Proof.
  intros (N & O & T & _). split; [exact O|]. split; [|split; [|split]].
  - intros q _. apply N.
  - intros q. now rewrite N.
  - intros q. now rewrite N.
  - intros x Hx. left. now rewrite <- T.
Qed.

Lemma touches_same_files (files : list path) (a b c : world) :
  touches files a b -> same_files b c ->
  write_attempts (w_trace c) = write_attempts (w_trace b) -> touches files a c.
Proof.
  intros Ht [N O] T. apply (touches_trans files a b c Ht).
  split; [exact O|]. split; [|split; [|split]].
  - intros q _. apply N.
  - intros q. now rewrite N.
  - intros q. now rewrite N.
  - intros x Hx. left. now rewrite <- T.
Qed.

Lemma touches_write_binary_file (p : path) (content : string) (w : world) :
  exists w', write_binary_file p content w = Returned tt w' /\ touches [p] w w'.
Proof.
  destruct (write_binary_file_nodes p content w)
    as (w' & E & O & N & Hp & D1 & D2 & e & Ht & He).
  exists w'. split; [exact E|]. split; [exact O|]. split; [|split; [|split]].
  - intros q Hq. apply N. apply Hq. now left.
  - intros q. destruct (String.eqb_spec q (locate (w_os w) p)) as [->|Hq].
    + fold (node_at w p). replace (w_node w' (locate (w_os w) p)) with (node_at w' p)
        by (unfold node_at; now rewrite O).
      split; [|exact D1]. intros H.
      destruct (node_at w p) eqn:En; try reflexivity;
        exfalso; apply D2; [discriminate | exact H | discriminate | exact H].
    + now rewrite N.
  - intros q. destruct (String.eqb_spec q (locate (w_os w) p)) as [->|Hq].
    + fold (node_at w p). replace (w_node w' (locate (w_os w) p)) with (node_at w' p)
        by (unfold node_at; now rewrite O).
      intros Ha. destruct Hp as [Hp|[data Hp]]; rewrite Hp; [exact Ha | discriminate].
    + now rewrite N.
  - intros x Hx. rewrite Ht in Hx. change (e :: w_trace w) with (List.app [e] (w_trace w)) in Hx.
    rewrite write_attempts_app, He in Hx.
    destruct Hx as [<-|Hx]; [right; now left | now left].
Qed.

Lemma touches_write_file_if_changed (p : path) (content : string) (w : world) :
  touches [p] w (world_of (write_file_if_changed p content w)).
Proof.
  rewrite write_file_if_changed_unfold.
  pose proof (read_binary_file_quiet p true w) as Hq.
  destruct (read_binary_file p true w) as [existing w1|e w1]; cbn [world_of] in *.
  - destruct (content_differs existing content).
    + destruct (touches_write_binary_file p content w1) as (w' & E & Ht).
      rewrite E. cbn [world_of].
      apply (touches_trans _ w w1 w'); [now apply touches_quiet | exact Ht].
    + now apply touches_quiet.
  - now apply touches_quiet.
Qed.

(** ** Directories *)

Lemma grows_refl (dirs : list path) (w : world) : grows dirs w w.
Proof. split; [reflexivity|]. split; [now left|]. now split. Qed.

Lemma grows_trans (dirs : list path) (a b c : world) :
  grows dirs a b -> grows dirs b c -> grows dirs a c.
Proof.
  intros (O1 & N1 & T1 & U1) (O2 & N2 & T2 & U2).
  split; [congruence|]. split; [|split; congruence].
  intros q. destruct (N2 q) as [E2|(A2 & D2 & d & Hd & Hq)].
  - rewrite E2. apply N1.
  - destruct (N1 q) as [E1|(A1 & D1 & _)]; [|congruence].
    right. split; [congruence|]. split; [exact D2|].
    exists d. split; [exact Hd|]. now rewrite <- O1.
Qed.

Lemma grows_mono (dirs dirs' : list path) (w w' : world) :
  (forall d, In d dirs -> In d dirs') -> grows dirs w w' -> grows dirs' w w'.
Proof.
  intros Hi (O & N & T & U). split; [exact O|]. split; [|now split].
  intros q. destruct (N q) as [E|(A & D & d & Hd & Hq)]; [now left|].
  right. split; [exact A|]. split; [exact D|]. exists d. split; [now apply Hi | exact Hq].
Qed.

Lemma grows_quiet (dirs : list path) (w w' : world) : quiet w w' -> grows dirs w w'.
Proof.
  intros (N & O & T & U). split; [exact O|]. split; [|now split].
  intros q. left. apply N.
Qed.






Lemma make_directories_grows (chain : list path) (w : world) :
  grows chain w (world_of (make_directories chain w)).
Proof.
  revert w. induction chain as [|q chain IH]; intros w; [apply grows_refl|].
  cbn [make_directories].
  destruct (node_at w q) eqn:En.
  - destruct (mkdir_throws (w_os w) q); [apply grows_refl|].
    apply (grows_trans _ w (log (DirectoryCreated q) (set_node q Directory w))).
    + split; [reflexivity|]. split; [|now split].
      intros x. cbn. destruct (String.eqb_spec x (locate (w_os w) q)) as [->|Hx]; [|now left].
      right. split; [exact En|]. split; [reflexivity|].
      exists q. split; [now left | reflexivity].
    + apply (grows_mono chain); [intros d Hd; now right | apply IH].
  - apply (grows_mono chain); [intros d Hd; now right | apply IH].
  - apply grows_refl.
Qed.





Lemma ensure_directory_grows (p : path) (w : world) :
  grows (directory_chain p) w (world_of (ensure_directory p w)).
Proof.
  unfold ensure_directory, bind, fs_exists.
  destruct (status_throws (w_os w) p); [apply grows_refl|].
  destruct (node_at w p); try apply grows_refl.
  unfold create_directories.
  destruct p; [apply grows_refl | apply make_directories_grows].
Qed.



(** ** The steps of [main] *)

Section MainSteps.

Variable cfg : build_config.
Variable g : globals.
Variable argv : list string.
Variables target_hpp target_cpp target_cmake : path.
Variable no_embed : bool.

Local Abbreviation st :=
  (process_shaders cfg g (state_before_shaders g argv target_cmake)).
Local Abbreviation emit :=
  (emit_outputs cfg g argv target_hpp target_cpp target_cmake no_embed st).
Local Abbreviation second_directory :=
  (negb (path_empty target_cmake) && has_parent_path target_cmake)%bool.
Local Abbreviation run :=
  (main_try cfg g argv target_hpp target_cpp target_cmake no_embed).

(** The [try] block, call by call. *)
Lemma main_try_steps (w : world) :
  run w
  = match fs_exists (input_dir g) w with
    | Thrown what w' => Thrown what w'
    | Returned false w' =>
        Returned EXIT_FAILURE
          (log (Stderr ("Input directory does not exist: "
                        ++ path_out (input_dir g) ++ nl)) w')
    | Returned true w' =>
        match ensure_directory (output_dir g) w' with
        | Thrown what wA => Thrown what wA
        | Returned _ wA =>
            match (if second_directory
                   then ensure_directory (parent_path target_cmake) wA
                   else Returned tt wA) with
            | Thrown what wB => Thrown what wB
            | Returned _ wB =>
                match emit (log (Stdout progress_line) wB) with
                | Thrown what w1 => Thrown what w1
                | Returned _ w1 => Returned EXIT_SUCCESS w1
                end
            end
        end
    end.
Proof.
  unfold main_try. unfold bind at 1.
  destruct (fs_exists (input_dir g) w) as [[|] w'|e w']; [|reflexivity|reflexivity].
  cbn [negb]. unfold bind at 1.
  destruct (ensure_directory (output_dir g) w') as [[] wA|e wA]; [|reflexivity].
  unfold bind at 1.
  destruct second_directory.
  - destruct (ensure_directory (parent_path target_cmake) wA) as [[] wB|e wB];
      [|reflexivity].
    unfold bind at 1, print at 1. unfold bind at 1.
    now destruct (emit (log (Stdout progress_line) wB)).
  - unfold ret at 1. unfold bind at 1, print at 1. unfold bind at 1.
    now destruct (emit (log (Stdout progress_line) wA)).
Qed.

End MainSteps.

(** ** Running the generator a second time *)


Lemma embed_job_quiet (no_embed : bool) (acc : sstream * sstream)
    (pair : string * path) (w : world) :
  quiet w (world_of (embed_job no_embed acc pair w)).
Proof.
  destruct acc as [hdr src], pair as [name p]. unfold embed_job.
  destruct no_embed; [apply quiet_refl|].
  unfold bind. pose proof (read_binary_file_quiet p false w) as H.
  destruct (read_binary_file p false w) as [[|b data] w1|e w1]; exact H.
Qed.

Lemma embed_loop_quiet (no_embed : bool) (fnames : list (string * path))
    (acc : sstream * sstream) (w : world) :
  quiet w (world_of (for_each_io (embed_job no_embed) fnames acc w)).
Proof.
  revert acc w. induction fnames as [|pair fnames IH]; intros acc w; [apply quiet_refl|].
  cbn [for_each_io]. unfold bind.
  pose proof (embed_job_quiet no_embed acc pair w) as H.
  destruct (embed_job no_embed acc pair w) as [acc1 w1|e w1]; cbn [world_of] in H.
  - apply (quiet_trans w w1 _ H). apply IH.
  - exact H.
Qed.



Section EmbedTexts.

Variable cfg : build_config.
Variable g : globals.
Variable target_hpp : path.
Variable no_embed : bool.
Variable fnames : list (string * path).

Lemma embed_texts_quiet (w : world) :
  quiet w (world_of (embed_texts cfg g target_hpp no_embed fnames w)).
Proof.
  unfold embed_texts, bind.
  match goal with
  | |- context [for_each_io ?f ?l ?acc w] =>
      pose proof (embed_loop_quiet no_embed l acc w) as H;
      destruct (for_each_io f l acc w) as [texts w1|e w1]
  end; exact H.
Qed.


End EmbedTexts.

(** Once a file that the system lets be read and written has gone through
    the writer, the writer leaves it alone. *)
Lemma write_file_if_changed_settles (p : path) (content : string) (w w' : world) :
  obliging_for w p -> node_at w p <> Directory ->
  write_file_if_changed p content w = Returned tt w' ->
  forall v, w_os v = w_os w -> node_at v p = node_at w' p ->
            write_file_if_changed p content v = Returned tt v.
Proof.
  intros Hob Hd H v Hos Hn.
  assert (Hobv : obliging_for v p) by (unfold obliging_for in *; now rewrite Hos).
  assert (Hsame : forall data, node_at v p = File data ->
            content_differs data content = false ->
            write_file_if_changed p content v = Returned tt v).
  { intros data Hv Hc. rewrite write_file_if_changed_unfold.
    rewrite (read_binary_file_plain p true v data Hv Hobv). now rewrite Hc. }
  assert (Hwrite : forall w1, w_os w1 = w_os w -> node_at w1 p <> Directory ->
            write_binary_file p content w1 = Returned tt w' ->
            node_at w' p = File (list_byte_of_string content)).
  { intros w1 Hos1 Hd1. unfold write_binary_file.
    destruct Hob as (_ & _ & _ & Ho & Hw). rewrite Hos1, Ho, Hw.
    destruct (node_at w1 p); try contradiction; intros [= <-];
      unfold node_at, log, set_node; cbn; now rewrite String.eqb_refl. }
  rewrite write_file_if_changed_unfold in H.
  destruct (node_at w p) as [| |data] eqn:En; [| contradiction |].
  - rewrite (read_binary_file_absent p w En) in H.
    destruct (content_differs [] content) eqn:Hc.
    + rewrite (Hwrite w eq_refl ltac:(rewrite En; discriminate) H) in Hn.
      apply (Hsame _ Hn). apply content_differs_same.
    + injection H as <-. rewrite write_file_if_changed_unfold.
      rewrite En in Hn. rewrite (read_binary_file_absent p v Hn). now rewrite Hc.
  - rewrite (read_binary_file_plain p true w data En Hob) in H.
    destruct (content_differs data content) eqn:Hc.
    + rewrite (Hwrite w eq_refl ltac:(rewrite En; discriminate) H) in Hn.
      apply (Hsame _ Hn). apply content_differs_same.
    + injection H as <-. rewrite En in Hn. exact (Hsame _ Hn Hc).
Qed.




Lemma touches_os (files : list path) (w w' : world) :
  touches files w w' -> w_os w' = w_os w.
Proof. now intros (O & _). Qed.

Section SecondRun.

Variable cfg : build_config.
Variable g : globals.
Variable argv : list string.
Variables target_hpp target_cpp target_cmake : path.

Local Abbreviation W ne st := (write_embed_files cfg g target_hpp target_cpp ne st).
Local Abbreviation E ne st :=
  (emit_outputs cfg g argv target_hpp target_cpp target_cmake ne st).

Lemma write_embed_files_touches (no_embed : bool) (st : gen_state) (w : world) :
  touches [target_hpp; target_cpp] w (world_of (W no_embed st w)).
Proof.
  unfold write_embed_files, bind.
  pose proof (embed_texts_quiet cfg g target_hpp no_embed
                (vec_items (shader_fnames st)) w) as Hq.
  destruct (embed_texts cfg g target_hpp no_embed (vec_items (shader_fnames st)) w)
    as [texts wE|e wE]; cbn [world_of] in Hq; [|now apply touches_quiet].
  apply (touches_trans _ w wE); [now apply touches_quiet|].
  pose proof (touches_write_file_if_changed target_hpp (ss_str (fst texts)) wE) as Hh.
  apply (touches_mono [target_hpp] [target_hpp; target_cpp]) in Hh;
    [|intros x [<-|[]]; now left].
  destruct (write_file_if_changed target_hpp (ss_str (fst texts)) wE) as [[] wH|e wH];
    cbn [world_of] in Hh; [|exact Hh].
  apply (touches_trans _ wE wH _ Hh).
  apply (touches_mono [target_cpp]); [intros x [<-|[]]; right; now left|].
  destruct no_embed.
  - apply touches_write_file_if_changed.
  - destruct (touches_write_binary_file target_cpp (ss_str (snd texts)) wH)
      as (w' & Ew & Ht).
    now rewrite Ew.
Qed.

Lemma emit_outputs_touches (no_embed : bool) (st : gen_state) (w : world) :
  touches (output_files target_hpp target_cpp target_cmake no_embed) w
    (world_of (E no_embed st w)).
Proof.
  unfold emit_outputs, output_files, cmake_write.
  destruct (path_empty target_cmake); cbn [orb negb].
  - rewrite app_nil_r. unfold bind.
    pose proof (write_embed_files_touches no_embed st w) as H.
    now destruct (W no_embed st w) as [[] w1|e w1].
  - destruct no_embed.
    + unfold bind.
      pose proof (write_embed_files_touches true st w) as H.
      apply (touches_mono _ (List.app [target_hpp; target_cpp] [target_cmake])) in H;
        [|intros x Hx; apply in_or_app; now left].
      destruct (W true st w) as [[] w1|e w1]; cbn [world_of] in H; [|exact H].
      apply (touches_trans _ w w1 _ H).
      apply (touches_mono [target_cmake]); [intros x Hx; apply in_or_app; now right|].
      apply touches_write_file_if_changed.
    + unfold bind, ret. apply touches_write_file_if_changed.
Qed.



End SecondRun.


Lemma fs_exists_Returned (p : path) (w w' : world) (found : bool) :
  fs_exists p w = Returned found w' ->
  w' = w /\ status_throws (w_os w) p = false /\
  (found = true <-> node_at w p <> Absent).
Proof.
  unfold fs_exists. destruct (status_throws (w_os w) p); [discriminate|].
  intros [= <- <-]. split; [reflexivity|]. split; [reflexivity|].
  destruct (node_at w p); split; intros H; try discriminate; try reflexivity;
    contradiction.
Qed.






(** ** The exit code *)

(** C8, as the program has it: the exit code is 0 or 1. With --help the
    usage is printed and the code is 0, whatever the rest of the command
    line. Without it, --no-embed with no (or an empty) --target-cmake gives
    1, and so does an input directory that does not exist; in both cases
    the only effect of the run is one line on the error stream: no
    directory is made and no job is generated. An exception that leaves the
    [try] block gives 1, after a line with its message. The code is 0
    exactly when --help is given, or the options are compatible, the input
    directory exists, the directories are there or can be made, and writing
    the outputs does not throw. *)
Theorem main_exit_codes (cfg : build_config) (argv : list string) (w : world) :
  let o := read_options argv in
  let r := main cfg argv w in
  let second := (negb (path_empty (opt_target_cmake o))
                 && has_parent_path (opt_target_cmake o))%bool in
  let st := process_shaders cfg (opt_globals o)
              (state_before_shaders (opt_globals o) argv (opt_target_cmake o)) in
  EXIT_SUCCESS = 0%Z /\ EXIT_FAILURE <> 0%Z /\
  (opt_help o = true -> r = (EXIT_SUCCESS, log (Stdout (usage ++ nl)) w)) /\
  (opt_help o = false ->
   (opt_no_embed o && path_empty (opt_target_cmake o))%bool = true ->
   r = (EXIT_FAILURE,
        log (Stderr ("--no-embed requires --target-cmake to be specified" ++ nl)) w)) /\
  (opt_help o = false ->
   fs_exists (input_dir (opt_globals o)) w = Returned false w ->
   fst r = EXIT_FAILURE /\ exists text, snd r = log (Stderr text) w) /\
  (opt_help o = false ->
   (opt_no_embed o && path_empty (opt_target_cmake o))%bool = false ->
   forall what w',
     main_try cfg (opt_globals o) argv (opt_target_hpp o) (opt_target_cpp o)
       (opt_target_cmake o) (opt_no_embed o) w = Thrown what w' ->
     r = (EXIT_FAILURE, log (Stderr ("Error: " ++ what ++ nl)) w')) /\
  (fst r = EXIT_SUCCESS <->
   opt_help o = true \/
   ((opt_no_embed o && path_empty (opt_target_cmake o))%bool = false /\
    fs_exists (input_dir (opt_globals o)) w = Returned true w /\
    exists wA, ensure_directory (output_dir (opt_globals o)) w = Returned tt wA /\
    exists wB, (if second
                then ensure_directory (parent_path (opt_target_cmake o)) wA
                else Returned tt wA) = Returned tt wB /\
    exists w', emit_outputs cfg (opt_globals o) argv (opt_target_hpp o)
                 (opt_target_cpp o) (opt_target_cmake o) (opt_no_embed o) st
                 (log (Stdout progress_line) wB) = Returned tt w')).
Proof.
  intros o r second st. subst r. unfold main. fold o.
  split; [reflexivity|]. split; [discriminate|].
  destruct (opt_help o).
  { repeat split; try discriminate; auto. }
  destruct (opt_no_embed o && path_empty (opt_target_cmake o))%bool.
  { repeat split; try discriminate; auto.
    - eexists. reflexivity.
    - intros [H|[H _]]; discriminate. }
  split; [discriminate|]. split; [discriminate|].
  split; [|split].
  - intros _ H. rewrite main_try_steps, H. cbn [fst snd]. split; [reflexivity|].
    eexists. reflexivity.
  - intros _ _ what w' H. now rewrite H.
  - rewrite main_try_steps. fold st. fold second.
    assert (Hw : forall b w', fs_exists (input_dir (opt_globals o)) w = Returned b w' ->
                   w' = w).
    { unfold fs_exists. destruct (status_throws _ _); [discriminate|]. now intros b w' [= _ <-]. }
    destruct (fs_exists (input_dir (opt_globals o)) w) as [[|] w0|e w0] eqn:F.
    + pose proof (Hw _ _ eq_refl). subst w0.
      destruct (ensure_directory (output_dir (opt_globals o)) w) as [[] wA|e wA].
      * destruct (if second
                  then ensure_directory (parent_path (opt_target_cmake o)) wA
                  else Returned tt wA) as [[] wB|e wB] eqn:E2.
        -- destruct (emit_outputs cfg (opt_globals o) argv (opt_target_hpp o)
                       (opt_target_cpp o) (opt_target_cmake o) (opt_no_embed o) st
                       (log (Stdout progress_line) wB)) as [[] w1|e w1] eqn:E3.
           ++ cbn [fst]. split; [|reflexivity]. intros _. right.
              split; [reflexivity|]. split; [reflexivity|].
              exists wA. split; [reflexivity|]. exists wB. split; [exact E2|].
              exists w1. exact E3.
           ++ cbn [fst]. split; [discriminate|].
              intros [H|(_ & _ & wA' & [= <-] & wB' & H2 & w' & H)]; [discriminate|].
              rewrite E2 in H2. injection H2 as <-. rewrite E3 in H. discriminate.
        -- cbn [fst]. split; [discriminate|].
           intros [H|(_ & _ & wA' & [= <-] & wB' & H & _)]; [discriminate|].
           rewrite E2 in H. discriminate.
      * cbn [fst]. split; [discriminate|].
        intros [H|(_ & _ & wA' & H & _)]; discriminate.
    + cbn [fst]. split; [discriminate|].
      intros [H|(_ & H & _)]; discriminate.
    + cbn [fst]. split; [discriminate|].
      intros [H|(_ & H & _)]; discriminate.
Qed.

(** C8 as stated fails: with --help the exit code is 0 although the flags
    are incompatible and the input directory does not exist. *)
Lemma help_exits_zero_despite_errors :
  let argv := ["vulkan-shaders-gen"; "--no-embed"; "--help"] in
  let o := read_options argv in
  opt_no_embed o = true /\ path_empty (opt_target_cmake o) = true /\
  fs_exists (input_dir (opt_globals o)) empty_world = Returned false empty_world /\
  fst (main no_capability argv empty_world) = EXIT_SUCCESS.
Proof. vm_compute. repeat split. Qed.

(** * Further properties *)

(** ** More on strings *)

Lemma length_append (a b : string) :
  String.length (a ++ b) = String.length a + String.length b.
Proof. induction a as [|c a IH]; cbn; [reflexivity | now rewrite IH]. Qed.

Lemma prefix_append (pre s : string) :
  String.prefix pre s = true <-> exists rest, s = pre ++ rest.
Proof.
  revert s. induction pre as [|c pre IH]; intros s.
  - split; [intros _; now exists s | intros _; now destruct s].
  - destruct s as [|d s]; cbn [String.prefix].
    + split; [discriminate | intros [rest H]; discriminate].
    + destruct (ascii_dec c d) as [->|Hne].
      * rewrite IH. split; intros [rest H]; exists rest.
        -- now rewrite H.
        -- now inversion H.
      * split; [discriminate|]. intros [rest H]. inversion H. congruence.
Qed.

(** X1: [string_starts_with str prefix] holds exactly when [str] is
    [prefix] followed by something. *)
Theorem string_starts_with_spec (str pre : string) :
  string_starts_with str pre = true <-> exists rest, str = pre ++ rest.
Proof.
  unfold string_starts_with.
  destruct (String.length str <? String.length pre)%nat eqn:E.
  - apply Nat.ltb_lt in E. split; [discriminate|].
    intros [rest ->]. rewrite length_append in E. lia.
  - apply prefix_append.
Qed.

Lemma string_rev_append (a b : string) :
  string_rev (a ++ b) = string_rev b ++ string_rev a.
Proof.
  induction a as [|c a IH]; cbn [append].
  - now rewrite append_nil_r.
  - now rewrite !string_rev_cons, IH, append_assoc.
Qed.

Lemma string_rev_involutive (s : string) : string_rev (string_rev s) = s.
Proof.
  induction s as [|c s IH]; [reflexivity|].
  now rewrite string_rev_cons, string_rev_append, IH.
Qed.

Lemma string_rev_length (s : string) : String.length (string_rev s) = String.length s.
Proof.
  induction s as [|c s IH]; [reflexivity|].
  rewrite string_rev_cons, length_append, IH. cbn. lia.
Qed.

(** X2: [string_ends_with str suffix] holds exactly when [str] is something
    followed by [suffix]. *)
Theorem string_ends_with_spec (str suffix : string) :
  string_ends_with str suffix = true <-> exists front, str = front ++ suffix.
Proof.
  unfold string_ends_with.
  destruct (String.length str <? String.length suffix)%nat eqn:E.
  - apply Nat.ltb_lt in E. split; [discriminate|].
    intros [front ->]. rewrite length_append in E. lia.
  - rewrite prefix_append. split.
    + intros [rest H]. exists (string_rev rest).
      rewrite <- (string_rev_involutive str), H, string_rev_append.
      now rewrite string_rev_involutive.
    + intros [front ->]. exists (string_rev front). apply string_rev_append.
Qed.

Lemma toupper_idempotent (c : ascii) : toupper (toupper c) = toupper c.
Proof. destruct c as [[] [] [] [] [] [] [] []]; reflexivity. Qed.

(** X3: [to_uppercase] keeps the length of its argument and changes
    nothing in a string that is already in upper case. *)
Theorem to_uppercase_idempotent (input : string) :
  to_uppercase (to_uppercase input) = to_uppercase input /\
  String.length (to_uppercase input) = String.length input.
Proof.
  induction input as [|c s [IH1 IH2]]; [split; reflexivity|].
  cbn [to_uppercase String.length]. now rewrite toupper_idempotent, IH1, IH2.
Qed.

(** X4: a legacy quant is a quantized type, and it is neither a k-quant
    nor an iq-quant. *)
Theorem legacy_quant_kind (type_name : string) :
  is_legacy_quant type_name = true ->
  is_quantized_type type_name = true /\ is_k_quant type_name = false /\
  is_iq_quant type_name = false.
Proof.
  unfold is_legacy_quant. intros H.
  repeat (apply orb_true_iff in H as [H|H]);
    apply String.eqb_eq in H; subst type_name; repeat split.
Qed.

Lemma legacy_quant_kind_witness :
  is_quantized_type "q5_1" = true /\ is_k_quant "q5_1" = false /\
  is_iq_quant "q5_1" = false.
Proof. apply (legacy_quant_kind "q5_1"). reflexivity. Defined.

(** X5: what [cmake_escape] and the output of a path write between two
    quotes is read back unchanged, and the reading stops at the closing
    quote, whatever quotes and backslashes the text has. *)
Theorem escape_quotes_round_trip (s rest : string) :
  read_quoted (escape_quotes s ++ String char_quote rest) = Some (s, rest).
Proof.
  induction s as [|c s IH]; [reflexivity|].
  cbn [escape_quotes].
  destruct (Ascii.eqb c char_quote) eqn:Eq; cbn [orb].
  - apply Ascii.eqb_eq in Eq. subst c.
    change (read_quoted (escape_quotes s ++ String char_quote rest) = Some (s, rest)) in IH.
    cbn [append]. unfold read_quoted at 1. fold read_quoted.
    change (Ascii.eqb char_backslash char_quote) with false.
    change (Ascii.eqb char_backslash char_backslash) with true.
    cbv iota. now rewrite IH.
  - destruct (Ascii.eqb c char_backslash) eqn:Eb.
    + apply Ascii.eqb_eq in Eb. subst c.
      cbn [append]. unfold read_quoted at 1. fold read_quoted.
      change (Ascii.eqb char_backslash char_quote) with false.
      change (Ascii.eqb char_backslash char_backslash) with true.
      cbv iota. now rewrite IH.
    + cbn [append]. unfold read_quoted at 1. fold read_quoted.
      rewrite Eq, Eb. now rewrite IH.
Qed.

(** ** More on the writer *)

(** X9: the writer is idempotent on a file that the system lets be read
    and written: called a second time with the same content, right after
    a first call that returned, it returns the world as it found it, with
    no call of [write_binary_file]. *)
Theorem write_file_if_changed_idempotent (p : path) (content : string) (w w' : world) :
  obliging_for w p -> node_at w p <> Directory ->
  write_file_if_changed p content w = Returned tt w' ->
  write_file_if_changed p content w' = Returned tt w'.
Proof.
  intros Hob Hd H.
  apply (write_file_if_changed_settles p content w w' Hob Hd H); [|reflexivity].
  pose proof (touches_write_file_if_changed p content w) as T. rewrite H in T.
  exact (touches_os _ _ _ T).
Qed.

Lemma write_file_if_changed_idempotent_witness :
  let w' := log (Written "/tmp/acc_f32.spv" "new")
              (set_node "/tmp/acc_f32.spv" (File (list_byte_of_string "new")) build_tree) in
  write_file_if_changed "/tmp/acc_f32.spv" "new" w' = Returned tt w'.
Proof.
  apply (write_file_if_changed_idempotent "/tmp/acc_f32.spv" "new" build_tree).
  - repeat split.
  - discriminate.
  - reflexivity.
Defined.

(** ** More on the flags of a job *)

Lemma string_contains_refl (sub rest : string) : string_contains sub (sub ++ rest) = true.
Proof.
  assert (H : String.prefix sub (sub ++ rest) = true)
    by (apply prefix_append; now exists rest).
  destruct sub; cbn [append string_contains] in *; [now destruct rest | now rewrite H].
Qed.

Lemma string_contains_append (sub a b : string) :
  string_contains sub b = true -> string_contains sub (a ++ b) = true.
Proof.
  intros H. induction a as [|c a IH]; [exact H|].
  cbn [append string_contains]. rewrite IH. apply orb_true_r.
Qed.

(** X10: a job recorded with [coopmat2] set has "_cm2" in its name and is
    compiled for vulkan1.3; a job recorded with [coopmat] set has "_cm1" in
    its name and is compiled without "-O"; whatever the base name. *)
Theorem coopmat_arguments_fix_the_flags (cfg : build_config) (_name : string)
    (fp16 coopmat coopmat2 f16acc : bool) (defines : StdMap.t) :
  let name := spv_name _name fp16 coopmat coopmat2 f16acc in
  (coopmat2 = true ->
   string_contains "_cm2" name = true /\
   In "--target-env=vulkan1.3" (spv_flags cfg name coopmat defines)) /\
  (coopmat = true ->
   string_contains "_cm1" name = true /\
   ~ In "-O" (spv_flags cfg name coopmat defines)).
Proof.
  intros name. split.
  - intros ->.
    assert (H : string_contains "_cm2" name = true).
    { unfold name, spv_name. do 3 apply string_contains_append.
      exact (string_contains_refl "_cm2" EmptyString). }
    split; [exact H|]. apply spv_flags_In. right. left.
    unfold spv_target_env. now rewrite H.
  - intros ->. split.
    + unfold name, spv_name. do 2 apply string_contains_append.
      apply string_contains_refl.
    + intros H. apply spv_flags_In in H.
      destruct H as [H|[H|[H|[[_ H]|H]]]]; try discriminate.
      * symmetry in H. now apply O_not_target_env in H.
      * now apply In_O_defines in H.
Qed.

(** X11: "-g" is in the flag list of a job exactly when the generator is
    built with GGML_VULKAN_SHADER_DEBUG_INFO; the empty string is in it
    exactly when the optimization is disabled (it stands where "-O" would);
    every define [k = v] of the job gives the flag "-Dk=v"; and the list has
    three flags, plus "-g", plus one per define. *)
Theorem spv_flags_contents (cfg : build_config) (name : string) (coopmat : bool)
    (defines : StdMap.t) :
  let flags := spv_flags cfg name coopmat defines in
  (In "-g" flags <-> GGML_VULKAN_SHADER_DEBUG_INFO cfg = true) /\
  (In EmptyString flags <-> (coopmat || string_contains "bf16" name)%bool = true) /\
  (forall k v, In (k, v) defines -> In ("-D" ++ k ++ "=" ++ v) flags) /\
  List.length flags
  = 3 + (if GGML_VULKAN_SHADER_DEBUG_INFO cfg then 1 else 0) + List.length defines.
Proof.
  intros flags. unfold flags. split; [|split; [|split]].
  - rewrite spv_flags_In. split.
    + intros [H|[H|[H|[[H _]|H]]]]; try discriminate; try exact H.
      * unfold spv_target_env in H. destruct (string_contains "_cm2" name); discriminate.
      * unfold spv_opt_level in H.
        destruct (coopmat || string_contains "bf16" name)%bool; discriminate.
      * apply in_map_iff in H as [[k v] [H _]]. discriminate.
    + intros H. right. right. right. left. now split.
  - rewrite spv_flags_In. split.
    + intros [H|[H|[H|[[_ H]|H]]]]; try discriminate.
      * unfold spv_target_env in H. destruct (string_contains "_cm2" name); discriminate.
      * unfold spv_opt_level in H.
        destruct (coopmat || string_contains "bf16" name)%bool; [reflexivity | discriminate].
      * apply in_map_iff in H as [[k v] [H _]]. discriminate.
    + intros H. right. right. left. unfold spv_opt_level. now rewrite H.
  - intros k v H. apply spv_flags_In. do 4 right.
    apply in_map_iff. exists (k, v). now split.
  - unfold spv_flags.
    destruct (GGML_VULKAN_SHADER_DEBUG_INFO cfg);
      rewrite !length_app, length_map; cbn; lia.
Qed.

(** ** What every recorded job keeps *)

Section Keeps.

Variable I : gen_state -> Prop.

Lemma keeps_skip : keeps I skip.
Proof. intros st H. exact H. Qed.

Lemma keeps_seq (body : list action) : Forall (keeps I) body -> keeps I (seq body).
Proof.
  unfold seq. induction 1 as [|a body Ha _ IH]; intros st H; [exact H|].
  cbn [fold_left]. apply IH, Ha, H.
Qed.

Lemma keeps_for_each {A : Type} (range : list A) (body : A -> action) :
  (forall x, keeps I (body x)) -> keeps I (for_each range body).
Proof.
  intros H. unfold for_each. apply keeps_seq.
  apply Forall_forall. intros a Ha. apply in_map_iff in Ha as [x [<- _]]. apply H.
Qed.

Lemma keeps_when (c : bool) (body : action) : keeps I body -> keeps I (when c body).
Proof. intros H. destruct c; [exact H | apply keeps_skip]. Qed.

Lemma keeps_if (c : bool) (a b : action) :
  keeps I a -> keeps I b -> keeps I (if c then a else b).
Proof. intros Ha Hb. now destruct c. Qed.

End Keeps.

Lemma keeps_string_to_spv (cfg : build_config) (g : globals) (_name in_fname : string)
    (defines : StdMap.t) (fp16 coopmat coopmat2 f16acc : bool) :
  keeps (catalog_consistent g)
    (string_to_spv cfg g _name in_fname defines fp16 coopmat coopmat2 f16acc).
Proof.
  intros st [H1 H2]. unfold string_to_spv, add_build_command, emplace_back. cbn.
  split; [now rewrite H1 | constructor; [reflexivity | exact H2]].
Qed.

Lemma keeps_string_to_spv0 (cfg : build_config) (g : globals) (_name in_fname : string)
    (defines : StdMap.t) :
  keeps (catalog_consistent g) (string_to_spv0 cfg g _name in_fname defines).
Proof. apply keeps_string_to_spv. Qed.

Ltac keeps_list :=
  lazymatch goal with
  | |- Forall _ (_ :: _) => apply Forall_cons; [ | keeps_list ]
  | |- Forall _ [] => apply Forall_nil
  end.

Ltac keeps_step :=
  lazymatch goal with
  | |- keeps _ skip => apply keeps_skip
  | |- keeps _ (string_to_spv _ _ _ _ _ _ _ _ _) => apply keeps_string_to_spv
  | |- keeps _ (string_to_spv0 _ _ _ _ _) => apply keeps_string_to_spv0
  | |- keeps _ (when _ _) => apply keeps_when
  | |- keeps _ (if _ then _ else _) => apply keeps_if
  | |- keeps _ (seq _) => apply keeps_seq; keeps_list
  | |- keeps _ (for_each _ _) => apply keeps_for_each; intro; cbv beta zeta
  | |- keeps _ (let _ := _ in _) => cbv zeta
  end.

Lemma keeps_matmul_shaders (cfg : build_config) (g : globals) (fp16 : bool)
    (matmul_id_type : MatMulIdType) (coopmat coopmat2 f16acc : bool) :
  keeps (catalog_consistent g)
    (matmul_shaders cfg g fp16 matmul_id_type coopmat coopmat2 f16acc).
Proof.
  unfold matmul_shaders. destruct matmul_id_type; cbv beta zeta iota; repeat keeps_step.
Qed.

Lemma keeps_process_shaders (cfg : build_config) (g : globals) :
  keeps (catalog_consistent g) (process_shaders cfg g).
Proof.
  unfold process_shaders. cbv beta zeta.
  repeat lazymatch goal with
         | |- keeps _ (matmul_shaders _ _ _ _ _ _ _) => apply keeps_matmul_shaders
         | _ => keeps_step
         end.
Qed.

(** X12: after [process_shaders] the outputs of the build rules are the
    output paths of the catalog, rule by rule in the order of the jobs, and
    the path of every job is [output_dir / (name + ".spv")], whatever the
    capabilities and the directories. *)
Theorem build_rules_match_catalog (cfg : build_config) (g : globals) :
  vec_items (cmake_out_filepaths (process_shaders cfg g initial_state))
  = map snd (catalog cfg g) /\
  (forall name p, In (name, p) (catalog cfg g) -> p = job_path g name).
Proof.
  assert (H0 : catalog_consistent g initial_state) by (split; [reflexivity | constructor]).
  pose proof (keeps_process_shaders cfg g initial_state H0) as [H1 H2].
  unfold catalog, vec_items.
  set (st := process_shaders cfg g initial_state) in *. clearbody st.
  split.
  - rewrite H1. symmetry. apply map_rev.
  - intros name p Hin. apply in_rev in Hin.
    rewrite Forall_forall in H2. exact (H2 _ Hin).
Qed.

Lemma keeps_jobs_skip : keeps_jobs skip.
Proof. intros st st' H. exact H. Qed.

Lemma keeps_jobs_seq (body : list action) : Forall keeps_jobs body -> keeps_jobs (seq body).
Proof.
  unfold seq. induction 1 as [|a body Ha _ IH]; intros st st' H; [exact H|].
  cbn [fold_left]. apply IH, Ha, H.
Qed.

Lemma keeps_jobs_for_each {A : Type} (range : list A) (body : A -> action) :
  (forall x, keeps_jobs (body x)) -> keeps_jobs (for_each range body).
Proof.
  intros H. unfold for_each. apply keeps_jobs_seq.
  apply Forall_forall. intros a Ha. apply in_map_iff in Ha as [x [<- _]]. apply H.
Qed.

Lemma keeps_jobs_when (c : bool) (body : action) : keeps_jobs body -> keeps_jobs (when c body).
Proof. intros H. destruct c; [exact H | apply keeps_jobs_skip]. Qed.

Lemma keeps_jobs_if (c : bool) (a b : action) :
  keeps_jobs a -> keeps_jobs b -> keeps_jobs (if c then a else b).
Proof. intros Ha Hb. now destruct c. Qed.

Lemma keeps_jobs_string_to_spv (cfg : build_config) (g : globals)
    (_name in_fname : string) (defines : StdMap.t) (fp16 coopmat coopmat2 f16acc : bool) :
  keeps_jobs (string_to_spv cfg g _name in_fname defines fp16 coopmat coopmat2 f16acc).
Proof.
  intros st st' [H1 H2].
  unfold same_jobs, string_to_spv, add_build_command, emplace_back. cbn.
  split; congruence.
Qed.

Lemma keeps_jobs_string_to_spv0 (cfg : build_config) (g : globals)
    (_name in_fname : string) (defines : StdMap.t) :
  keeps_jobs (string_to_spv0 cfg g _name in_fname defines).
Proof. apply keeps_jobs_string_to_spv. Qed.

Ltac keeps_jobs_list :=
  lazymatch goal with
  | |- Forall _ (_ :: _) => apply Forall_cons; [ | keeps_jobs_list ]
  | |- Forall _ [] => apply Forall_nil
  end.

Ltac keeps_jobs_step :=
  lazymatch goal with
  | |- keeps_jobs skip => apply keeps_jobs_skip
  | |- keeps_jobs (string_to_spv _ _ _ _ _ _ _ _ _) => apply keeps_jobs_string_to_spv
  | |- keeps_jobs (string_to_spv0 _ _ _ _ _) => apply keeps_jobs_string_to_spv0
  | |- keeps_jobs (when _ _) => apply keeps_jobs_when
  | |- keeps_jobs (if _ then _ else _) => apply keeps_jobs_if
  | |- keeps_jobs (seq _) => apply keeps_jobs_seq; keeps_jobs_list
  | |- keeps_jobs (for_each _ _) => apply keeps_jobs_for_each; intro; cbv beta zeta
  | |- keeps_jobs (let _ := _ in _) => cbv zeta
  end.

Lemma keeps_jobs_matmul_shaders (cfg : build_config) (g : globals) (fp16 : bool)
    (matmul_id_type : MatMulIdType) (coopmat coopmat2 f16acc : bool) :
  keeps_jobs (matmul_shaders cfg g fp16 matmul_id_type coopmat coopmat2 f16acc).
Proof.
  unfold matmul_shaders. destruct matmul_id_type; cbv beta zeta iota;
    repeat keeps_jobs_step.
Qed.

Lemma keeps_jobs_process_shaders (cfg : build_config) (g : globals) :
  keeps_jobs (process_shaders cfg g).
Proof.
  unfold process_shaders. cbv beta zeta.
  repeat lazymatch goal with
         | |- keeps_jobs (matmul_shaders _ _ _ _ _ _ _) => apply keeps_jobs_matmul_shaders
         | _ => keeps_jobs_step
         end.
Qed.

(** X13: the catalog is the same in the two invocations of the generator:
    [process_shaders] records the same jobs, with the same paths, after
    [add_header] (when a CMakeLists is asked for) as from the empty state
    (when the binaries are embedded). *)
Theorem catalog_same_in_both_invocations (cfg : build_config) (g : globals)
    (argv : list string) (target_cmake : path) :
  vec_items (shader_fnames
               (process_shaders cfg g (state_before_shaders g argv target_cmake)))
  = catalog cfg g.
Proof.
  unfold catalog. f_equal.
  apply (keeps_jobs_process_shaders cfg g).
  unfold state_before_shaders. now destruct (negb (path_empty target_cmake)).
Qed.

(** ** The two generated units *)

Lemma concat_map_app {A : Type} (f : A -> string) (l1 l2 : list A) :
  String.concat EmptyString (map f (List.app l1 l2))
  = String.concat EmptyString (map f l1) ++ String.concat EmptyString (map f l2).
Proof. now rewrite map_app, concat_empty_app. Qed.

Lemma stub_loop (fnames : list (string * path)) (hdr src : sstream) (w : world) :
  exists hdr',
    for_each_io (embed_job true) fnames (hdr, src) w = Returned (hdr', src) w /\
    ss_str hdr' = ss_str hdr ++ String.concat EmptyString (map stub_lines fnames).
Proof.
  revert hdr. induction fnames as [|[name p] fnames IH]; intros hdr.
  - exists hdr. cbn. now rewrite append_nil_r.
  - cbn [for_each_io embed_job]. unfold bind, ret.
    destruct (IH (put_stub hdr name p)) as [hdr' [H1 H2]].
    exists hdr'. split; [exact H1|]. rewrite H2. cbn [map].
    rewrite concat_empty_cons. unfold stub_lines, put_stub. cbn [fst snd].
    rewrite !ss_str_put. now rewrite !append_assoc.
Qed.

Lemma binop_tables_str (op : string) :
  ss_str (fst (binop_tables op)) ++ ss_str (snd (binop_tables op))
  = binop_definition op.
Proof.
  unfold binop_definition, binop_tables, table_text, braces.
  cbn [fold_left List.seq open_brace close_brace Nat.eqb put2 fst snd].
  rewrite !ss_str_put, ss_str_empty.
  rewrite !append_assoc; cbn [append]; reflexivity.
Qed.

Lemma put_binop_tables_step (op : string) (hdr src : sstream) :
  put_binop_tables (hdr, src) op
  = (hdr << "extern const void * " << op << "_data[2][2][2][2];" ++ nl
         << "extern const uint64_t " << op << "_len[2][2][2][2];" ++ nl,
     src << ss_str (fst (binop_tables op)) << ss_str (snd (binop_tables op))).
Proof. unfold put_binop_tables. now destruct (binop_tables op). Qed.

Lemma binop_loop (ops : list string) (hdr src : sstream) :
  let r := fold_left put_binop_tables ops (hdr, src) in
  ss_str (fst r)
  = ss_str hdr ++ String.concat EmptyString (map binop_declaration ops) /\
  ss_str (snd r)
  = ss_str src ++ String.concat EmptyString (map binop_definition ops).
Proof.
  revert hdr src. induction ops as [|op ops IH]; intros hdr src.
  - cbn. now rewrite !append_nil_r.
  - cbn [fold_left]. rewrite put_binop_tables_step.
    match goal with
    | |- context [fold_left put_binop_tables ops (?h, ?s)] =>
        destruct (IH h s) as [H1 H2]
    end.
    cbv zeta in H1, H2. cbv zeta. rewrite H1, H2. cbn [map].
    rewrite !concat_empty_cons, !ss_str_put, <- (binop_tables_str op).
    unfold binop_declaration. split; rewrite !append_assoc; reflexivity.
Qed.

Lemma put_dmmv_table_step (btype tname : string) (hdr src : sstream) :
  ((btype =? "q8_1") && negb (is_legacy_quant tname))%bool = false ->
  let r := put_dmmv_table btype (hdr, src) tname in
  ss_str (fst r) = ss_str hdr ++ dmmv_declaration (tname, btype) /\
  ss_str (snd r) = ss_str src ++ dmmv_definition (tname, btype).
Proof.
  intros Hskip. unfold put_dmmv_table. rewrite Hskip. cbn [fst snd].
  unfold dmmv_declaration, dmmv_definition. cbn [fst snd]. rewrite !ss_str_put.
  split; rewrite !append_assoc; cbn [append]; reflexivity.
Qed.

Lemma dmmv_inner_loop (btype : string) (tnames : list string) (hdr src : sstream) :
  let rows := flat_map (fun tname =>
                if ((btype =? "q8_1") && negb (is_legacy_quant tname))%bool then []
                else [(tname, btype)]) tnames in
  let r := fold_left (put_dmmv_table btype) tnames (hdr, src) in
  ss_str (fst r) = ss_str hdr ++ String.concat EmptyString (map dmmv_declaration rows) /\
  ss_str (snd r) = ss_str src ++ String.concat EmptyString (map dmmv_definition rows).
Proof.
  revert hdr src. induction tnames as [|tname tnames IH]; intros hdr src.
  - cbn. now rewrite !append_nil_r.
  - cbn [fold_left flat_map].
    destruct ((btype =? "q8_1") && negb (is_legacy_quant tname))%bool eqn:Hskip.
    + replace (put_dmmv_table btype (hdr, src) tname) with (hdr, src)
        by (unfold put_dmmv_table; now rewrite Hskip).
      apply IH.
    + destruct (put_dmmv_table_step btype tname hdr src Hskip) as [S1 S2].
      cbv zeta in S1, S2.
      destruct (put_dmmv_table btype (hdr, src) tname) as [h s]. cbn [fst snd] in S1, S2.
      destruct (IH h s) as [H1 H2]. cbv zeta in H1, H2. cbv zeta.
      rewrite H1, H2, S1, S2. cbn [List.app map]. rewrite !concat_empty_cons.
      split; rewrite !append_assoc; reflexivity.
Qed.

Lemma dmmv_outer_loop (tnames btypes : list string) (hdr src : sstream) :
  let rows := flat_map (fun btype =>
                flat_map (fun tname =>
                  if ((btype =? "q8_1") && negb (is_legacy_quant tname))%bool then []
                  else [(tname, btype)]) tnames) btypes in
  let r := fold_left
             (fun acc btype => fold_left (put_dmmv_table btype) tnames acc)
             btypes (hdr, src) in
  ss_str (fst r) = ss_str hdr ++ String.concat EmptyString (map dmmv_declaration rows) /\
  ss_str (snd r) = ss_str src ++ String.concat EmptyString (map dmmv_definition rows).
Proof.
  revert hdr src. induction btypes as [|btype btypes IH]; intros hdr src.
  - cbn. now rewrite !append_nil_r.
  - cbn [fold_left flat_map].
    pose proof (dmmv_inner_loop btype tnames hdr src) as [H1 H2].
    cbv zeta in H1, H2.
    destruct (fold_left (put_dmmv_table btype) tnames (hdr, src)) as [h s].
    cbn [fst snd] in H1, H2.
    destruct (IH h s) as [K1 K2]. cbv zeta in K1, K2. cbv zeta.
    rewrite K1, K2, H1, H2, !concat_map_app.
    split; rewrite !append_assoc; reflexivity.
Qed.

Lemma dmmv_loop (btypes : list string) (hdr src : sstream) :
  let r := fold_left
             (fun acc btype => fold_left (put_dmmv_table btype) type_names acc)
             btypes (hdr, src) in
  ss_str (fst r)
  = ss_str hdr ++ String.concat EmptyString (map dmmv_declaration (dmmv_rows btypes)) /\
  ss_str (snd r)
  = ss_str src ++ String.concat EmptyString (map dmmv_definition (dmmv_rows btypes)).
Proof. exact (dmmv_outer_loop type_names btypes hdr src). Qed.

(** X14: the whole text of the two generated units. The header is the
    include line, in no-embed mode the definition of GGML_VK_SHADER_DIR and
    two lines per job that name the file of its binary, otherwise the
    declarations of the jobs whose binary reads back non-empty, and then
    the declarations of the lookup tables. The source is the include of the
    header by its file name, the array definitions (none in no-embed mode)
    and the definitions of the lookup tables. The jobs come in the order of
    [std::sort]. In no-embed mode nothing is read and nothing can be
    thrown; in embed mode the texts are not made when a read throws. *)
Theorem generated_units (cfg : build_config) (g : globals) (target_hpp : path)
    (no_embed : bool) (fnames : list (string * path)) (w : world) :
  match embed_texts cfg g target_hpp no_embed fnames w with
  | Returned texts w' =>
      quiet w w' /\ (no_embed = true -> w' = w) /\
      ss_str (fst texts)
      = "#include <cstdint>" ++ nl ++ nl
        ++ (if no_embed
            then "#define GGML_VK_SHADER_DIR " ++ quote ++ output_dir g ++ quote
                 ++ nl ++ nl
                 ++ String.concat EmptyString (map stub_lines (std_sort fnames))
            else String.concat EmptyString
                   (map declaration_lines (embedded w (std_sort fnames))))
        ++ String.concat EmptyString (map binop_declaration binop_ops)
        ++ String.concat EmptyString (map dmmv_declaration (dmmv_rows (btypes cfg))) /\
      ss_str (snd texts)
      = "#include " ++ quote ++ path_filename target_hpp ++ quote ++ nl ++ nl
        ++ (if no_embed then EmptyString
            else String.concat EmptyString
                   (map definition_lines (embedded w (std_sort fnames))))
        ++ String.concat EmptyString (map binop_definition binop_ops)
        ++ String.concat EmptyString (map dmmv_definition (dmmv_rows (btypes cfg)))
  | Thrown what w' =>
      no_embed = false /\ quiet w w' /\
      exists job, In job fnames /\ read_throws w (snd job) = true
  end.
Proof.
  unfold embed_texts. cbv zeta. unfold bind.
  destruct no_embed.
  - match goal with
    | |- context [for_each_io (embed_job true) ?l (?h, ?s) w] =>
        destruct (stub_loop l h s w) as [hdr' [Hloop Hstr]]; rewrite Hloop
    end.
    unfold ret.
    match goal with
    | |- context [fold_left put_binop_tables binop_ops (hdr', ?s)] =>
        pose proof (binop_loop binop_ops hdr' s) as [B1 B2]; cbv zeta in B1, B2;
        destruct (fold_left put_binop_tables binop_ops (hdr', s)) as [h1 s1]
    end.
    cbn [fst snd] in B1, B2.
    pose proof (dmmv_loop (btypes cfg) h1 s1) as [D1 D2]. cbv zeta in D1, D2.
    split; [apply quiet_refl|]. split; [reflexivity|].
    rewrite D1, D2, B1, B2, Hstr, !ss_str_put, ss_str_empty. cbn [append].
    split; now rewrite ?append_assoc.
  - match goal with
    | |- context [for_each_io (embed_job false) ?l (?h, ?s) w] =>
        pose proof (embed_loop_texts l h s w) as Hloop;
        destruct (for_each_io (embed_job false) l (h, s) w) as [[hdr' src'] w'|e w']
    end.
    + destruct Hloop as (_ & Hq & H1 & H2). cbn [fst snd] in H1, H2. unfold ret.
      pose proof (binop_loop binop_ops hdr' src') as [B1 B2]. cbv zeta in B1, B2.
      destruct (fold_left put_binop_tables binop_ops (hdr', src')) as [h1 s1].
      cbn [fst snd] in B1, B2.
      pose proof (dmmv_loop (btypes cfg) h1 s1) as [D1 D2]. cbv zeta in D1, D2.
      split; [exact Hq|]. split; [discriminate|].
      rewrite D1, D2, B1, B2, H1, H2, !ss_str_put, ss_str_empty. cbn [append].
      unfold declaration_lines, definition_lines.
      split; now rewrite ?append_assoc.
    + destruct Hloop as ((job & Hj & Ht) & Hq & _).
      split; [reflexivity|]. split; [exact Hq|].
      exists job. split; [exact (std_sort_In job fnames Hj) | exact Ht].
Qed.

(** ** The tables of the binary operators *)

(** X15: the four nested loops print each table of a binary operator as a
    nested initialiser list in row-major order of [t0][t1][t2][rte]: every
    level opens a brace before its first element and closes it after its
    second one, the innermost entries are the sixteen job names followed by
    _data (or _len) and a comma, and the outermost level ends the
    definition. *)
Theorem binop_tables_text (op : string) :
  ss_str (fst (binop_tables op))
  = "const void * " ++ op ++ "_data[2][2][2][2] = " ++ table_text op "_data" /\
  ss_str (snd (binop_tables op))
  = "const uint64_t " ++ op ++ "_len[2][2][2][2] = " ++ table_text op "_len".
Proof.
  unfold binop_tables, table_text, braces.
  cbn [fold_left List.seq open_brace close_brace Nat.eqb put2 fst snd].
  rewrite !ss_str_put, ss_str_empty.
  split; rewrite !append_assoc; cbn [append]; reflexivity.
Qed.

(** ** The lines of an embedded array *)

Lemma bytes_text_period (data : list Byte.byte) (i : nat) :
  bytes_text data (i + 12) = bytes_text data i.
Proof.
  revert i. induction data as [|b data IH]; intros i; [reflexivity|].
  cbn [bytes_text].
  replace (i + 12 + 1)%nat with (i + 1 + 1 * 12)%nat by lia.
  rewrite Nat.Div0.mod_add.
  change (S (i + 12)) with (S i + 12)%nat. now rewrite IH.
Qed.

Lemma bytes_text_short (data : list Byte.byte) (i : nat) :
  (i + List.length data < 12)%nat -> bytes_text data i = array_row data.
Proof.
  revert i. induction data as [|b data IH]; intros i H; [reflexivity|].
  cbn [List.length] in H. cbn [bytes_text]. unfold array_row. cbn [map].
  rewrite concat_empty_cons.
  rewrite (Nat.mod_small (i + 1) 12) by lia.
  replace ((i + 1 =? 0)%nat) with false by (symmetry; apply Nat.eqb_neq; lia).
  rewrite (IH (S i)) by lia. unfold byte_token, array_row.
  now rewrite !append_assoc.
Qed.

(** X16: an embedded array is written twelve elements to a line. Fewer than
    twelve bytes give one line without a newline; otherwise the text is the
    first twelve elements, a newline, and the text of the remaining bytes,
    laid out as if they started an array of their own. *)
Theorem array_text_lines (data : list Byte.byte) :
  ((List.length data < 12)%nat -> array_text data = array_row data) /\
  ((12 <= List.length data)%nat ->
   array_text data
   = array_row (firstn 12 data) ++ nl ++ array_text (skipn 12 data)).
Proof.
  unfold array_text. rewrite !ss_str_put_bytes, ss_str_empty. cbn [append].
  split; intros H.
  - apply bytes_text_short. lia.
  - do 12 (destruct data as [|? data]; [cbn [List.length] in H; lia|]).
    clear H. cbn [firstn skipn].
    cbn [bytes_text]. change (bytes_text data 12) with (bytes_text data (0 + 12)).
    rewrite (bytes_text_period data 0).
    unfold array_row, byte_token. cbn [map].
    rewrite !concat_empty_cons.
    change (String.concat EmptyString []) with EmptyString.
    cbn [Nat.add Nat.modulo Nat.divmod Nat.eqb fst snd Nat.sub].
    rewrite !append_assoc. cbn [append]. reflexivity.
Qed.

(** ** What a run of [main] touches *)

Lemma footprint_refl (files dirs : list path) (w : world) : footprint files dirs w w.
Proof. split; [reflexivity|]. split; [now left | now left]. Qed.

Lemma footprint_trans (files dirs : list path) (a b c : world) :
  footprint files dirs a b -> footprint files dirs b c -> footprint files dirs a c.
Proof.
  intros (O1 & N1 & T1) (O2 & N2 & T2). split; [congruence|]. split.
  - intros q. rewrite O1 in N2.
    destruct (N1 q) as [E1|[(I1 & d1 & F1)|(I1 & A1 & D1)]],
             (N2 q) as [E2|[(I2 & d2 & F2)|(I2 & A2 & D2)]].
    + left. congruence.
    + right. left. split; [exact I2 | now exists d2].
    + right. right. split; [exact I2|]. split; congruence.
    + right. left. split; [exact I1 | exists d1; congruence].
    + right. left. split; [exact I2 | now exists d2].
    + congruence.
    + right. right. split; [exact I1|]. split; congruence.
    + right. left. split; [exact I2 | now exists d2].
    + congruence.
  - intros x Hx. destruct (T2 x Hx) as [H|H]; [|now right].
    destruct (T1 x H) as [H'|H']; [now left | now right].
Qed.

Lemma footprint_grows (files dirs : list path) (w w' : world) :
  grows dirs w w' -> footprint files dirs w w'.
Proof.
  intros (O & N & T & _). split; [exact O|]. split.
  - intros q. destruct (N q) as [E|(A & D & d & Hd & Hq)]; [now left|].
    right. right. split; [now exists d | now split].
  - intros x Hx. left. now rewrite <- T.
Qed.

Lemma footprint_grows_mono (files dirs dirs' : list path) (w w' : world) :
  (forall d, In d dirs -> In d dirs') -> grows dirs w w' -> footprint files dirs' w w'.
Proof. intros Hi H. apply footprint_grows. exact (grows_mono _ _ _ _ Hi H). Qed.

Lemma footprint_touches (files dirs : list path) (w w' : world) :
  touches files w w' -> footprint files dirs w w'.
Proof.
  intros (O & N & D & A & T). split; [exact O|]. split; [|exact T].
  intros q.
  destruct (in_dec string_dec q (map (locate (w_os w)) files)) as [Hin|Hout].
  - apply in_map_iff in Hin as (t & Hq & Ht).
    destruct (w_node w' q) as [| |data'] eqn:E'.
    + left. destruct (w_node w q) eqn:E; [reflexivity| |];
        exfalso; apply (A q); [rewrite E; discriminate | exact E'
                               | rewrite E; discriminate | exact E'].
    + left. symmetry. now apply D.
    + right. left. split; [exists t; now split | now exists data'].
  - left. apply N. intros t Ht Hq. apply Hout. apply in_map_iff. exists t. now split.
Qed.

Lemma footprint_log (files dirs : list path) (w : world) (e : event) :
  write_attempts [e] = [] -> footprint files dirs w (log e w).
Proof.
  intros He. split; [reflexivity|]. split; [now left|].
  intros x Hx. left. cbn [log w_trace] in Hx.
  change (e :: w_trace w) with (List.app [e] (w_trace w)) in Hx.
  now rewrite write_attempts_app, He in Hx.
Qed.

(** X17: what a run touches. Whatever the command line and the file
    system, [main] removes nothing and leaves the answers of the system
    alone. The only places that change are those of its output files,
    which hold files afterwards, and those of the directories on the way
    to the output directory and to the directory of the CMakeLists, made
    where nothing was. [write_binary_file] is called for the output files
    only: for none when the usage is printed or the options are rejected,
    for the header and the source only when no CMakeLists is asked for or
    in no-embed mode, and for the CMakeLists only when one is asked
    for. *)
Theorem main_footprint (cfg : build_config) (argv : list string) (w : world) :
  let o := read_options argv in
  footprint (main_outputs o) (main_directories o) w (snd (main cfg argv w)).
Proof.
  intros o. unfold main. fold o. unfold main_outputs.
  destruct (opt_help o).
  { cbn [orb fst snd]. now apply footprint_log. }
  cbn [orb].
  destruct (opt_no_embed o && path_empty (opt_target_cmake o))%bool.
  { cbn [fst snd]. now apply footprint_log. }
  rewrite main_try_steps.
  set (files := output_files (opt_target_hpp o) (opt_target_cpp o)
                  (opt_target_cmake o) (opt_no_embed o)).
  set (dirs := main_directories o).
  assert (Hstderr : forall v text, footprint files dirs w v ->
            footprint files dirs w (log (Stderr text) v)).
  { intros v text H. apply (footprint_trans _ _ w v _ H). now apply footprint_log. }
  destruct (fs_exists (input_dir (opt_globals o)) w) as [[|] w0|e w0] eqn:F.
  2:{ apply fs_exists_Returned in F as (-> & _). cbn [snd]. now apply footprint_log. }
  2:{ cbn [snd]. apply Hstderr. revert F. unfold fs_exists.
      destruct (status_throws _ _); [|discriminate]. intros [= _ <-].
      apply footprint_refl. }
  apply fs_exists_Returned in F as (-> & _).
  pose proof (ensure_directory_grows (output_dir (opt_globals o)) w) as GA.
  apply (footprint_grows_mono files _ dirs) in GA;
    [|intros d Hd; apply in_or_app; now left].
  destruct (ensure_directory (output_dir (opt_globals o)) w) as [[] wA|e wA];
    cbn [world_of] in GA; [|cbn [snd]; now apply Hstderr].
  assert (GB : forall r,
            (if (negb (path_empty (opt_target_cmake o))
                 && has_parent_path (opt_target_cmake o))%bool
             then ensure_directory (parent_path (opt_target_cmake o)) wA
             else Returned tt wA) = r ->
            footprint files dirs w (world_of r)).
  { intros r <-. apply (footprint_trans _ _ w wA _ GA).
    destruct (negb (path_empty (opt_target_cmake o))
              && has_parent_path (opt_target_cmake o))%bool; [|apply footprint_refl].
    apply (footprint_grows_mono files (directory_chain (parent_path (opt_target_cmake o)))).
    - intros d Hd. apply in_or_app. now right.
    - apply ensure_directory_grows. }
  destruct (if (negb (path_empty (opt_target_cmake o))
                && has_parent_path (opt_target_cmake o))%bool
            then ensure_directory (parent_path (opt_target_cmake o)) wA
            else Returned tt wA) as [[] wB|e wB] eqn:EB;
    specialize (GB _ eq_refl); cbn [world_of] in GB; [|cbn [snd]; now apply Hstderr].
  set (st := process_shaders cfg (opt_globals o)
               (state_before_shaders (opt_globals o) argv (opt_target_cmake o))).
  pose proof (emit_outputs_touches cfg (opt_globals o) argv (opt_target_hpp o)
                (opt_target_cpp o) (opt_target_cmake o) (opt_no_embed o) st
                (log (Stdout progress_line) wB)) as TE.
  apply (footprint_touches files dirs) in TE. fold files in TE.
  assert (GP : footprint files dirs w (log (Stdout progress_line) wB)).
  { apply (footprint_trans _ _ w wB _ GB). now apply footprint_log. }
  destruct (emit_outputs cfg (opt_globals o) argv (opt_target_hpp o) (opt_target_cpp o)
              (opt_target_cmake o) (opt_no_embed o) st (log (Stdout progress_line) wB))
    as [[] w1|e w1]; cbn [world_of] in TE; cbn [snd].
  - exact (footprint_trans _ _ _ _ _ GP TE).
  - apply Hstderr. exact (footprint_trans _ _ _ _ _ GP TE).
Qed.

(** ** The order of the embedded jobs *)

Lemma pair_ltb_asym (a b : string * path) : pair_ltb a b = true -> pair_ltb b a = false.
Proof.
  unfold pair_ltb, String.ltb.
  rewrite (String.compare_antisym (fst a) (fst b)),
          (String.compare_antisym (snd a) (snd b)).
  destruct (String.compare (fst b) (fst a)); cbn [CompOpp]; try discriminate;
    [|reflexivity].
  now destruct (String.compare (snd b) (snd a)).
Qed.

Lemma sort_insert_Permutation (x : string * path) (l : list (string * path)) :
  Permutation (x :: l) (sort_insert x l).
Proof.
  induction l as [|y l IH]; cbn [sort_insert]; [apply Permutation_refl|].
  destruct (pair_ltb y x); [|apply Permutation_refl].
  apply (perm_trans (perm_swap y x l)). now apply perm_skip.
Qed.

Lemma sort_insert_Sorted (x : string * path) (l : list (string * path)) :
  Sorted (fun a b => pair_ltb b a = false) l ->
  Sorted (fun a b => pair_ltb b a = false) (sort_insert x l).
Proof.
  induction l as [|y l IH]; intros H; cbn [sort_insert].
  - repeat constructor.
  - destruct (pair_ltb y x) eqn:E.
    + inversion H as [|? ? Hs Hh]; subst. constructor; [now apply IH|].
      destruct l as [|z l]; cbn [sort_insert].
      * constructor. now apply pair_ltb_asym.
      * destruct (pair_ltb z x); constructor.
        -- now inversion Hh.
        -- now apply pair_ltb_asym.
    + constructor; [exact H|]. now constructor.
Qed.

(** X18: the jobs are embedded in the order of [std::sort]: the sorted
    list is a rearrangement of the catalog, so every job is emitted as
    often as it was generated, and no element is smaller (by name, then by
    path) than the one before it. *)
Theorem std_sort_spec (l : list (string * path)) :
  Permutation l (std_sort l) /\
  Sorted (fun a b => pair_ltb b a = false) (std_sort l).
Proof.
  unfold std_sort. induction l as [|x l [IHp IHs]]; cbn [fold_right].
  - split; constructor.
  - split.
    + apply (perm_trans (perm_skip x IHp)). apply sort_insert_Permutation.
    + now apply sort_insert_Sorted.
Qed.

(** ** The file name of a compiled binary *)

Lemma after_last_slash_plain (s cur : string) :
  no_slash s = true -> after_last_slash s cur = string_rev cur ++ s.
Proof.
  revert cur. induction s as [|c s IH]; intros cur H; cbn [after_last_slash].
  - now rewrite append_nil_r.
  - cbn [no_slash] in H. apply andb_true_iff in H as [Hc Hs].
    apply negb_true_iff in Hc. rewrite Hc, (IH _ Hs), string_rev_cons, append_assoc.
    reflexivity.
Qed.

Lemma after_last_slash_append (a b cur : string) :
  no_slash b = true ->
  after_last_slash (a ++ b) cur = after_last_slash a cur ++ b.
Proof.
  intros Hb. revert cur. induction a as [|c a IH]; intros cur; cbn [append after_last_slash].
  - now apply after_last_slash_plain.
  - destruct (Ascii.eqb c char_slash); apply IH.
Qed.

Lemma no_slash_append (a b : string) :
  no_slash a = true -> no_slash b = true -> no_slash (a ++ b) = true.
Proof.
  intros Ha Hb. induction a as [|c a IH]; [exact Hb|].
  cbn [no_slash append] in *. apply andb_true_iff in Ha as [Hc Ha].
  now rewrite Hc, (IH Ha).
Qed.

Lemma path_filename_append (p q : path) :
  no_slash q = true -> path_filename (path_append p q) = q.
Proof.
  intros Hq. unfold path_append.
  assert (Habs : path_is_absolute q = false).
  { destruct q as [|c q]; [reflexivity|]. cbn [no_slash] in Hq.
    apply andb_true_iff in Hq as [Hc _]. now apply negb_true_iff in Hc. }
  rewrite Habs. unfold path_filename.
  destruct (String.length (after_last_slash p EmptyString) =? 0)%nat eqn:E.
  - rewrite (after_last_slash_append p q EmptyString Hq).
    apply Nat.eqb_eq in E.
    destruct (after_last_slash p EmptyString); [reflexivity | discriminate].
  - rewrite <- append_assoc.
    rewrite (after_last_slash_append (p ++ str1 char_slash) q EmptyString Hq).
    assert (H : forall cur, after_last_slash (p ++ str1 char_slash) cur = EmptyString).
    { clear. induction p as [|c p IH]; intros cur; cbn [append after_last_slash].
      - unfold str1. cbn [after_last_slash]. now rewrite Ascii.eqb_refl.
      - destruct (Ascii.eqb c char_slash); apply IH. }
    now rewrite H.
Qed.

(** X19: the file a stub of the no-embed header names. For a job whose
    name has no slash, the file name of its binary, which is what the stub
    records, is the name followed by .spv, whatever the output directory:
    relative, absolute, empty or ending in a slash. *)
Theorem job_file_name (g : globals) (name : string) :
  no_slash name = true -> path_filename (job_path g name) = name ++ ".spv".
Proof.
  intros H. unfold job_path. apply path_filename_append.
  now apply no_slash_append.
Qed.

Lemma job_file_name_witness :
  no_slash "add_f32" = true /\
  path_filename (job_path default_globals "add_f32") = "add_f32" ++ ".spv".
Proof. split; [reflexivity | apply job_file_name; reflexivity]. Defined.

(** ** The targets of the CMakeLists *)

Lemma ss_str_depends (indent : string) (paths : list path) (out : sstream) :
  ss_str (fold_left (fun o spv_path => o << indent << path_out spv_path << nl) paths out)
  = ss_str out ++ depends_text indent paths.
Proof.
  revert out. induction paths as [|p paths IH]; intros out; cbn [fold_left].
  - unfold depends_text. cbn. now rewrite append_nil_r.
  - rewrite IH, !ss_str_put. unfold depends_text. cbn [map].
    rewrite concat_empty_cons. now rewrite !append_assoc.
Qed.

Lemma process_shaders_filepaths (cfg : build_config) (g : globals)
    (argv : list string) (target_cmake : path) :
  vec_items (cmake_out_filepaths
               (process_shaders cfg g (state_before_shaders g argv target_cmake)))
  = map snd (catalog cfg g).
Proof.
  assert (Hs : same_jobs (state_before_shaders g argv target_cmake) initial_state).
  { unfold state_before_shaders. now destruct (negb (path_empty target_cmake)). }
  apply (keeps_jobs_process_shaders cfg g) in Hs. destruct Hs as [_ Hs].
  assert (H0 : catalog_consistent g initial_state) by (split; [reflexivity | constructor]).
  pose proof (keeps_process_shaders cfg g initial_state H0) as [H1 _].
  unfold catalog, vec_items.
  set (st := process_shaders cfg g initial_state) in *.
  set (st' := process_shaders cfg g (state_before_shaders g argv target_cmake)) in *.
  clearbody st st'.
  rewrite Hs, H1. symmetry. apply map_rev.
Qed.

(** X20: the target of the CMakeLists depends on the binary of every job of
    the catalog. In no-embed mode the target vulkan-shaders lists, after
    the build commands, one path per job in the order of the catalog; in
    embed mode the command that runs the generator again has the same
    paths under DEPENDS, and the target depends on the two files that
    command writes. *)
Theorem cmake_targets_depend_on_catalog (cfg : build_config) (g : globals)
    (argv : list string) (target_cmake exe target_hpp target_cpp : path) :
  let st := process_shaders cfg g (state_before_shaders g argv target_cmake) in
  ss_str (cmake_out (add_target_build_only st))
  = ss_str (cmake_out st)
    ++ nl ++ "add_custom_target(vulkan-shaders ALL DEPENDS" ++ nl
    ++ depends_text "  " (map snd (catalog cfg g))
    ++ ")" ++ nl /\
  ss_str (cmake_out (add_target_embed g exe target_hpp target_cpp st))
  = ss_str (cmake_out st)
    ++ nl ++ "add_custom_command(" ++ nl
    ++ "  OUTPUT " ++ path_out target_hpp ++ " " ++ path_out target_cpp ++ nl
    ++ "  COMMAND " ++ path_out exe
    ++ " --glslc " ++ GLSLC g
    ++ " --input-dir " ++ path_out (input_dir g)
    ++ " --output-dir " ++ path_out (output_dir g)
    ++ " --target-hpp " ++ path_out target_hpp
    ++ " --target-cpp " ++ path_out target_cpp ++ nl
    ++ "  DEPENDS" ++ nl
    ++ depends_text "    " (map snd (catalog cfg g))
    ++ "  COMMENT " ++ quote ++ "Embedding Vulkan shaders into C++ source" ++ quote ++ nl
    ++ ")" ++ nl
    ++ nl ++ "add_custom_target(vulkan-shaders ALL DEPENDS" ++ nl
    ++ "  " ++ path_out target_hpp ++ nl
    ++ "  " ++ path_out target_cpp ++ nl
    ++ ")" ++ nl.
Proof.
  intros st. pose proof (process_shaders_filepaths cfg g argv target_cmake) as Hfp.
  fold st in Hfp. clearbody st.
  unfold add_target_build_only, add_target_embed. cbn [cmake_out].
  rewrite !ss_str_put, !ss_str_depends, !ss_str_put, Hfp.
  split; rewrite !append_assoc; cbn [append]; reflexivity.
Qed.
